(** * The corpus-curation pipeline of [4-Download_POCs.py]

    A shallow embedding of [NucleiEnterpriseManager] and of the script's
    [__main__] block.  The file system is a finite map from paths (lists of
    components) to file contents; every external collaborator (hashlib,
    the YAML parser, git, the nuclei checker, the scheduler of the worker
    pools, I/O failures, the operator's Ctrl-C) is a field of the
    environment record [Env], so every statement below holds for all of
    them unless a hypothesis says otherwise.

    Modelling conventions:
    - a path is the list of its components; [os.path.join root file] is
      [root ++ [file]]; a declared tag is taken as one path component;
    - directories are not stored: a directory that holds a file exists,
      the clone directory exists once [_init_workspace] has made it, and
      whether any other, empty directory exists is the answer [empty_dir] of
      the environment; [os.makedirs] only matters through its failure;
    - the worker pools are sequentialised: the order in which futures
      complete is the permutation [as_completed] of the environment, and
      an exception stored in a future whose [result()] is never read is
      dropped, as in the source;
    - [os.remove] is only ever called on a path that was just listed or
      hashed, so it is modelled by deletion of the key;
    - the tasks of one [asyncio.gather] are all scheduled, then run one
      after the other; the trace records subprocesses, sleeps, printed
      lines and the dispatch and completion of every sync operation;
    - Ctrl-C arrives between two statements of the [try] block; what the
      handler does is stated for every state it can be entered in;
    - [_init_git_config] only writes git's global configuration, which
      is not part of the file system considered; its three command lines
      are listed by the definition of that name and are not recorded in
      the trace. *)

From Stdlib Require Import ZArith Lia Ascii String.
From stdpp Require Import gmap strings list fin_maps pretty.

Abbreviation path := (list string).
Abbreviation FS := (gmap (list string) string).

(** ** Python string helpers *)

Module Py.

Definition nl : string := String (Ascii.ascii_of_nat 10) EmptyString.

(** [s.endswith(suffix)] *)
Definition endswith (s suffix : string) : bool :=
  let n := String.length s in
  let k := String.length suffix in
  (k <=? n)%nat && String.eqb (String.substring (n - k) k s) suffix.

Definition lower_ascii (c : ascii) : ascii :=
  let n := Ascii.nat_of_ascii c in
  if (65 <=? n)%nat && (n <=? 90)%nat then Ascii.ascii_of_nat (n + 32) else c.

(** [s.lower()] for a string of ASCII text: the letters [A] to [Z] *)
Fixpoint lower (s : string) : string :=
  match s with
  | EmptyString => EmptyString
  | String c s' => String (lower_ascii c) (lower s')
  end.

(** [s.split(sep)] for a one-character separator *)
Fixpoint split (sep : ascii) (s : string) : list string :=
  match s with
  | EmptyString => [EmptyString]
  | String c s' =>
      if Ascii.eqb c sep then EmptyString :: split sep s'
      else match split sep s' with
           | w :: ws => String c w :: ws
           | [] => [String c EmptyString]
           end
  end.

(** [s.replace('.git', '')] *)
Fixpoint remove_dot_git (s : string) : string :=
  match s with
  | String "." (String "g" (String "i" (String "t" rest))) => remove_dot_git rest
  | String c rest => String c (remove_dot_git rest)
  | EmptyString => EmptyString
  end.

Definition is_space (c : ascii) : bool :=
  let n := Ascii.nat_of_ascii c in
  (n =? 32)%nat || ((9 <=? n)%nat && (n <=? 13)%nat).

Fixpoint lstrip (l : list ascii) : list ascii :=
  match l with
  | c :: l' => if is_space c then lstrip l' else l
  | [] => []
  end.

(** [s.strip()] *)
Definition strip (s : string) : string :=
  string_of_list_ascii
    (rev (lstrip (rev (lstrip (list_ascii_of_string s))))).

(** the lines a text file yields when iterated *)
Definition file_lines (s : string) : list string :=
  let pieces := split (Ascii.ascii_of_nat 10) s in
  match last pieces with
  | Some EmptyString => removelast pieces
  | _ => pieces
  end.

(** [sep.join(l)] *)
Definition join (sep : string) (l : list string) : string := String.concat sep l.

(** [str(n)] *)
Definition str (z : Z) : string := pretty z.

Section Slices.
Context {A : Type}.

Fixpoint chunks_aux (fuel k : nat) (l : list A) : list (list A) :=
  match fuel with
  | O => []
  | S fuel' =>
      match l with
      | [] => []
      | _ :: _ => take k l :: chunks_aux fuel' k (drop k l)
      end
  end.

(** [[l[i:i+k] for i in range(0, len(l), k)]] for a positive step *)
Definition chunks (k : nat) (l : list A) : list (list A) :=
  chunks_aux (length l) k l.

(** The same for any integer step: [range] refuses a zero step and is
    empty for a negative one. *)
Definition range_slices (step : Z) (l : list A) : option (list (list A)) :=
  if decide (step = 0)%Z then None
  else if decide (step < 0)%Z then Some []
  else Some (chunks (Z.to_nat step) l).

End Slices.

End Py.

(** ** What [yaml.safe_load] returns *)

Module Yaml.

#[local] Set Warnings "-register-all".

Inductive t : Type :=
| Null
| Bool (b : bool)
| Int (z : Z)
| Str (s : string)
| List (items : list t)
| Dict (entries : list (t * t)).

Definition is_key (key : string) (k : t) : bool :=
  match k with
  | Str s => String.eqb s key
  | _ => false
  end.

(** [d.get(key, default)]; [None] is the [AttributeError] of a value
    that is not a mapping. *)
Definition get (d : t) (key : string) (default : t) : option t :=
  match d with
  | Dict entries =>
      match List.find (fun kv => is_key key (fst kv)) entries with
      | Some kv => Some (snd kv)
      | None => Some default
      end
  | _ => None
  end.

Fixpoint chars (s : string) : list t :=
  match s with
  | EmptyString => []
  | String c s' => Str (String c EmptyString) :: chars s'
  end.

(** [for tag in v]; [None] is the [TypeError] of a value that is not
    iterable. *)
Definition iter (v : t) : option (list t) :=
  match v with
  | List items => Some items
  | Str s => Some (chars s)
  | Dict entries => Some (map fst entries)
  | _ => None
  end.

(** [tag.lower()]; [None] is the [AttributeError] of a non-string. *)
Definition lower (v : t) : option string :=
  match v with
  | Str s => Some (Py.lower s)
  | _ => None
  end.

End Yaml.

(** ** Module constants *)

Definition CONFIG_FILE : string := "config.json".
Definition REPO_FILE : string := "repo.csv".
Definition CLONE_DIR : string := "clone-templates".
Definition POC_DIR : string := "poc".
Definition TMP_DIR : string := ".tmp".
Definition NUCLEI_BIN : string := "./nuclei_darwin_arm64".
Definition MAX_WORKERS : nat := 20.
Definition INDEX_FILE : string := "poc.txt".

(** ** The environment *)

Inductive stage := Dedup | Seed | Categorize.

Inductive io_op :=
| op_hash (st : stage) (p : path)
| op_copy (src dst : path)
| op_move (src dst : path)
| op_makedirs (d : path).

Inductive exn :=
| RuntimeError
| OSError (op : io_op)
| FileNotFoundError (p : path)
| ValueError
| KeyboardInterrupt.

(** How a subprocess ends. *)
Inductive proc_outcome :=
| Exited (returncode : Z)
| TimeoutExpired
| Raised (msg : string).

(** The keys of [config.json] the manager reads, before defaults. *)
Record RawConfig := {
  raw_ENABLE_STAGE1 : option bool;
  raw_GIT_PARALLEL : option Z;
  raw_GIT_DEPTH : option Z;
  raw_GITHUB_TOKEN : option string
}.

Record Config := {
  ENABLE_STAGE1 : bool;
  GIT_PARALLEL : Z;
  GIT_DEPTH : Z;
  GITHUB_TOKEN : option string
}.

Record Env := {
  (** [hashlib.sha256(data).hexdigest()] *)
  hexdigest : string -> string;
  (** [yaml.safe_load]; [None] when it raises *)
  safe_load : string -> option Yaml.t;
  (** [json.load] of the configuration file; [None] when it raises *)
  json_load : option RawConfig;
  (** the clone URLs the search answers with; [None] when it raises *)
  github_search : option (list string);
  (** one git subprocess, at a given time, on the file system *)
  git : nat -> list string -> FS -> proc_outcome * FS;
  (** whether a directory that holds no file is there, at a given time *)
  empty_dir : nat -> path -> bool;
  (** the checker: argv, timeout in seconds, content of the target *)
  nuclei : list string -> Z -> option string -> proc_outcome;
  (** which file operations fail *)
  io_fault : io_op -> bool;
  (** the order in which the futures of a worker pool complete *)
  as_completed : stage -> forall A : Type, list A -> list A;
  (** the number of completed stages after which Ctrl-C arrives *)
  sigint : option nat
}.

(** ** Observable events *)

Inductive log_line :=
| stage1_skipped
| stage_banner (n : nat)
| git_exception (msg : string)
| api_failure
| progress (completed total : nat)
| valid_total (total : nat).

Inductive event :=
| EvPrint (l : log_line)
| EvExec (argv : list string) (timeout : option Z) (r : proc_outcome)
| EvSleep (secs : Z)
| EvDispatch (url : string)
| EvComplete (url : string).

Record State := mkState { fs : FS; trace : list event }.

Inductive Outcome :=
| Done (s : State)
| Crashed (e : exn) (s : State).

Definition emit (e : event) (s : State) : State :=
  mkState (fs s) (trace s ++ [e]).

Definition print (l : log_line) (s : State) : State := emit (EvPrint l) s.

Definition set_fs (f : FS) (s : State) : State := mkState f (trace s).

Definition stdout (s : State) : list log_line :=
  omap (fun e => match e with EvPrint l => Some l | _ => None end) (trace s).

(** ** Paths and directory walks *)

Definition path_str (p : path) : string := Py.join "/" p.

Definition split_last (p : path) : option (path * string) :=
  match reverse p with
  | file :: rroot => Some (reverse rroot, file)
  | [] => None
  end.

(** [p] is a file somewhere below the directory [top]. *)
Definition under (top : string) (p : path) : Prop :=
  match p with
  | c :: _ :: _ => c = top
  | _ => False
  end.

#[global] Instance under_dec top p : Decision (under top p).
Proof. destruct p as [|c [|d r]]; simpl; apply _. Defined.

(** The files below [top], as a map of their own. *)
Definition subtree (top : string) (f : FS) : FS :=
  filter (fun kv => under top (fst kv)) f.

(** The [(root, file)] pairs of [os.walk(top)], flattened; the order of
    the listing depends on the tree below [top] only. *)
Definition walk (top : string) (f : FS) : list (path * string) :=
  omap split_last (map fst (map_to_list (subtree top f))).

(** [os.path.relpath(p, start)] for a one-component [start] *)
Definition relpath (p : path) (start : string) : path :=
  match p with
  | c :: rest => if decide (c = start) then rest else ".." :: p
  | [] => [".."]
  end.

Definition is_rule_file (file : string) : bool :=
  Py.endswith file ".yml" || Py.endswith file ".yaml".

Definition rule_files (l : list (path * string)) : list (path * string) :=
  filter (fun rf => is_rule_file (snd rf) = true) l.

(** [shutil.rmtree(top, ignore_errors=True)] *)
Definition rmtree (top : string) (f : FS) : FS :=
  filter (fun kv => head (fst kv) <> Some top) f.

(** [os.path.exists(d)] for a directory, asked inside the [try] block at
    time [t]: the clone directory, also when it is written with a final
    [.] or [..], is there since [_init_workspace]; any other directory is
    there when a file lies below it, or when the environment reports it,
    empty. *)
Definition dir_exists (env : Env) (t : nat) (d : path) (f : FS) : bool :=
  bool_decide (d ∈ [[CLONE_DIR]; [CLONE_DIR; "."]; [CLONE_DIR; ".."]])
  || bool_decide (Exists (fun kv => d `prefix_of` fst kv) (map_to_list f))
  || empty_dir env t d.

(** ** Fingerprints *)

Definition CHUNK : nat := 4096.

(** [_calculate_sha256]: the file is read in blocks of 4096 bytes, each
    fed to the hasher. *)
Definition _calculate_sha256 (env : Env) (st : stage) (f : FS) (p : path)
  : exn + (path * string) :=
  if io_fault env (op_hash st p) then inl (OSError (op_hash st p))
  else match f !! p with
       | None => inl (FileNotFoundError p)
       | Some data =>
           let blocks := Py.chunks CHUNK (list_ascii_of_string data) in
           let hasher := foldl (fun acc block => acc ++ block) [] blocks in
           inr (p, hexdigest env (string_of_list_ascii hasher))
       end.

(** ** Stage 1: repository synchronisation *)

Definition _load_config (env : Env) : exn + Config :=
  match json_load env with
  | None => inl RuntimeError
  | Some raw =>
      inr {| ENABLE_STAGE1 := default true (raw_ENABLE_STAGE1 raw);
             GIT_PARALLEL := default 8%Z (raw_GIT_PARALLEL raw);
             GIT_DEPTH := default 1%Z (raw_GIT_DEPTH raw);
             GITHUB_TOKEN := raw_GITHUB_TOKEN raw |}
  end.

(** [_init_git_config]: the command lines the constructor hands to
    [os.system], one after the other; their exit codes are not looked at. *)
Definition _init_git_config (cfg : Config) : list string :=
  [ "git config --global core.compression 0";
    "git config --global core.parallelClone true";
    "git config --global pack.threads " +:+ Py.str (GIT_PARALLEL cfg) ].

(** [_init_workspace] *)
Definition _init_workspace (env : Env) (s : State) : Outcome :=
  if io_fault env (op_makedirs [CLONE_DIR]) then
    Crashed (OSError (op_makedirs [CLONE_DIR])) s
  else if io_fault env (op_makedirs [POC_DIR]) then
    Crashed (OSError (op_makedirs [POC_DIR])) s
  else
    let s' := set_fs (rmtree TMP_DIR (fs s)) s in
    if io_fault env (op_makedirs [TMP_DIR]) then
      Crashed (OSError (op_makedirs [TMP_DIR])) s'
    else Done s'.

Definition repo_name (url : string) : string :=
  Py.remove_dot_git (default EmptyString (last (Py.split "/" url))).

Definition target_dir (url : string) : path :=
  let name := Py.lower (repo_name url) in
  if decide (name = EmptyString) then [CLONE_DIR] else [CLONE_DIR; name].

(** [os.path.join(CLONE_DIR, repo_name.lower())], the string handed to
    git: the name holds no [/], and an empty name leaves the final [/]. *)
Definition target_str (url : string) : string :=
  CLONE_DIR +:+ "/" +:+ Py.lower (repo_name url).

Definition git_command (env : Env) (cfg : Config) (url : string) (t : nat) (f : FS)
  : list string :=
  let target := target_str url in
  if dir_exists env t (target_dir url) f then
    ["git"; "-C"; target; "pull"; "--depth"; Py.str (GIT_DEPTH cfg);
     "--filter=tree:0"]
  else
    ["git"; "clone"; "--depth"; Py.str (GIT_DEPTH cfg); "--filter=tree:0";
     url; target].

(** The [for retry in ...] loop of [_async_git_ops]. *)
Fixpoint git_retries (env : Env) (cfg : Config) (url : string)
    (retries : list nat) (s : State) : State :=
  match retries with
  | [] => s
  | retry :: rest =>
      let argv := git_command env cfg url (length (trace s)) (fs s) in
      let '(r, f') := git env (length (trace s)) argv (fs s) in
      let s' := emit (EvExec argv None r) (set_fs f' s) in
      match r with
      | Exited return_code =>
          if decide (return_code = 0)%Z then s'
          else git_retries env cfg url rest (emit (EvSleep (2 ^ Z.of_nat retry)) s')
      | TimeoutExpired => git_retries env cfg url rest (print (git_exception "timeout") s')
      | Raised msg => git_retries env cfg url rest (print (git_exception msg) s')
      end
  end.

Definition _async_git_ops (env : Env) (cfg : Config) (url : string)
    (s : State) : State :=
  git_retries env cfg url (seq 0 3) s.

Definition _fetch_github_repos (env : Env) (s : State) : list string * State :=
  match github_search env with
  | Some urls => (urls, s)
  | None => ([], print api_failure s)
  end.

Definition read_file (p : path) (f : FS) : string := default EmptyString (f !! p).

(** [_update_repo_registry] *)
Definition _update_repo_registry (new_repos : list string) (s : State) : State :=
  let existing : gset string :=
    match fs s !! [REPO_FILE] with
    | Some text => list_to_set (map Py.strip (Py.file_lines text))
    | None => ∅
    end in
  set_fs (<[ [REPO_FILE] := Py.join Py.nl (elements (existing ∪ list_to_set new_repos)) ]> (fs s)) s.

Definition registry_urls (f : FS) : list string :=
  elements (list_to_set (C := gset string)
     (filter (fun l => l <> EmptyString)
             (map Py.strip (Py.file_lines (read_file [REPO_FILE] f))))).

(** [asyncio.gather] of one batch: every task is scheduled, then each
    runs to completion. *)
Definition gather (env : Env) (cfg : Config) (batch : list string) (s : State) : State :=
  let started := foldl (fun s url => emit (EvDispatch url) s) s batch in
  foldl (fun s url => emit (EvComplete url) (_async_git_ops env cfg url s)) started batch.

Definition dynamic_repo_discovery (env : Env) (cfg : Config) (s : State) : Outcome :=
  if negb (ENABLE_STAGE1 cfg) then Done (print stage1_skipped s)
  else
    let s1 := print (stage_banner 1) s in
    let '(new_repos, s2) := _fetch_github_repos env s1 in
    let s3 := _update_repo_registry new_repos s2 in
    let urls := registry_urls (fs s3) in
    let batch_size := (GIT_PARALLEL cfg * 2)%Z in
    match Py.range_slices batch_size urls with
    | None => Crashed ValueError s3
    | Some batches => Done (foldl (fun s batch => gather env cfg batch s) s3 batches)
    end.

(** ** Stage 2: deduplication of the working copies *)

Fixpoint dedup_loop (env : Env) (snapshot : FS) (completed : list path)
    (hash_registry : gmap string path) (s : State) : Outcome :=
  match completed with
  | [] => Done s
  | p :: rest =>
      match _calculate_sha256 env Dedup snapshot p with
      | inl e => Crashed e s
      | inr (path, file_hash) =>
          if decide (is_Some (hash_registry !! file_hash)) then
            dedup_loop env snapshot rest hash_registry (set_fs (delete path (fs s)) s)
          else
            dedup_loop env snapshot rest (<[file_hash := path]> hash_registry) s
      end
  end.

Definition candidates (f : FS) : list (path * string) :=
  rule_files (walk CLONE_DIR f).

Definition os_path_join (rf : path * string) : path := fst rf ++ [snd rf].

Definition enterprise_deduplication (env : Env) (s : State) : Outcome :=
  let s1 := print (stage_banner 2) s in
  let futures := map os_path_join (candidates (fs s1)) in
  dedup_loop env (fs s1) (as_completed env Dedup _ futures) ∅ s1.

(** ** Stage 3: categorisation into staging areas *)

Fixpoint hash_all (env : Env) (st : stage) (f : FS) (l : list path)
  : exn + gset string :=
  match l with
  | [] => inr ∅
  | p :: rest =>
      match _calculate_sha256 env st f p with
      | inl e => inl e
      | inr (_, h) =>
          match hash_all env st f rest with
          | inl e => inl e
          | inr hs => inr ({[ h ]} ∪ hs)
          end
      end
  end.

(** [shutil.copy] submitted to the inner pool; its exception is lost. *)
Definition submit_copy (env : Env) (src dst : path) (f : FS) : FS :=
  if io_fault env (op_copy src dst) then f
  else match f !! src with
       | Some data => <[dst := data]> f
       | None => f
       end.

(** The [for tag in tags] loop; the first tag that raises ends it.
    [os.path.join(TMP_DIR, tag.lower())] is taken as the one component [t]
    below the staging directory, which it is for a tag that is a plain
    name; the statements about tags assume as much. *)
Fixpoint fan_out (env : Env) (src : path) (file : string)
    (tags : list Yaml.t) (f : FS) : FS :=
  match tags with
  | [] => f
  | tag :: rest =>
      match Yaml.lower tag with
      | None => f
      | Some t =>
          let dest_dir := [TMP_DIR; t] in
          if io_fault env (op_makedirs dest_dir) then f
          else fan_out env src file rest (submit_copy env src (dest_dir ++ [file]) f)
      end
  end.

(** [yaml.safe_load(f).get('info', {}).get('tags', [])], then the
    iteration over it; [None] when any step raises. *)
Definition declared_tags (env : Env) (text : string) : option (list Yaml.t) :=
  doc ← safe_load env text;
  info ← Yaml.get doc "info" (Yaml.Dict []);
  tags ← Yaml.get info "tags" (Yaml.List []);
  Yaml.iter tags.

Definition _process_poc (env : Env) (existing_hashes : gset string)
    (f : FS) (rf : path * string) : FS :=
  let src := os_path_join rf in
  match _calculate_sha256 env Categorize f src with
  | inl _ => f
  | inr (_, file_hash) =>
      if decide (file_hash ∈ existing_hashes) then f
      else match f !! src with
           | None => f
           | Some text =>
               match declared_tags env text with
               | None => f
               | Some tags => fan_out env src (snd rf) tags f
               end
           end
  end.

Definition progress_lines (total : nat) : list event :=
  map (fun k => EvPrint (progress (50 * k) total)) (seq 1 (total / 50)).

Definition dynamic_categorization (env : Env) (s : State) : Outcome :=
  let s1 := print (stage_banner 3) s in
  match hash_all env Seed (fs s1) (map os_path_join (walk POC_DIR (fs s1))) with
  | inl e => Crashed e s1
  | inr existing_hashes =>
      let futures := as_completed env Categorize _ (candidates (fs s1)) in
      let f' := foldl (_process_poc env existing_hashes) (fs s1) futures in
      Done (mkState f' (trace s1 ++ progress_lines (length futures)))
  end.

(** The [for future in as_completed(futures)] loop of
    [dynamic_categorization], with its counter. *)
Fixpoint progress_loop {A} (futures : list A) (completed total : nat) (s : State) : State :=
  match futures with
  | [] => s
  | _ :: rest =>
      let completed := S completed in
      progress_loop rest completed total
        (if (completed mod 50 =? 0)%nat then print (progress completed total) s else s)
  end.

(** ** Stage 4: validation and migration *)

Definition _validate_poc (env : Env) (s : State) (p : path) : State :=
  let argv := [NUCLEI_BIN; "-validate"; "-t"; path_str p] in
  let result := nuclei env argv 120 (fs s !! p) in
  let s' := emit (EvExec argv (Some 120%Z) result) s in
  match result with
  | Exited returncode =>
      if decide (returncode <> 0)%Z then set_fs (delete p (fs s')) s' else s'
  | _ => set_fs (delete p (fs s')) s'
  end.

Definition _safe_move (env : Env) (src dest : path) (f : FS) : exn + FS :=
  if io_fault env (op_makedirs (removelast dest)) then
    inl (OSError (op_makedirs (removelast dest)))
  else if io_fault env (op_move src dest) then inl (OSError (op_move src dest))
  else match f !! src with
       | Some data => inr (<[dest := data]> (delete src f))
       | None => inl (FileNotFoundError src)
       end.

Definition migrate_one (env : Env) (f : FS) (rf : path * string) : FS :=
  let src := os_path_join rf in
  let dest := POC_DIR :: relpath src TMP_DIR in
  match _safe_move env src dest f with
  | inr f' => f'
  | inl _ => f
  end.

Definition _migrate_valid_files (env : Env) (s : State) : State :=
  set_fs (foldl (migrate_one env) (fs s) (walk TMP_DIR (fs s))) s.

Definition enterprise_validation (env : Env) (s : State) : Outcome :=
  let s1 := print (stage_banner 4) s in
  let file_paths := map os_path_join (walk TMP_DIR (fs s1)) in
  let batch_size := 200 in
  let s2 := foldl (fun s batch => foldl (_validate_poc env) s batch) s1
                  (Py.chunks batch_size file_paths) in
  Done (_migrate_valid_files env s2).

(** ** Stage 5: the index *)

Definition index_line (rf : path * string) : string :=
  path_str (relpath (os_path_join rf) POC_DIR) +:+ Py.nl.

Definition index_text (f : FS) : string :=
  String.concat EmptyString (map index_line (rule_files (walk POC_DIR f))).

Definition generate_index (s : State) : Outcome :=
  Done (set_fs (<[ [INDEX_FILE] := index_text (fs s) ]> (fs s)) s).

Definition print_total (s : State) : Outcome :=
  Done (print (valid_total (length (walk POC_DIR (fs s)))) s).

(** ** The [__main__] block *)

Definition try_body (env : Env) (cfg : Config) : list (State -> Outcome) :=
  [ dynamic_repo_discovery env cfg;
    enterprise_deduplication env;
    dynamic_categorization env;
    enterprise_validation env;
    generate_index;
    print_total ].

(** The statements of the [try] block, with the interrupt arriving once
    [sigint] of them have completed. *)
Fixpoint run_stages (interrupt : option nat) (k : nat)
    (stages : list (State -> Outcome)) (s : State) : Outcome :=
  match stages with
  | [] => Done s
  | st :: rest =>
      if decide (interrupt = Some k) then Crashed KeyboardInterrupt s
      else match st s with
           | Done s' => run_stages interrupt (S k) rest s'
           | Crashed e s' => Crashed e s'
           end
  end.

(** [except KeyboardInterrupt: shutil.rmtree(TMP_DIR, ...); exit(1)] *)
Definition on_keyboard_interrupt (s : State) : Z * State :=
  (1%Z, set_fs (rmtree TMP_DIR (fs s)) s).

(** The whole script: the exit status and the final state. *)
Definition main (env : Env) (f0 : FS) : Z * State :=
  let s0 := mkState f0 [] in
  match _load_config env with
  | inl _ => (1%Z, s0)
  | inr cfg =>
      match _init_workspace env s0 with
      | Crashed _ s => (1%Z, s)
      | Done s =>
          match run_stages (sigint env) 0 (try_body env cfg) s with
          | Done s' => (0%Z, s')
          | Crashed KeyboardInterrupt s' => on_keyboard_interrupt s'
          | Crashed _ s' => (1%Z, s')
          end
      end
  end.

(** * Vocabulary of the statements *)

Implicit Types (top file : string) (f g : FS) (p root : path) (c : string).

(** ** Fingerprints and duplicates *)

Definition fingerprint (env : Env) f p : option string := hexdigest env <$> f !! p.

(** [p] completes after some other file with the same fingerprint. *)
Definition later_duplicate (env : Env) f (order : list path) p : Prop :=
  ∃ l1 l2 q, order = l1 ++ p :: l2 ∧ q ∈ l1 ∧ fingerprint env f q = fingerprint env f p.

Definition digest_at (env : Env) f p : string := hexdigest env (default EmptyString (f !! p)).

Fixpoint duplicates (env : Env) (snapshot : FS) (completed : list path)
    (seen : gset string) : list path :=
  match completed with
  | [] => []
  | p :: rest =>
      if decide (digest_at env snapshot p ∈ seen) then p :: duplicates env snapshot rest seen
      else duplicates env snapshot rest ({[ digest_at env snapshot p ]} ∪ seen)
  end.

(** ** Routing into staging areas *)

(** The tags the [for tag in tags] loop reaches: those before the first
    element that is not a string. *)
Fixpoint routed (tags : list Yaml.t) : list string :=
  match tags with
  | [] => []
  | tag :: rest =>
      match Yaml.lower tag with
      | None => []
      | Some t => t :: routed rest
      end
  end.

(** The staging areas a rule file with this content is routed to. *)
Definition staged_tags (env : Env) (text : string) : list string :=
  match declared_tags env text with
  | Some tags => routed tags
  | None => []
  end.

(** No file of the corpus [f] has the fingerprint of [c]. *)
Definition fresh (env : Env) f c : Prop :=
  ∀ q c', under POC_DIR q → f !! q = Some c' → hexdigest env c' ≠ hexdigest env c.

Definition copies_work (env : Env) : Prop :=
  (∀ src dst, io_fault env (op_copy src dst) = false) ∧
  (∀ d, io_fault env (op_makedirs d) = false) ∧
  (∀ p, io_fault env (op_hash Categorize p) = false).

(** ** Validation and migration *)

Definition checker_argv (p : path) : list string :=
  [NUCLEI_BIN; "-validate"; "-t"; path_str p].

(** The checker exits with code zero on the staged file [p]. *)
Definition accepted (env : Env) (p : path) (content : option string) : Prop :=
  nuclei env (checker_argv p) 120 content = Exited 0.

#[global] Instance proc_outcome_eq_dec : EqDecision proc_outcome.
Proof. solve_decision. Defined.

#[global] Instance accepted_dec env p content : Decision (accepted env p content).
Proof. unfold accepted. apply _. Defined.

(** The move of the staged file [TMP_DIR :: rest] into the corpus does
    not fail. *)
Definition movable (env : Env) (rest : path) : Prop :=
  io_fault env (op_makedirs (removelast (POC_DIR :: rest))) = false ∧
  io_fault env (op_move (TMP_DIR :: rest) (POC_DIR :: rest)) = false.

#[global] Instance movable_dec env rest : Decision (movable env rest).
Proof. unfold movable. apply _. Defined.

Definition migrate_rest (env : Env) (f : FS) (rest : path) : FS :=
  match f !! (TMP_DIR :: rest) with
  | Some data =>
      if decide (movable env rest) then <[POC_DIR :: rest := data]> (delete (TMP_DIR :: rest) f)
      else f
  | None => f
  end.

(** The staged file [TMP_DIR :: rest] survives validation and is moved. *)
Definition migrates (env : Env) f (rest : path) : Prop :=
  rest ≠ [] ∧ is_Some (f !! (TMP_DIR :: rest)) ∧
  accepted env (TMP_DIR :: rest) (f !! (TMP_DIR :: rest)) ∧ movable env rest.

#[global] Instance migrates_dec env f rest : Decision (migrates env f rest).
Proof. unfold migrates. apply _. Defined.

(** ** Synchronisation *)

Definition pull_command (cfg : Config) (url : string) : list string :=
  ["git"; "-C"; target_str url; "pull"; "--depth"; Py.str (GIT_DEPTH cfg);
   "--filter=tree:0"].

Definition clone_command (cfg : Config) (url : string) : list string :=
  ["git"; "clone"; "--depth"; Py.str (GIT_DEPTH cfg); "--filter=tree:0"; url;
   target_str url].

(** The command an attempt at [url] runs when it starts in [s]: the
    update when the working copy is there at that moment, the clone
    otherwise. *)
Definition sync_command (env : Env) (cfg : Config) (url : string) (s : State)
  : list string :=
  if dir_exists env (length (trace s)) (target_dir url) (fs s)
  then pull_command cfg url else clone_command cfg url.

(** The attempt that starts in [s2] follows the one that started in
    [s1]: it finds the file system as the git of that attempt left it, at a
    later time. *)
Definition next_attempt (env : Env) (cfg : Config) (url : string) (s1 s2 : State) : Prop :=
  fs s2 = snd (git env (length (trace s1)) (sync_command env cfg url s1) (fs s1)) ∧
  length (trace s1) < length (trace s2).

(** The events a sync of [url] may leave, attempt [k] being the next and
    [n] attempts remaining: it stops at the first exit code zero, sleeps
    [2 ^ k] seconds after a non-zero exit code of attempt [k], and logs an
    attempt that raised before it goes on without a sleep. *)
Inductive retry_schedule (cfg : Config) (url : string) : nat → nat → list event → Prop :=
| retries_exhausted k : retry_schedule cfg url k 0 []
| retry_succeeds k n argv :
    argv = pull_command cfg url ∨ argv = clone_command cfg url →
    retry_schedule cfg url k (S n) [EvExec argv None (Exited 0)]
| retry_backs_off k n argv rc evs :
    argv = pull_command cfg url ∨ argv = clone_command cfg url →
    rc ≠ 0%Z →
    retry_schedule cfg url (S k) n evs →
    retry_schedule cfg url k (S n)
      (EvExec argv None (Exited rc) :: EvSleep (2 ^ Z.of_nat k) :: evs)
| retry_after_exception k n argv r msg evs :
    argv = pull_command cfg url ∨ argv = clone_command cfg url →
    r = TimeoutExpired ∨ r = Raised msg →
    retry_schedule cfg url (S k) n evs →
    retry_schedule cfg url k (S n)
      (EvExec argv None r :: EvPrint (git_exception msg) :: evs).

(** The commands a trace ran. *)
Definition attempts (evs : list event) : list (list string) :=
  omap (fun e => match e with EvExec argv _ _ => Some argv | _ => None end) evs.

(** The number of sync operations dispatched and not yet completed. *)
Fixpoint in_flight (evs : list event) : Z :=
  match evs with
  | [] => 0
  | EvDispatch _ :: rest => 1 + in_flight rest
  | EvComplete _ :: rest => in_flight rest - 1
  | _ :: rest => in_flight rest
  end.

(** The dispatch and completion events of a trace. *)
Definition schedule_of (evs : list event) : list event :=
  omap (fun e => match e with
                 | EvDispatch _ | EvComplete _ => Some e
                 | _ => None
                 end) evs.

(** One batch: all of it is dispatched, then all of it completes. *)
Definition batch_events (batch : list string) : list event :=
  map EvDispatch batch ++ map EvComplete batch.

(** ** Whole runs *)

(** The states between the statements of a run that completes normally. *)
Record Run := mkRun {
  run_cfg : Config;
  after_init : State;
  after_sync : State;
  after_dedup : State;
  after_categorization : State;
  after_migration : State;
  after_index : State;
  final : State
}.

Definition normal_run (env : Env) (f0 : FS) (r : Run) : Prop :=
  _load_config env = inr (run_cfg r) ∧
  _init_workspace env (mkState f0 []) = Done (after_init r) ∧
  dynamic_repo_discovery env (run_cfg r) (after_init r) = Done (after_sync r) ∧
  enterprise_deduplication env (after_sync r) = Done (after_dedup r) ∧
  dynamic_categorization env (after_dedup r) = Done (after_categorization r) ∧
  enterprise_validation env (after_categorization r) = Done (after_migration r) ∧
  generate_index (after_migration r) = Done (after_index r) ∧
  print_total (after_index r) = Done (final r) ∧
  ∀ k, sigint env = Some k → 6 ≤ k.

(** Every worker pool completes each of its futures exactly once. *)
Definition fair_scheduling (env : Env) : Prop :=
  ∀ st (A : Type) (l : list A), as_completed env st A l ≡ₚ l.

(** git writes below the clone directory only. *)
Definition git_confined (env : Env) : Prop :=
  ∀ t argv f p, head p ≠ Some CLONE_DIR → snd (git env t argv f) !! p = f !! p.

(** Nothing that aborts a run happens: the configuration loads, the batch
    size is usable, the core directories can be made, the hashes of the
    dedup and seeding passes succeed and nobody interrupts. *)
Definition calm (env : Env) : Prop :=
  (∃ cfg, _load_config env = inr cfg ∧ (ENABLE_STAGE1 cfg = true → GIT_PARALLEL cfg ≠ 0%Z)) ∧
  (∀ d, io_fault env (op_makedirs d) = false) ∧
  (∀ st p, io_fault env (op_hash st p) = false) ∧
  sigint env = None.

(** No file operation fails. *)
Definition fault_free (env : Env) : Prop := ∀ op, io_fault env op = false.

Definition with_io_fault (faults : io_op → bool) (env : Env) : Env := {|
  hexdigest := hexdigest env; safe_load := safe_load env; json_load := json_load env;
  github_search := github_search env; git := git env; empty_dir := empty_dir env;
  nuclei := nuclei env;
  io_fault := faults; as_completed := as_completed env; sigint := sigint env
|}.

Definition with_sigint (k : option nat) (env : Env) : Env := {|
  hexdigest := hexdigest env; safe_load := safe_load env; json_load := json_load env;
  github_search := github_search env; git := git env; empty_dir := empty_dir env;
  nuclei := nuclei env;
  io_fault := io_fault env; as_completed := as_completed env; sigint := k
|}.

Definition with_git (g : nat → list string → FS → proc_outcome * FS) (env : Env) : Env := {|
  hexdigest := hexdigest env; safe_load := safe_load env; json_load := json_load env;
  github_search := github_search env; git := g; empty_dir := empty_dir env;
  nuclei := nuclei env;
  io_fault := io_fault env; as_completed := as_completed env; sigint := sigint env
|}.

Definition with_empty_dir (dirs : nat → path → bool) (env : Env) : Env := {|
  hexdigest := hexdigest env; safe_load := safe_load env; json_load := json_load env;
  github_search := github_search env; git := git env; empty_dir := dirs;
  nuclei := nuclei env;
  io_fault := io_fault env; as_completed := as_completed env; sigint := sigint env
|}.

Definition with_nuclei (checker : list string → Z → option string → proc_outcome)
    (env : Env) : Env := {|
  hexdigest := hexdigest env; safe_load := safe_load env; json_load := json_load env;
  github_search := github_search env; git := git env; empty_dir := empty_dir env;
  nuclei := checker;
  io_fault := io_fault env; as_completed := as_completed env; sigint := sigint env
|}.

Definition with_safe_load (parser : string → option Yaml.t) (env : Env) : Env := {|
  hexdigest := hexdigest env; safe_load := parser; json_load := json_load env;
  github_search := github_search env; git := git env; empty_dir := empty_dir env;
  nuclei := nuclei env;
  io_fault := io_fault env; as_completed := as_completed env; sigint := sigint env
|}.

(** [env2] is what a run that follows a run in [env] meets when no
    remote source has new content: the same digest and the same parser, a
    git that leaves every file as it is, and a checker that accepts no file
    the checker of [env] rejected. *)
Definition nothing_new (env env2 : Env) : Prop :=
  hexdigest env2 = hexdigest env ∧ safe_load env2 = safe_load env ∧
  (∀ t argv f, snd (git env2 t argv f) = f) ∧
  (∀ p content, accepted env2 p content → accepted env p content).

(** No copy of the run [r] from [f0] lands on a path that another fresh
    candidate is staged to, or that the corpus already holds. *)
Definition overwrites_nothing (env : Env) (f0 : FS) (r : Run) : Prop :=
  (∀ rf rf' c c' t,
     rf ∈ candidates (fs (after_dedup r)) → rf' ∈ candidates (fs (after_dedup r)) →
     fs (after_dedup r) !! os_path_join rf = Some c →
     fs (after_dedup r) !! os_path_join rf' = Some c' →
     fresh env f0 c → fresh env f0 c' → snd rf = snd rf' →
     t ∈ staged_tags env c → t ∈ staged_tags env c' → rf = rf') ∧
  (∀ rf c t,
     rf ∈ candidates (fs (after_dedup r)) →
     fs (after_dedup r) !! os_path_join rf = Some c →
     fresh env f0 c → t ∈ staged_tags env c →
     f0 !! [POC_DIR; t; snd rf] = None).

Definition state_of (o : Outcome) : State :=
  match o with
  | Done s => s
  | Crashed _ s => s
  end.

Definition default_config : Config :=
  {| ENABLE_STAGE1 := true; GIT_PARALLEL := 8; GIT_DEPTH := 1; GITHUB_TOKEN := None |}.

(** The intermediate states of the run of [env] from [f0]. *)
Definition trace_run (env : Env) (f0 : FS) : Run :=
  let cfg := match _load_config env with inr cfg => cfg | inl _ => default_config end in
  let s0 := state_of (_init_workspace env (mkState f0 [])) in
  let s1 := state_of (dynamic_repo_discovery env cfg s0) in
  let s2 := state_of (enterprise_deduplication env s1) in
  let s3 := state_of (dynamic_categorization env s2) in
  let s4 := state_of (enterprise_validation env s3) in
  let s5 := state_of (generate_index s4) in
  mkRun cfg s0 s1 s2 s3 s4 s5 (state_of (print_total s5)).

(** ** Text lines and names *)

(** The line feed. *)
Definition LF : ascii := Ascii.ascii_of_nat 10.

(** [u] holds no occurrence of the character [sep]. *)
Definition free_of (sep : ascii) (u : string) : Prop :=
  sep ∉ list_ascii_of_string u.

(** [u] holds no line feed. *)
Definition one_line (u : string) : Prop := free_of LF u.

#[global] Instance free_of_dec sep u : Decision (free_of sep u).
Proof. unfold free_of. apply _. Defined.

#[global] Instance one_line_dec u : Decision (one_line u).
Proof. unfold one_line. apply _. Defined.

(** The characters on which the byte strings of this development and the
    text Python reads agree, also about white space, line ends and case:
    printable ASCII, the tab and the line feed. *)
Definition plain_char (a : ascii) : Prop :=
  (32 ≤ Ascii.nat_of_ascii a ∧ Ascii.nat_of_ascii a < 127) ∨
  Ascii.nat_of_ascii a = 9 ∨ Ascii.nat_of_ascii a = 10.

Definition plain_text (u : string) : Prop :=
  Forall plain_char (list_ascii_of_string u).

#[global] Instance plain_char_dec a : Decision (plain_char a).
Proof. unfold plain_char. apply _. Defined.

#[global] Instance plain_text_dec u : Decision (plain_text u).
Proof. unfold plain_text. apply _. Defined.

(** The characters [strip] keeps. *)
Definition strip_chars (l : list ascii) : list ascii :=
  rev (Py.lstrip (rev (Py.lstrip l))).

(** The stripped lines of the registry file, as [_update_repo_registry]
    reads them. *)
Definition registered (f : FS) : gset string :=
  match f !! [REPO_FILE] with
  | Some text => list_to_set (map Py.strip (Py.file_lines text))
  | None => ∅
  end.

(** What follows a leading [git] in [s], if [s] has one. *)
Definition starts_git (s : string) : option string :=
  match s with
  | String x (String y (String z r)) =>
      if Ascii.eqb x "g" && Ascii.eqb y "i" && Ascii.eqb z "t" then Some r else None
  | _ => None
  end.

(** [s] holds no occurrence of [.git]. *)
Definition no_dot_git (s : string) : Prop := ∀ m, substring m 4 s ≠ ".git".

(** A tag that names one directory below the staging directory. *)
Definition plain_name (t : string) : Prop :=
  t ≠ EmptyString ∧ t ≠ "." ∧ t ≠ ".." ∧ free_of "/" t ∧ plain_text t.

(** The parser only yields tags that are plain directory names. *)
Definition plain_tags (env : Env) : Prop :=
  ∀ text t, t ∈ staged_tags env text → plain_name t.

#[global] Instance plain_name_dec t : Decision (plain_name t).
Proof. unfold plain_name. apply _. Defined.

(** Every tag a candidate of the run [r] is routed to names one directory
    below the staging directory. *)
Definition plain_routes (env : Env) (r : Run) : Prop :=
  ∀ rf c t, rf ∈ candidates (fs (after_dedup r)) →
    fs (after_dedup r) !! os_path_join rf = Some c →
    t ∈ staged_tags env c → plain_name t.

(** A character that, used as a tag, names a staging directory of its
    own: not the separator, not the current directory, not NUL. *)
Definition names_a_directory (a : ascii) : Prop :=
  a ≠ "/"%char ∧ a ≠ "."%char ∧ a ≠ Ascii.zero.

(** ** Events and commands *)

(** The lines a list of events prints. *)
Definition printed (evs : list event) : list log_line :=
  omap (fun e => match e with EvPrint l => Some l | _ => None end) evs.

(** A line of the sync stage after its banner. *)
Definition sync_line (l : log_line) : Prop :=
  l = api_failure ∨ ∃ msg, l = git_exception msg.

(** [argv] is the pull or the clone of some source. *)
Definition git_argv (cfg : Config) (argv : list string) : Prop :=
  ∃ url, argv = pull_command cfg url ∨ argv = clone_command cfg url.

(** An event of the sync of the sources: a git subprocess without
    timeout, a sleep, the report of an exception, a dispatch or a
    completion. *)
Definition sync_event (cfg : Config) (e : event) : Prop :=
  match e with
  | EvPrint l => ∃ msg, l = git_exception msg
  | EvExec argv None _ => git_argv cfg argv
  | EvExec _ (Some _) _ => False
  | EvSleep _ | EvDispatch _ | EvComplete _ => True
  end.

(** A command a run may spawn: the pull or the clone of a source when the
    sync stage is enabled, or the checker on a staged file. *)
Definition spawned_by_run (cfg : Config) (argv : list string) : Prop :=
  (ENABLE_STAGE1 cfg = true ∧ git_argv cfg argv) ∨
  ∃ p, under TMP_DIR p ∧ argv = checker_argv p.

(** From [s] to [s'] only such commands were spawned. *)
Definition spawns_only (cfg : Config) (s s' : State) : Prop :=
  ∃ more, attempts (trace s') = attempts (trace s) ++ more ∧
          Forall (spawned_by_run cfg) more.

(** ** What a run leaves alone *)

(** A path outside the three trees of the pipeline that is neither the
    registry nor the index. *)
Definition foreign (p : path) : Prop :=
  head p ≠ Some CLONE_DIR ∧ head p ≠ Some POC_DIR ∧ head p ≠ Some TMP_DIR ∧
  p ≠ [REPO_FILE] ∧ p ≠ [INDEX_FILE].

(** From [s] to [s'] no foreign path changed and no corpus path was lost. *)
Definition keeps (s s' : State) : Prop :=
  (∀ p, foreign p → fs s' !! p = fs s !! p) ∧
  (∀ p, head p = Some POC_DIR → is_Some (fs s !! p) → is_Some (fs s' !! p)).



(** The number of statements of [stages] that complete, counted from [k],
    before the run ends. *)
Fixpoint completed (interrupt : option nat) (k : nat)
    (stages : list (State → Outcome)) (s : State) : nat :=
  match stages with
  | [] => k
  | st :: rest =>
      if decide (interrupt = Some k) then k
      else match st s with
           | Done s' => completed interrupt (S k) rest s'
           | Crashed _ _ => k
           end
  end.


(** ** Concrete scenarios *)

(** The document of a rule file that declares [tags]. *)
Definition rule_doc (tags : list string) : Yaml.t :=
  Yaml.Dict [(Yaml.Str "info", Yaml.Dict [(Yaml.Str "tags", Yaml.List (map Yaml.Str tags))])].

(** A stand-in for the YAML parser in the scenarios: the text
    ["t1,t2:body"] parses to a rule that declares the tags [t1] and [t2],
    [":body"] to one that declares none. *)
Definition scenario_safe_load (text : string) : option Yaml.t :=
  match Py.split ":" text with
  | [tags; _] =>
      Some (rule_doc (if decide (tags = EmptyString) then [] else Py.split "," tags))
  | _ => None
  end.

(** The quiet environment: an injective digest, stage 1 switched off, a
    checker that accepts everything, no failure, futures completing in
    submission order, no interrupt. *)
Definition quiet_env : Env := {|
  hexdigest := fun data => data;
  safe_load := scenario_safe_load;
  json_load := Some {| raw_ENABLE_STAGE1 := Some false; raw_GIT_PARALLEL := None;
                       raw_GIT_DEPTH := None; raw_GITHUB_TOKEN := None |};
  github_search := None;
  git := fun _ _ f => (Exited 0, f);
  empty_dir := fun _ _ => false;
  nuclei := fun _ _ _ => Exited 0;
  io_fault := fun _ => false;
  as_completed := fun _ _ l => l;
  sigint := None
|}.

(** The futures complete in the reverse of their submission order. *)
Definition reversed_env : Env := {|
  hexdigest := hexdigest quiet_env; safe_load := safe_load quiet_env;
  json_load := json_load quiet_env; github_search := github_search quiet_env;
  git := git quiet_env; empty_dir := empty_dir quiet_env; nuclei := nuclei quiet_env;
  io_fault := io_fault quiet_env;
  as_completed := fun _ _ l => reverse l; sigint := sigint quiet_env
|}.

(** The quiet environment with Ctrl-C arriving after [k] statements. *)
Definition interrupted_env (k : nat) : Env := with_sigint (Some k) quiet_env.

(** git raises on its first invocation and succeeds afterwards. *)
Definition git_raises_once (t : nat) (argv : list string) (f : FS) : proc_outcome * FS :=
  if decide (t = 0) then (Raised "spawn failed", f) else (Exited 0, f).

(** git exits with code 1 on its first invocation and succeeds afterwards. *)
Definition git_fails_once (t : nat) (argv : list string) (f : FS) : proc_outcome * FS :=
  if decide (t = 0) then (Exited 1, f) else (Exited 0, f).

Definition copy_fails (op : io_op) : bool :=
  match op with
  | op_copy _ _ => true
  | _ => false
  end.

Definition dedup_hash_fails (op : io_op) : bool :=
  match op with
  | op_hash Dedup _ => true
  | _ => false
  end.

Definition one_at_a_time : Config :=
  {| ENABLE_STAGE1 := true; GIT_PARALLEL := 1; GIT_DEPTH := 1; GITHUB_TOKEN := None |}.

(** One rule file that declares the tags [a] and [b]. *)
Definition two_tag_fs : FS :=
  {[ ["clone-templates"; "r"; "x.yaml"] := "a,b:x" ]}.

(** Two working copies with the same [x.yaml], one with a [y.yaml] of its own. *)
Definition twin_fs : FS :=
  {[ ["clone-templates"; "r1"; "x.yaml"] := "rce:x";
     ["clone-templates"; "r2"; "x.yaml"] := "rce:x";
     ["clone-templates"; "r2"; "y.yaml"] := "rce:y" ]}.

(** A corpus that holds a file which is not a rule file. *)
Definition notes_fs : FS :=
  {[ ["poc"; "misc"; "notes.txt"] := "hello" ]}.

(** A rule that moved to a new name, over the old one: the corpus holds
    the old [x.yaml], upstream now has it as [z.yaml] next to a new
    [x.yaml]. *)
Definition renamed_fs : FS :=
  {[ ["clone-templates"; "r"; "z.yaml"] := "a:old";
     ["clone-templates"; "r"; "x.yaml"] := "a:new";
     ["poc"; "a"; "x.yaml"] := "a:old" ]}.

(** Three registered sources. *)
Definition registry_fs : FS :=
  {[ [REPO_FILE] := "https://github.com/o/a.git" +:+ Py.nl +:+
                    "https://github.com/o/b.git" +:+ Py.nl +:+
                    "https://github.com/o/c.git" ]}.

(** One staged rule. *)
Definition staged_fs : FS :=
  {[ [".tmp"; "rce"; "x.yaml"] := "rce:x"; ["poc"; "rce"; "y.yaml"] := "rce:y" ]}.

(** The sync stage enabled with a parallelism of zero. *)
Definition no_parallelism : Config :=
  {| ENABLE_STAGE1 := true; GIT_PARALLEL := 0; GIT_DEPTH := 1; GITHUB_TOKEN := None |}.

(** The checker binary is not there: every invocation raises. *)
Definition checker_missing (argv : list string) (timeout : Z) (content : option string)
  : proc_outcome := Raised "No such file or directory".

(** A parser for the scenarios that reads the whole text as the value of
    [info.tags], a plain string. *)
Definition tags_as_text (text : string) : option Yaml.t :=
  Some (Yaml.Dict [(Yaml.Str "info", Yaml.Dict [(Yaml.Str "tags", Yaml.Str text)])]).

(** Two rules with one file name and the tags [a] and [b], in two
    working copies. *)
Definition clash_fs : FS :=
  {[ ["clone-templates"; "r1"; "x.yaml"] := "a,b:one";
     ["clone-templates"; "r2"; "x.yaml"] := "a,b:two" ]}.

(** Every rule declares the one tag [rce]. *)
Definition one_tag_env : Env :=
  with_safe_load (fun _ => Some (rule_doc ["rce"])) quiet_env.

(** * Lemmas and theorems *)

(** ** Paths and directory walks *)

Lemma split_last_snoc (root : path) file : split_last (root ++ [file]) = Some (root, file).
Proof. unfold split_last. rewrite reverse_snoc. by rewrite reverse_involutive. Qed.

Lemma split_last_Some (p root : path) file :
  split_last p = Some (root, file) → p = root ++ [file].
Proof.
  unfold split_last. destruct (reverse p) as [|x r] eqn:E; [done|].
  intros [= <- <-]. rewrite <- (reverse_involutive p), E. by rewrite reverse_cons.
Qed.

Lemma under_snoc top (root : path) file : under top (root ++ [file]) ↔ head root = Some top.
Proof.
  destruct root as [|c [|d r]]; simpl; naive_solver.
Qed.

Lemma under_head top p : under top p → head p = Some top.
Proof. destruct p as [|c [|d r]]; simpl; naive_solver. Qed.

Lemma under_split top p : under top p → ∃ root file, p = root ++ [file] ∧ head root = Some top.
Proof.
  intros H. destruct (split_last p) as [[root file]|] eqn:E.
  - apply split_last_Some in E as ->. exists root, file. split; [done|]. by apply under_snoc in H.
  - unfold split_last in E. destruct (reverse p) eqn:E'; [|done].
    apply (f_equal reverse) in E'. rewrite reverse_involutive in E'. by subst.
Qed.

Lemma under_cons top p : under top p → ∃ rest, p = top :: rest ∧ rest ≠ [].
Proof. destruct p as [|c [|d r]]; simpl; [done..|]. intros ->. by eexists. Qed.

Lemma under_cons_iff top (rest : path) : under top (top :: rest) ↔ rest ≠ [].
Proof. destruct rest; simpl; naive_solver. Qed.

Lemma subtree_lookup_Some top (f : FS) p c :
  subtree top f !! p = Some c ↔ f !! p = Some c ∧ under top p.
Proof. unfold subtree. by rewrite map_lookup_filter_Some. Qed.

Lemma subtree_ext top (f g : FS) :
  (∀ p, under top p → f !! p = g !! p) → subtree top f = subtree top g.
Proof.
  intros H. apply map_eq. intros p. apply option_eq. intros c.
  rewrite !subtree_lookup_Some. split; intros [? ?]; split; auto; [rewrite <- H|rewrite H]; done.
Qed.

Lemma walk_ext top (f g : FS) :
  (∀ p, under top p → f !! p = g !! p) → walk top f = walk top g.
Proof. intros H. unfold walk. by rewrite (subtree_ext top f g). Qed.

Lemma join_split_last top (l : list path) :
  Forall (under top) l → map os_path_join (omap split_last l) = l.
Proof.
  induction 1 as [|p l Hp _ IH]; [done|].
  apply under_split in Hp as (root & file & -> & _).
  cbn. rewrite split_last_snoc. cbn. by rewrite IH.
Qed.

Lemma walk_join top f :
  map os_path_join (walk top f) = map fst (map_to_list (subtree top f)).
Proof.
  unfold walk. apply (join_split_last top).
  apply Forall_forall. intros p Hp. apply list_elem_of_fmap in Hp as [[p' c] [-> Hp]].
  apply elem_of_map_to_list in Hp. by apply subtree_lookup_Some in Hp as [_ ?].
Qed.

Lemma NoDup_walk_join top (f : FS) : NoDup (map os_path_join (walk top f)).
Proof. rewrite walk_join. apply NoDup_fst_map_to_list. Qed.

Lemma NoDup_walk top (f : FS) : NoDup (walk top f).
Proof. eapply NoDup_fmap_1, NoDup_walk_join. Qed.

Lemma elem_of_walk_join top (f : FS) p :
  p ∈ map os_path_join (walk top f) ↔ under top p ∧ is_Some (f !! p).
Proof.
  rewrite walk_join. rewrite list_elem_of_fmap. split.
  - intros [[p' c] [-> H]]. apply elem_of_map_to_list, subtree_lookup_Some in H as [? ?]. eauto.
  - intros [Hu [c Hc]]. exists (p, c). split; [done|].
    apply elem_of_map_to_list, subtree_lookup_Some. done.
Qed.

Lemma elem_of_walk top (f : FS) root file :
  (root, file) ∈ walk top f ↔ head root = Some top ∧ is_Some (f !! (root ++ [file])).
Proof.
  rewrite <- under_snoc. rewrite <- (elem_of_walk_join top f (root ++ [file])).
  rewrite list_elem_of_fmap. split.
  - intros H. by exists (root, file).
  - intros [[root' file'] [Heq H]]. unfold os_path_join in Heq. simpl in Heq.
    apply app_inj_tail in Heq as [-> ->]. done.
Qed.

Lemma length_walk top f : length (walk top f) = size (subtree top f).
Proof.
  rewrite <- (length_fmap os_path_join), walk_join, length_fmap. apply length_map_to_list.
Qed.

Lemma rmtree_lookup top f p :
  rmtree top f !! p = if decide (head p = Some top) then None else f !! p.
Proof.
  unfold rmtree. destruct (decide (head p = Some top)) as [Hh|Hh].
  - apply map_lookup_filter_None. right. intros c _. simpl. tauto.
  - destruct (f !! p) as [c|] eqn:Hp.
    + by apply map_lookup_filter_Some.
    + apply map_lookup_filter_None. by left.
Qed.

Lemma index_text_ext f g :
  subtree POC_DIR f = subtree POC_DIR g → index_text f = index_text g.
Proof. intros H. unfold index_text, walk. by rewrite H. Qed.

(** ** Slices and fingerprints *)

Section chunks.
Context {A : Type}.
Implicit Types (l : list A) (k fuel : nat).

Lemma chunks_aux_lookup fuel k l j :
  0 < k → length l ≤ fuel →
  Py.chunks_aux fuel k l !! j =
    if decide (j * k < length l) then Some (take k (drop (j * k) l)) else None.
Proof.
  intros Hk. revert l j. induction fuel as [|fuel IH]; intros l j Hl.
  - destruct l; [|simpl in Hl; lia].
    rewrite decide_False by (simpl; lia). by destruct j.
  - destruct l as [|x l].
    { rewrite decide_False by (simpl; lia). by destruct j. }
    cbn [Py.chunks_aux]. destruct j as [|j].
    + rewrite decide_True by (simpl; lia). done.
    + cbn [lookup list_lookup]. change (list_lookup j) with (lookup (M:=list (list A)) j).
      rewrite IH by (rewrite length_drop; simpl in *; lia).
      rewrite length_drop, drop_drop.
      replace (k + j * k) with (S j * k) by lia.
      repeat case_decide; try done; simpl in *; lia.
Qed.

Lemma chunks_lookup k l j :
  0 < k →
  Py.chunks k l !! j =
    if decide (j * k < length l) then Some (take k (drop (j * k) l)) else None.
Proof. intros. by apply chunks_aux_lookup. Qed.

Lemma chunks_aux_concat fuel k l :
  0 < k → length l ≤ fuel → concat (Py.chunks_aux fuel k l) = l.
Proof.
  intros Hk. revert l. induction fuel as [|fuel IH]; intros l Hl.
  - destruct l; [done|simpl in Hl; lia].
  - destruct l as [|x l]; [done|].
    cbn [Py.chunks_aux concat]. rewrite IH.
    + apply take_drop.
    + rewrite length_drop. simpl in *. lia.
Qed.

Lemma concat_chunks k l : 0 < k → concat (Py.chunks k l) = l.
Proof. intros. by apply chunks_aux_concat. Qed.

Lemma chunks_sizes k l b :
  0 < k → b ∈ Py.chunks k l → 0 < length b ≤ k.
Proof.
  intros Hk [j Hj]%list_elem_of_lookup. rewrite chunks_lookup in Hj by done.
  case_decide; [|done]. injection Hj as <-.
  rewrite length_take, length_drop. lia.
Qed.

Lemma chunks_full k l j b :
  0 < k → Py.chunks k l !! j = Some b → is_Some (Py.chunks k l !! S j) →
  length b = k.
Proof.
  intros Hk Hj [b' Hj']. rewrite chunks_lookup in Hj, Hj' by done.
  repeat case_decide; try done. injection Hj as <-.
  rewrite length_take, length_drop. simpl in *. lia.
Qed.

Lemma foldl_chunks {S} (step : S → A → S) k l (s : S) :
  0 < k → foldl (fun s batch => foldl step s batch) s (Py.chunks k l) = foldl step s l.
Proof.
  intros Hk. rewrite <- (concat_chunks k l) at 2 by done.
  generalize (Py.chunks k l). intros bs. revert s.
  induction bs as [|b bs IH]; intros s; [done|].
  simpl. rewrite foldl_app. apply IH.
Qed.

End chunks.

Lemma hasher_update_all (blocks : list (list ascii)) (acc : list ascii) :
  foldl (fun acc block => acc ++ block) acc blocks = acc ++ concat blocks.
Proof.
  revert acc. induction blocks as [|b bs IH]; intros acc; simpl.
  - by rewrite app_nil_r.
  - rewrite IH. by rewrite app_assoc.
Qed.

(** The fingerprint of a readable file is the digest of its whole content. *)
Lemma calculate_sha256_content env st f p data :
  io_fault env (op_hash st p) = false → f !! p = Some data →
  _calculate_sha256 env st f p = inr (p, hexdigest env data).
Proof.
  intros Hio Hp. unfold _calculate_sha256. rewrite Hio, Hp.
  rewrite hasher_update_all. simpl. rewrite concat_chunks by (unfold CHUNK; lia).
  by rewrite string_of_list_ascii_of_string.
Qed.

Lemma calculate_sha256_inr env st f p r :
  _calculate_sha256 env st f p = inr r →
  ∃ data, f !! p = Some data ∧ r = (p, hexdigest env data) ∧ io_fault env (op_hash st p) = false.
Proof.
  unfold _calculate_sha256. destruct (io_fault env (op_hash st p)) eqn:Hio; [done|].
  destruct (f !! p) as [data|] eqn:Hp; [|done].
  rewrite hasher_update_all. simpl. rewrite concat_chunks by (unfold CHUNK; lia).
  rewrite string_of_list_ascii_of_string. intros [= <-]. eauto.
Qed.

(** ** States and output *)

Lemma set_fs_set_fs f g s : set_fs f (set_fs g s) = set_fs f s.
Proof. done. Qed.

Lemma set_fs_id s : set_fs (fs s) s = s.
Proof. by destruct s. Qed.

Lemma stdout_app s evs :
  stdout (mkState (fs s) (trace s ++ evs)) =
  stdout s ++ omap (fun e => match e with EvPrint l => Some l | _ => None end) evs.
Proof. unfold stdout. cbn. by rewrite omap_app. Qed.

Lemma stdout_print l s : stdout (print l s) = stdout s ++ [l].
Proof. unfold stdout, print, emit. cbn [trace]. by rewrite omap_app. Qed.

Lemma foldl_emit_fs {A} (ev : A → event) (l : list A) s :
  fs (foldl (fun s x => emit (ev x) s) s l) = fs s.
Proof. revert s. induction l as [|x l IH]; intros s; [done|]. cbn [foldl]. by rewrite IH. Qed.

Lemma if_decide_ext {A} (P Q : Prop) `{Decision P, Decision Q} (a b a' b' : A) :
  (P ↔ Q) → (P → a = a') → (¬ P → b = b') →
  (if decide P then a else b) = (if decide Q then a' else b').
Proof. intros HPQ Ha Hb. destruct (decide P), (decide Q); tauto. Qed.

(** ** Stage 2: deduplication *)

Lemma lookup_foldl_delete (l : list path) f p :
  foldl (fun f q => delete q f) f l !! p = if decide (p ∈ l) then None else f !! p.
Proof.
  revert f. induction l as [|q l IH]; intros f; cbn [foldl].
  - rewrite decide_False; [done|]. apply not_elem_of_nil.
  - rewrite IH. destruct (decide (p ∈ l)) as [Hin|Hin].
    + rewrite decide_True; [done|]. by right.
    + destruct (decide (p = q)) as [->|Hne].
      * rewrite lookup_delete_eq. rewrite decide_True; [done|]. by left.
      * rewrite lookup_delete_ne by done. rewrite decide_False; [done|].
        rewrite elem_of_cons. naive_solver.
Qed.

Lemma dedup_loop_spec env snapshot completed reg s :
  Forall (fun p => is_Some (snapshot !! p) ∧ io_fault env (op_hash Dedup p) = false) completed →
  dedup_loop env snapshot completed reg s =
    Done (set_fs (foldl (fun f q => delete q f) (fs s)
                        (duplicates env snapshot completed (dom reg))) s).
Proof.
  intros H. revert reg s. induction H as [|p rest [[data Hp] Hio] _ IH]; intros reg s.
  - simpl. by rewrite set_fs_id.
  - cbn [dedup_loop duplicates].
    rewrite (calculate_sha256_content _ _ _ _ data) by done.
    unfold digest_at. rewrite Hp. cbn [default].
    destruct (decide (is_Some (reg !! hexdigest env data))) as [Hreg|Hreg].
    + rewrite decide_True by (by apply elem_of_dom). rewrite IH. done.
    + rewrite decide_False by (by rewrite elem_of_dom). rewrite IH. by rewrite dom_insert_L.
Qed.

Lemma elem_of_duplicates env snapshot completed seen p :
  p ∈ duplicates env snapshot completed seen ↔
  ∃ l1 l2, completed = l1 ++ p :: l2 ∧
    (digest_at env snapshot p ∈ seen ∨
     ∃ q, q ∈ l1 ∧ digest_at env snapshot q = digest_at env snapshot p).
Proof.
  revert seen. induction completed as [|x rest IH]; intros seen.
  - simpl. split; [by intros ?%elem_of_nil|]. intros (l1 & l2 & H & _). by destruct l1.
  - cbn [duplicates]. case_decide as Hx.
    + rewrite elem_of_cons, IH. split.
      * intros [->|(l1 & l2 & -> & Hd)].
        -- exists [], rest. split; [done|]. by left.
        -- exists (x :: l1), l2. split; [done|]. destruct Hd as [?|(q & ? & ?)]; [by left|].
           right. exists q. split; [by right|done].
      * intros (l1 & l2 & Heq & Hd). destruct l1 as [|y l1]; simplify_eq/=; [by left|].
        right. exists l1, l2. split; [done|].
        destruct Hd as [?|(q & [->|Hq]%elem_of_cons & Hq')]; [by left|left; congruence|].
        right. eauto.
    + rewrite IH. split.
      * intros (l1 & l2 & -> & Hd). exists (x :: l1), l2. split; [done|].
        destruct Hd as [[Hd%elem_of_singleton|Hd]%elem_of_union|(q & ? & ?)].
        -- right. exists x. split; [by left|done].
        -- by left.
        -- right. exists q. split; [by right|done].
      * intros (l1 & l2 & Heq & Hd). destruct l1 as [|y l1]; simplify_eq/=.
        { destruct Hd as [?|(q & ?%elem_of_nil & _)]; done. }
        exists l1, l2. split; [done|].
        destruct Hd as [?|(q & [->|Hq]%elem_of_cons & Hq')].
        -- left. set_solver.
        -- left. set_solver.
        -- right. eauto.
Qed.

Lemma elem_of_candidates f rf :
  rf ∈ candidates f ↔
  head (fst rf) = Some CLONE_DIR ∧ is_Some (f !! os_path_join rf) ∧ is_rule_file (snd rf) = true.
Proof.
  unfold candidates, rule_files. rewrite list_elem_of_filter. destruct rf as [root file].
  rewrite elem_of_walk. unfold os_path_join. simpl. naive_solver.
Qed.

Lemma os_path_join_inj rf1 rf2 : os_path_join rf1 = os_path_join rf2 → rf1 = rf2.
Proof.
  destruct rf1, rf2. unfold os_path_join. simpl. intros [-> ->]%app_inj_tail. done.
Qed.

Lemma candidate_head (rf : path * string) :
  head (fst rf) = Some CLONE_DIR → head (os_path_join rf) = Some CLONE_DIR.
Proof. destruct rf as [[|c r] file]; [done|]. done. Qed.

Lemma candidates_in_clone f :
  Forall (fun rf => head (fst rf) = Some CLONE_DIR) (candidates f).
Proof. apply Forall_forall. by intros rf (? & _)%elem_of_candidates. Qed.

Lemma NoDup_filter_join f : NoDup (map os_path_join (candidates f)).
Proof.
  apply NoDup_fmap_2; [intros ? ?; apply os_path_join_inj|].
  apply NoDup_filter, NoDup_walk.
Qed.

Lemma candidates_ext f g :
  (∀ p, head p = Some CLONE_DIR → f !! p = g !! p) → candidates f = candidates g.
Proof.
  intros H. unfold candidates. f_equal. apply walk_ext. intros p Hp. apply H. by apply under_head.
Qed.

Lemma enterprise_deduplication_spec env s :
  (∀ p, io_fault env (op_hash Dedup p) = false) →
  let order := as_completed env Dedup _ (map os_path_join (candidates (fs s))) in
  (∀ A (l : list A), as_completed env Dedup A l ≡ₚ l) →
  ∃ s', enterprise_deduplication env s = Done s' ∧
    trace s' = trace s ++ [EvPrint (stage_banner 2)] ∧
    ∀ p, fs s' !! p =
         if decide (p ∈ duplicates env (fs s) order ∅) then None else fs s !! p.
Proof.
  intros Hio order Hperm. unfold enterprise_deduplication.
  eexists. split.
  - rewrite dedup_loop_spec; [done|].
    apply Forall_forall. intros p Hp. split; [|done]. cbn [print emit fs].
    rewrite Hperm in Hp. apply list_elem_of_fmap in Hp as [rf [-> Hrf]].
    by apply elem_of_candidates in Hrf as (_ & ? & _).
  - split; [done|]. intros p. cbn [set_fs fs print emit].
    rewrite lookup_foldl_delete. rewrite dom_empty_L. done.
Qed.

Lemma fingerprint_digest_at env f p q :
  is_Some (f !! p) → is_Some (f !! q) →
  fingerprint env f q = fingerprint env f p ↔ digest_at env f q = digest_at env f p.
Proof.
  intros [a Ha] [b Hb]. unfold fingerprint, digest_at. rewrite Ha, Hb. simpl. split; congruence.
Qed.

Lemma duplicates_later_duplicate env f (order : list path) p :
  Forall (fun q => is_Some (f !! q)) order →
  p ∈ duplicates env f order ∅ ↔ later_duplicate env f order p.
Proof.
  intros Hall. rewrite elem_of_duplicates. unfold later_duplicate.
  rewrite Forall_forall in Hall. split.
  - intros (l1 & l2 & -> & [?%not_elem_of_empty|(q & Hq & Hd)]); [done|].
    exists l1, l2, q. split_and!; [done..|].
    apply fingerprint_digest_at; [| |done]; apply Hall; set_solver.
  - intros (l1 & l2 & q & -> & Hq & Hd). exists l1, l2. split; [done|].
    right. exists q. split; [done|].
    apply fingerprint_digest_at; [| |done]; apply Hall; set_solver.
Qed.

Lemma candidates_exist env f :
  (∀ A (l : list A), as_completed env Dedup A l ≡ₚ l) →
  Forall (fun q => is_Some (f !! q))
    (as_completed env Dedup path (map os_path_join (candidates f))).
Proof.
  intros Hperm. apply Forall_forall. intros q Hq. rewrite Hperm in Hq.
  apply list_elem_of_fmap in Hq as [rf [-> Hrf]].
  by apply elem_of_candidates in Hrf as (_ & ? & _).
Qed.

Lemma dedup_loop_inv env snapshot completed reg s s' :
  dedup_loop env snapshot completed reg s = Done s' →
  Forall (fun p => is_Some (snapshot !! p) ∧ io_fault env (op_hash Dedup p) = false) completed.
Proof.
  revert reg s. induction completed as [|p rest IH]; intros reg s Hrun; [done|].
  cbn [dedup_loop] in Hrun.
  destruct (_calculate_sha256 env Dedup snapshot p) as [|[p' h]] eqn:Hh; [done|].
  apply calculate_sha256_inr in Hh as (data & Hp & _ & Hio).
  constructor; [by eauto|]. case_decide; eapply IH; done.
Qed.

(** What a completed deduplication pass leaves behind, for any completion
    order [order] of the hashing futures. *)
Lemma dedup_properties env s s' :
  (∀ A (l : list A), as_completed env Dedup A l ≡ₚ l) →
  enterprise_deduplication env s = Done s' →
  let order := as_completed env Dedup path (map os_path_join (candidates (fs s))) in
  (∀ rf1 rf2 h, rf1 ∈ candidates (fs s') → rf2 ∈ candidates (fs s') →
     fingerprint env (fs s') (os_path_join rf1) = Some h →
     fingerprint env (fs s') (os_path_join rf2) = Some h → rf1 = rf2) ∧
  (∀ p, later_duplicate env (fs s) order p → fs s' !! p = None) ∧
  (∀ p, ¬ later_duplicate env (fs s) order p → fs s' !! p = fs s !! p) ∧
  (∀ p, later_duplicate env (fs s) order p → p ∈ map os_path_join (candidates (fs s))) ∧
  trace s' = trace s ++ [EvPrint (stage_banner 2)].
Proof.
  intros Hperm Hrun order.
  assert (Hfs : ∀ p, fs s' !! p =
            if decide (p ∈ duplicates env (fs s) order ∅) then None else fs s !! p).
  { unfold enterprise_deduplication in Hrun.
    pose proof (dedup_loop_inv _ _ _ _ _ _ Hrun) as Hall.
    rewrite dedup_loop_spec in Hrun by done. injection Hrun as <-.
    intros p. cbn [set_fs fs print emit]. rewrite lookup_foldl_delete, dom_empty_L. done. }
  assert (Htr : trace s' = trace s ++ [EvPrint (stage_banner 2)]).
  { unfold enterprise_deduplication in Hrun.
    pose proof (dedup_loop_inv _ _ _ _ _ _ Hrun) as Hall.
    rewrite dedup_loop_spec in Hrun by done. by injection Hrun as <-. }
  pose proof (candidates_exist env (fs s) Hperm) as Hall. fold order in Hall.
  assert (Hdel : ∀ p, later_duplicate env (fs s) order p → fs s' !! p = None).
  { intros p Hp. rewrite Hfs, decide_True; [done|]. by apply duplicates_later_duplicate. }
  assert (Hkeep : ∀ p, ¬ later_duplicate env (fs s) order p → fs s' !! p = fs s !! p).
  { intros p Hp. rewrite Hfs, decide_False; [done|]. by rewrite duplicates_later_duplicate. }
  split_and!; [|done|done| |done].
  2:{ intros p (l1 & l2 & q & Hsplit & _). rewrite <- (Hperm path). fold order.
      rewrite Hsplit. set_solver. }
  assert (Hsurv : ∀ rf, rf ∈ candidates (fs s') →
     os_path_join rf ∈ order ∧ ¬ later_duplicate env (fs s) order (os_path_join rf) ∧
     fs s' !! os_path_join rf = fs s !! os_path_join rf).
  { intros rf (Hh & [c Hc] & Hr)%elem_of_candidates.
    assert (Hnd : ¬ later_duplicate env (fs s) order (os_path_join rf)).
    { intros Hd. apply Hdel in Hd. congruence. }
    split_and!; [|done|by apply Hkeep].
    unfold order. rewrite Hperm. apply list_elem_of_fmap. exists rf. split; [done|].
    apply elem_of_candidates. split_and!; [done| |done].
    rewrite <- Hkeep by done. eauto. }
  intros rf1 rf2 h H1 H2 Hf1 Hf2.
  destruct (Hsurv rf1 H1) as (Ho1 & Hn1 & He1), (Hsurv rf2 H2) as (Ho2 & Hn2 & He2).
  unfold fingerprint in Hf1, Hf2. rewrite He1 in Hf1. rewrite He2 in Hf2.
  apply os_path_join_inj. destruct (decide (os_path_join rf1 = os_path_join rf2)) as [|Hne]; [done|].
  exfalso. apply list_elem_of_split in Ho1 as (l1 & l2 & Hsplit).
  rewrite Hsplit in Ho2. apply elem_of_app in Ho2 as [Hin|Hin].
  - apply Hn1. exists l1, l2, (os_path_join rf2). split_and!; [done..|].
    unfold fingerprint. by rewrite Hf1, Hf2.
  - apply elem_of_cons in Hin as [?|Hin]; [done|].
    apply list_elem_of_split in Hin as (l3 & l4 & ->).
    apply Hn2. exists (l1 ++ os_path_join rf1 :: l3), l4, (os_path_join rf1). split_and!.
    + rewrite Hsplit. by rewrite <- app_assoc.
    + set_solver.
    + unfold fingerprint. by rewrite Hf1, Hf2.
Qed.

Lemma enterprise_deduplication_total env s :
  (∀ A (l : list A), as_completed env Dedup A l ≡ₚ l) →
  (∀ p, io_fault env (op_hash Dedup p) = false) →
  ∃ s', enterprise_deduplication env s = Done s'.
Proof.
  intros Hperm Hio.
  destruct (enterprise_deduplication_spec env s Hio Hperm) as (s' & Hrun & _). eauto.
Qed.

Lemma dedup_frame env s s' p :
  fair_scheduling env → enterprise_deduplication env s = Done s' →
  head p ≠ Some CLONE_DIR → fs s' !! p = fs s !! p.
Proof.
  intros Hfair Hrun Hp.
  destruct (dedup_properties env s s' (Hfair Dedup) Hrun) as (_ & _ & Hkeep & Hin & _).
  apply Hkeep. intros Hd. apply Hin in Hd. apply list_elem_of_fmap in Hd as (rf & -> & Hrf).
  apply Hp, candidate_head. by apply elem_of_candidates in Hrf as (? & _).
Qed.

Lemma dedup_of_unique_is_identity env s s' :
  fair_scheduling env → enterprise_deduplication env s = Done s' →
  (∀ rf1 rf2 h, rf1 ∈ candidates (fs s) → rf2 ∈ candidates (fs s) →
     fingerprint env (fs s) (os_path_join rf1) = Some h →
     fingerprint env (fs s) (os_path_join rf2) = Some h → rf1 = rf2) →
  ∀ p, fs s' !! p = fs s !! p.
Proof.
  intros Hfair Hrun Huniq p.
  destruct (dedup_properties env s s' (Hfair Dedup) Hrun) as (_ & _ & Hkeep & _).
  apply Hkeep. intros (l1 & l2 & q & Hsplit & Hq & Hfp).
  assert (Hnd : NoDup (as_completed env Dedup path (map os_path_join (candidates (fs s))))).
  { rewrite (Hfair Dedup). apply NoDup_filter_join. }
  assert (Hin : ∀ x, x ∈ as_completed env Dedup path (map os_path_join (candidates (fs s))) →
                ∃ rf, x = os_path_join rf ∧ rf ∈ candidates (fs s)).
  { intros x Hx. rewrite (Hfair Dedup) in Hx. by apply list_elem_of_fmap in Hx. }
  rewrite Hsplit in Hnd. apply NoDup_app in Hnd as (_ & Hdisj & _).
  destruct (Hin p) as (rfp & -> & Hrfp); [rewrite Hsplit; set_solver|].
  destruct (Hin q) as (rfq & -> & Hrfq); [rewrite Hsplit; set_solver|].
  apply (Hdisj _ Hq). 
  assert (rfq = rfp) as ->; [|by left].
  pose proof Hrfp as (_ & [c Hc] & _)%elem_of_candidates.
  apply (Huniq rfq rfp (hexdigest env c)); try done.
  - rewrite Hfp. unfold fingerprint. by rewrite Hc.
  - unfold fingerprint. by rewrite Hc.
Qed.

Lemma dedup_survivor_depends_on_order :
  ∃ s1 s2,
    enterprise_deduplication quiet_env (mkState twin_fs []) = Done s1 ∧
    enterprise_deduplication reversed_env (mkState twin_fs []) = Done s2 ∧
    fs s1 !! ["clone-templates"; "r1"; "x.yaml"] = None ∧
    fs s1 !! ["clone-templates"; "r2"; "x.yaml"] = Some "rce:x" ∧
    fs s2 !! ["clone-templates"; "r1"; "x.yaml"] = Some "rce:x" ∧
    fs s2 !! ["clone-templates"; "r2"; "x.yaml"] = None.
Proof.
  exists (state_of (enterprise_deduplication quiet_env (mkState twin_fs []))),
         (state_of (enterprise_deduplication reversed_env (mkState twin_fs []))).
  split_and!; vm_compute; reflexivity.
Qed.

(** C10.  When no hash fails, the deduplication stage completes, and
    afterwards no two rule files below the clone directory have the same
    fingerprint: a file is deleted exactly when another file with its
    fingerprint completed hashing before it, every other path is
    untouched.  Which of two duplicates survives depends on the completion
    order: two schedules of one tree keep different files. *)
Theorem dedup_leaves_one_file_per_fingerprint env s :
  (∀ A (l : list A), as_completed env Dedup A l ≡ₚ l) →
  (∀ p, io_fault env (op_hash Dedup p) = false) →
  let order := as_completed env Dedup path (map os_path_join (candidates (fs s))) in
  (∃ s', enterprise_deduplication env s = Done s' ∧
     (∀ rf1 rf2 h, rf1 ∈ candidates (fs s') → rf2 ∈ candidates (fs s') →
        fingerprint env (fs s') (os_path_join rf1) = Some h →
        fingerprint env (fs s') (os_path_join rf2) = Some h → rf1 = rf2) ∧
     (∀ p, later_duplicate env (fs s) order p → fs s' !! p = None) ∧
     (∀ p, ¬ later_duplicate env (fs s) order p → fs s' !! p = fs s !! p)) ∧
  (∃ f p e1 e2 s1 s2,
     (∀ st A (l : list A), as_completed e1 st A l ≡ₚ l) ∧
     (∀ st A (l : list A), as_completed e2 st A l ≡ₚ l) ∧
     enterprise_deduplication e1 (mkState f []) = Done s1 ∧
     enterprise_deduplication e2 (mkState f []) = Done s2 ∧
     fs s1 !! p = None ∧ is_Some (fs s2 !! p)).
Proof.
  intros Hperm Hio order. split.
  - destruct (enterprise_deduplication_total env s Hperm Hio) as [s' Hrun].
    destruct (dedup_properties env s s' Hperm Hrun) as (Huniq & Hdel & Hkeep & _).
    exists s'. split_and!; done.
  - destruct dedup_survivor_depends_on_order as (s1 & s2 & H1 & H2 & Hp1 & _ & Hp2 & _).
    exists twin_fs, ["clone-templates"; "r1"; "x.yaml"], quiet_env, reversed_env, s1, s2.
    split_and!; [done| |done|done|done|by rewrite Hp2].
    intros st A l. apply reverse_Permutation.
Qed.

Lemma dedup_leaves_one_file_per_fingerprint_witness :
  (∀ A (l : list A), as_completed quiet_env Dedup A l ≡ₚ l) ∧
  (∀ p, io_fault quiet_env (op_hash Dedup p) = false) ∧
  ∃ s', enterprise_deduplication quiet_env (mkState twin_fs []) = Done s' ∧
    ∀ rf1 rf2 h, rf1 ∈ candidates (fs s') → rf2 ∈ candidates (fs s') →
      fingerprint quiet_env (fs s') (os_path_join rf1) = Some h →
      fingerprint quiet_env (fs s') (os_path_join rf2) = Some h → rf1 = rf2.
Proof.
  assert (H1 : ∀ A (l : list A), as_completed quiet_env Dedup A l ≡ₚ l) by (by intros A l).
  assert (H2 : ∀ p, io_fault quiet_env (op_hash Dedup p) = false) by (by intros p).
  split; [exact H1|]. split; [exact H2|].
  destruct (dedup_leaves_one_file_per_fingerprint quiet_env (mkState twin_fs []) H1 H2)
    as [(s' & Hrun & Huniq & _) _].
  exists s'. split; [exact Hrun|exact Huniq].
Defined.

(** ** Stage 3: categorisation *)

Lemma submit_copy_lookup env src dst f q :
  submit_copy env src dst f !! q = f !! q ∨
  (q = dst ∧ submit_copy env src dst f !! q = f !! src ∧ is_Some (f !! src)).
Proof.
  unfold submit_copy. destruct (io_fault env (op_copy src dst)); [by left|].
  destruct (f !! src) as [data|] eqn:Hsrc; [|by left].
  destruct (decide (q = dst)) as [->|Hne].
  - right. rewrite lookup_insert_eq. eauto.
  - left. by rewrite lookup_insert_ne.
Qed.

Lemma fan_out_frame env src file tags f q :
  (∀ t, t ∈ routed tags → q ≠ [TMP_DIR; t; file]) →
  fan_out env src file tags f !! q = f !! q.
Proof.
  revert f. induction tags as [|tag tags IH]; intros f Hq; [done|].
  cbn [fan_out routed] in *. destruct (Yaml.lower tag) as [t|]; [|done].
  destruct (io_fault env (op_makedirs [TMP_DIR; t])); [done|].
  rewrite IH by (intros; apply Hq; by right).
  destruct (submit_copy_lookup env src ([TMP_DIR; t] ++ [file]) f q) as [->|[-> _]]; [done|].
  exfalso. by apply (Hq t); [left|].
Qed.

Lemma fan_out_src env src file tags f :
  head src ≠ Some TMP_DIR → fan_out env src file tags f !! src = f !! src.
Proof.
  intros Hsrc. apply fan_out_frame. intros t _ ->. done.
Qed.

Lemma fan_out_lookup env src file tags f q :
  head src ≠ Some TMP_DIR →
  fan_out env src file tags f !! q = f !! q ∨
  (fan_out env src file tags f !! q = f !! src ∧ is_Some (f !! src) ∧
   ∃ t, t ∈ routed tags ∧ q = [TMP_DIR; t; file]).
Proof.
  intros Hsrc. revert f. induction tags as [|tag tags IH]; intros f; [by left|].
  cbn [fan_out routed] in *. destruct (Yaml.lower tag) as [t|]; [|by left].
  destruct (io_fault env (op_makedirs [TMP_DIR; t])); [by left|].
  assert (Hs : submit_copy env src ([TMP_DIR; t] ++ [file]) f !! src = f !! src).
  { destruct (submit_copy_lookup env src ([TMP_DIR; t] ++ [file]) f src) as [?|[-> _]]; done. }
  destruct (IH (submit_copy env src ([TMP_DIR; t] ++ [file]) f)) as [Hq|(Hq & Hsome & t' & Ht' & ->)].
  - rewrite Hq.
    destruct (submit_copy_lookup env src ([TMP_DIR; t] ++ [file]) f q) as [Hl|(-> & Hl & ?)].
    + by left.
    + right. split_and!; [done..|]. exists t. split; [by left|done].
  - right. rewrite Hq, Hs. rewrite Hs in Hsome. split_and!; [done..|].
    exists t'. split; [by right|done].
Qed.

Lemma fan_out_complete env src file tags f t c :
  copies_work env → head src ≠ Some TMP_DIR →
  f !! src = Some c → t ∈ routed tags →
  fan_out env src file tags f !! [TMP_DIR; t; file] = Some c.
Proof.
  intros (Hcopy & Hmk & _) Hsrc. revert f. induction tags as [|tag tags IH]; intros f Hc Ht.
  { by apply elem_of_nil in Ht. }
  cbn [fan_out routed] in *. destruct (Yaml.lower tag) as [t'|]; [|by apply elem_of_nil in Ht].
  rewrite Hmk.
  assert (Hs : submit_copy env src ([TMP_DIR; t'] ++ [file]) f !! src = Some c).
  { destruct (submit_copy_lookup env src ([TMP_DIR; t'] ++ [file]) f src) as [?|[-> _]]; [congruence|done]. }
  destruct (decide (t ∈ routed tags)) as [Hin|Hnin]; [by apply IH|].
  apply elem_of_cons in Ht as [->|?]; [|done].
  rewrite fan_out_frame.
  - unfold submit_copy. rewrite Hcopy, Hc. apply lookup_insert_eq.
  - intros t Ht [= ->]. done.
Qed.

Lemma process_poc_cases env known f rf :
  _process_poc env known f rf = f ∨
  ∃ c tags, f !! os_path_join rf = Some c ∧ (hexdigest env c ∉ known) ∧
    declared_tags env c = Some tags ∧
    _process_poc env known f rf = fan_out env (os_path_join rf) (snd rf) tags f.
Proof.
  unfold _process_poc.
  destruct (_calculate_sha256 env Categorize f (os_path_join rf)) as [e|[p h]] eqn:Hh; [by left|].
  apply calculate_sha256_inr in Hh as (c & Hc & [= -> ->] & _).
  case_decide; [by left|]. rewrite Hc.
  destruct (declared_tags env c) as [tags|] eqn:Htags; [|by left].
  right. exists c, tags. done.
Qed.

Lemma candidate_not_staging (rf : path * string) :
  head (fst rf) = Some CLONE_DIR → head (os_path_join rf) ≠ Some TMP_DIR.
Proof. destruct rf as [[|c r] file]; [done|]. simpl. by intros [= ->] [= ?]. Qed.

Section categorize.
Context (env : Env) (known : gset string).

Lemma process_poc_frame f rf q :
  head q ≠ Some TMP_DIR → _process_poc env known f rf !! q = f !! q.
Proof.
  intros Hq. destruct (process_poc_cases env known f rf) as [->|(c & tags & _ & _ & _ & ->)]; [done|].
  apply fan_out_frame. intros t _ ->. done.
Qed.

Lemma process_poc_lookup f rf q :
  head (fst rf) = Some CLONE_DIR →
  _process_poc env known f rf !! q = f !! q ∨
  ∃ c t, f !! os_path_join rf = Some c ∧ (hexdigest env c ∉ known) ∧
    t ∈ staged_tags env c ∧ q = [TMP_DIR; t; snd rf] ∧
    _process_poc env known f rf !! q = Some c.
Proof.
  intros Hrf. destruct (process_poc_cases env known f rf) as [->|(c & tags & Hc & Hex & Htags & ->)];
    [by left|].
  destruct (fan_out_lookup env (os_path_join rf) (snd rf) tags f q) as [?|(Hq & _ & t & Ht & ->)];
    [by apply candidate_not_staging|by left|].
  right. exists c, t. split_and!; [done..| |done|congruence].
  unfold staged_tags. by rewrite Htags.
Qed.

Lemma process_poc_written f rf q c :
  head (fst rf) = Some CLONE_DIR →
  _process_poc env known f rf !! q = Some c →
  f !! q = Some c ∨
  (f !! os_path_join rf = Some c ∧ (hexdigest env c ∉ known) ∧
   ∃ t, t ∈ staged_tags env c ∧ q = [TMP_DIR; t; snd rf]).
Proof.
  intros Hrf Hq.
  destruct (process_poc_lookup f rf q Hrf) as [Heq|(c' & t & Hc & Hex & Ht & -> & Hres)].
  - left. congruence.
  - right. simplify_eq. eauto.
Qed.

Lemma process_poc_complete f rf c t :
  copies_work env → head (fst rf) = Some CLONE_DIR →
  f !! os_path_join rf = Some c → hexdigest env c ∉ known → t ∈ staged_tags env c →
  _process_poc env known f rf !! [TMP_DIR; t; snd rf] = Some c.
Proof.
  intros Hw Hrf Hc Hex Ht. unfold _process_poc.
  rewrite (calculate_sha256_content _ _ _ _ c) by (done || apply Hw).
  rewrite decide_False by done. rewrite Hc.
  unfold staged_tags in Ht. destruct (declared_tags env c) as [tags|]; [|by apply elem_of_nil in Ht].
  apply fan_out_complete; [done|by apply candidate_not_staging|done..].
Qed.

Lemma categorize_frame (l : list (path * string)) f q :
  head q ≠ Some TMP_DIR → foldl (_process_poc env known) f l !! q = f !! q.
Proof.
  intros Hq. revert f. induction l as [|rf l IH]; intros f; [done|].
  simpl. rewrite IH. by apply process_poc_frame.
Qed.

Lemma categorize_written (l : list (path * string)) f q c :
  Forall (fun rf => head (fst rf) = Some CLONE_DIR) l →
  foldl (_process_poc env known) f l !! q = Some c →
  f !! q = Some c ∨
  ∃ rf t, rf ∈ l ∧ f !! os_path_join rf = Some c ∧ (hexdigest env c ∉ known) ∧
          t ∈ staged_tags env c ∧ q = [TMP_DIR; t; snd rf].
Proof.
  intros Hl. revert f. induction Hl as [|rf l Hrf Hl IH]; intros f Hq; [by left|].
  simpl in Hq. apply IH in Hq as [Hq|(rf' & t & Hin & Hc & Hex & Ht & ->)].
  - apply process_poc_written in Hq as [?|(Hc & Hex & t & Ht & ->)]; [by left| |done].
    right. exists rf, t. split_and!; [by left|done..].
  - right. exists rf', t. split_and!; [by right| |done..].
    rewrite <- Hc. symmetry. apply process_poc_frame.
    apply candidate_not_staging. rewrite Forall_forall in Hl. by apply Hl.
Qed.

Lemma categorize_complete (l : list (path * string)) f0 f rf0 c0 t :
  copies_work env →
  Forall (fun rf => head (fst rf) = Some CLONE_DIR) l →
  (∀ q, head q ≠ Some TMP_DIR → f !! q = f0 !! q) →
  head (fst rf0) = Some CLONE_DIR →
  f0 !! os_path_join rf0 = Some c0 → hexdigest env c0 ∉ known → t ∈ staged_tags env c0 →
  (∀ rf c, rf ∈ l → snd rf = snd rf0 → f0 !! os_path_join rf = Some c →
           hexdigest env c ∉ known → t ∈ staged_tags env c → c = c0) →
  rf0 ∈ l ∨ f !! [TMP_DIR; t; snd rf0] = Some c0 →
  foldl (_process_poc env known) f l !! [TMP_DIR; t; snd rf0] = Some c0.
Proof.
  intros Hw Hl. revert f. induction Hl as [|rf l Hrf _ IH]; intros f Hf Hrf0 Hc0 Hex0 Ht0 Hclash Hor.
  { destruct Hor as [?%elem_of_nil|?]; done. }
  simpl. apply IH; try done.
  - intros q Hq. rewrite process_poc_frame by done. by apply Hf.
  - intros rf' c' Hin. apply Hclash. by right.
  - destruct (decide (rf0 ∈ l)) as [?|Hnin]; [by left|right].
    assert (Hkeep : f !! [TMP_DIR; t; snd rf0] = Some c0 →
                    _process_poc env known f rf !! [TMP_DIR; t; snd rf0] = Some c0).
    { intros Hcur.
      destruct (process_poc_lookup f rf [TMP_DIR; t; snd rf0] Hrf)
        as [Heq|(c & t' & Hc & Hex & Ht & [= <- Hfile] & Hres)]; [congruence|].
      rewrite Hres. f_equal. apply (Hclash rf c); [by left|done| |done..].
      rewrite <- Hf; [done|by apply candidate_not_staging]. }
    destruct Hor as [[->|?]%elem_of_cons|Hcur]; [|done|by apply Hkeep].
    apply process_poc_complete; try done. rewrite Hf; [done|by apply candidate_not_staging].
Qed.

End categorize.

Lemma hash_all_inr env st f (l : list path) hs :
  hash_all env st f l = inr hs →
  ∀ h, h ∈ hs ↔ ∃ p c, p ∈ l ∧ f !! p = Some c ∧ h = hexdigest env c.
Proof.
  revert hs. induction l as [|p l IH]; intros hs; cbn [hash_all].
  - intros [= <-] h. split; [by intros ?%not_elem_of_empty|]. by intros (? & ? & ?%elem_of_nil & _).
  - destruct (_calculate_sha256 env st f p) as [e|[p' h']] eqn:Hp; [done|].
    apply calculate_sha256_inr in Hp as (c & Hc & [= -> ->] & _).
    destruct (hash_all env st f l) as [e|hs'] eqn:Hl; [done|].
    intros [= <-] h. rewrite elem_of_union, elem_of_singleton, (IH hs' eq_refl h). split.
    + intros [->|(q & c' & ? & ? & ?)].
      * exists p, c. split; [by left|done].
      * exists q, c'. split; [by right|done].
    + intros (q & c' & [->|?]%elem_of_cons & Hq & ->).
      * left. congruence.
      * right. eauto.
Qed.

Lemma hash_all_total env st f (l : list path) :
  (∀ p, io_fault env (op_hash st p) = false) →
  Forall (fun p => is_Some (f !! p)) l → ∃ hs, hash_all env st f l = inr hs.
Proof.
  intros Hio. induction 1 as [|p l [c Hc] _ [hs IH]]; cbn [hash_all]; [by eexists|].
  rewrite (calculate_sha256_content _ _ _ _ c) by done. rewrite IH. by eexists.
Qed.

Lemma seeded_fresh env f hs c :
  hash_all env Seed f (map os_path_join (walk POC_DIR f)) = inr hs →
  hexdigest env c ∉ hs ↔ fresh env f c.
Proof.
  intros Hhs. rewrite (hash_all_inr _ _ _ _ _ Hhs). unfold fresh. split.
  - intros Hno q c' Hq Hc' Heq. apply Hno. exists q, c'. split_and!; [|done..].
    apply elem_of_walk_join. eauto.
  - intros Hfresh (q & c' & [Hq _]%elem_of_walk_join & Hc' & Heq). by eapply Hfresh.
Qed.

Lemma fresh_without_corpus env f c : subtree POC_DIR f = ∅ → fresh env f c.
Proof.
  intros Hsub q c' Hq Hc'. assert (Hs : subtree POC_DIR f !! q = Some c').
  { by apply subtree_lookup_Some. }
  rewrite Hsub in Hs. by rewrite lookup_empty in Hs.
Qed.

Lemma categorizer_skips_known env f known g rf c q c0 :
  hash_all env Seed f (map os_path_join (walk POC_DIR f)) = inr known →
  under POC_DIR q → f !! q = Some c0 → hexdigest env c0 = hexdigest env c →
  g !! os_path_join rf = Some c → _process_poc env known g rf = g.
Proof.
  intros Hknown Hq Hc0 Heq Hc. unfold _process_poc.
  destruct (_calculate_sha256 env Categorize g (os_path_join rf)) as [|[p h]] eqn:Hh; [done|].
  apply calculate_sha256_inr in Hh as (c' & Hc' & [= -> ->] & _).
  assert (c' = c) as -> by congruence.
  rewrite decide_True; [done|].
  destruct (decide (hexdigest env c ∈ known)) as [|Hno]; [done|].
  apply (seeded_fresh env f known c Hknown) in Hno. exfalso. by apply (Hno q c0).
Qed.

Lemma routed_strings (ts : list string) : routed (map Yaml.Str ts) = map Py.lower ts.
Proof. induction ts as [|t ts IH]; [done|]. cbn. by rewrite IH. Qed.

Lemma routed_chars (tags : string) :
  routed (Yaml.chars tags) =
  map (fun a => Py.lower (String a EmptyString)) (list_ascii_of_string tags).
Proof. induction tags as [|a tags IH]; [done|]. cbn. by rewrite IH. Qed.

Lemma stdout_progress_lines (n : nat) :
  omap (fun e => match e with EvPrint l => Some l | _ => None end) (progress_lines n)
  = map (fun k => progress (50 * k) n) (seq 1 (n / 50)).
Proof.
  unfold progress_lines. generalize (seq 1 (n / 50)). intros l.
  induction l as [|k l IH]; [done|]. cbn [map omap list_omap]. f_equal. apply IH.
Qed.

Lemma dynamic_categorization_total env s :
  (∀ p, io_fault env (op_hash Seed p) = false) →
  ∃ s3, dynamic_categorization env s = Done s3.
Proof.
  intros Hio. unfold dynamic_categorization.
  destruct (hash_all_total env Seed (fs (print (stage_banner 3) s))
              (map os_path_join (walk POC_DIR (fs (print (stage_banner 3) s)))) Hio) as [hs ->].
  - apply Forall_forall. by intros p [_ ?]%elem_of_walk_join.
  - by eexists.
Qed.

Lemma dynamic_categorization_spec env s s3 :
  (∀ A (l : list A), as_completed env Categorize A l ≡ₚ l) →
  dynamic_categorization env s = Done s3 →
  (∀ q, head q ≠ Some TMP_DIR → fs s3 !! q = fs s !! q) ∧
  (∀ q c, fs s3 !! q = Some c →
     fs s !! q = Some c ∨
     ∃ rf t, rf ∈ candidates (fs s) ∧ fs s !! os_path_join rf = Some c ∧
       fresh env (fs s) c ∧ t ∈ staged_tags env c ∧ q = [TMP_DIR; t; snd rf]) ∧
  (copies_work env →
   ∀ rf c t, rf ∈ candidates (fs s) → fs s !! os_path_join rf = Some c →
     fresh env (fs s) c → t ∈ staged_tags env c →
     (∀ rf' c', rf' ∈ candidates (fs s) → snd rf' = snd rf →
        fs s !! os_path_join rf' = Some c' → fresh env (fs s) c' →
        t ∈ staged_tags env c' → c' = c) →
     fs s3 !! [TMP_DIR; t; snd rf] = Some c) ∧
  trace s3 = trace s ++ EvPrint (stage_banner 3) :: progress_lines (length (candidates (fs s))).
Proof.
  intros Hperm. unfold dynamic_categorization. cbn [print emit fs trace].
  destruct (hash_all env Seed (fs s) (map os_path_join (walk POC_DIR (fs s)))) as [?|hs] eqn:Hhs;
    [done|].
  intros [= <-]. cbn [fs trace].
  assert (Hin : Forall (fun rf => head (fst rf) = Some CLONE_DIR)
                  (as_completed env Categorize (path * string) (candidates (fs s)))).
  { rewrite Hperm. apply candidates_in_clone. }
  split_and!.
  - intros q Hq. by apply categorize_frame.
  - intros q c [?|(rf & t & Hrf & Hc & Hex & Ht & ->)]%categorize_written; [by left| |done].
    right. exists rf, t. rewrite Hperm in Hrf. split_and!; [done..| |done|done].
    by eapply seeded_fresh.
  - intros Hw rf c t Hrf Hc Hfresh Ht Hclash.
    apply (categorize_complete env hs _ (fs s)); try done.
    + by apply elem_of_candidates in Hrf as (? & _).
    + by eapply seeded_fresh.
    + intros rf' c' Hrf'. rewrite Hperm in Hrf'. intros ? ? Hex ?.
      apply (Hclash rf' c'); try done. by eapply seeded_fresh.
    + left. by rewrite Hperm.
  - rewrite Hperm. by rewrite <- app_assoc.
Qed.

(** ** Stage 4: validation and migration *)

Lemma validate_poc_fs env s p :
  fs (_validate_poc env s p) =
    if decide (accepted env p (fs s !! p)) then fs s else delete p (fs s).
Proof.
  destruct (decide (accepted env p (fs s !! p))) as [Ha|Ha];
    unfold accepted, checker_argv in Ha; unfold _validate_poc.
  - rewrite Ha. rewrite decide_False; [done|]. intros H. by apply H.
  - destruct (nuclei env _ 120 (fs s !! p)) as [rc| |msg]; [|done..].
    rewrite decide_True; [done|]. intros ->. by apply Ha.
Qed.

Lemma validate_poc_trace env s p :
  trace (_validate_poc env s p) =
    trace s ++ [EvExec (checker_argv p) (Some 120%Z) (nuclei env (checker_argv p) 120 (fs s !! p))].
Proof.
  unfold _validate_poc, checker_argv. cbn [emit fs].
  destruct (nuclei env _ 120 (fs s !! p)) as [rc| |msg]; [destruct (decide (rc ≠ 0%Z))|..]; done.
Qed.

Lemma validate_all_stdout env (l : list path) s :
  stdout (foldl (_validate_poc env) s l) = stdout s.
Proof.
  revert s. induction l as [|p l IH]; intros s; [done|].
  cbn [foldl]. rewrite IH. unfold stdout. rewrite validate_poc_trace.
  rewrite omap_app. cbn. by rewrite app_nil_r.
Qed.

Lemma validate_all_attempts env (l : list path) s :
  attempts (trace (foldl (_validate_poc env) s l)) = attempts (trace s) ++ map checker_argv l.
Proof.
  revert s. induction l as [|p l IH]; intros s; [by rewrite app_nil_r|].
  cbn [foldl map]. rewrite IH, validate_poc_trace. unfold attempts.
  rewrite omap_app. cbn [omap list_omap]. by rewrite <- app_assoc.
Qed.

Lemma validate_all_lookup env (l : list path) s q :
  NoDup l →
  fs (foldl (_validate_poc env) s l) !! q =
    if decide (q ∈ l ∧ ¬ accepted env q (fs s !! q)) then None else fs s !! q.
Proof.
  intros Hnd. revert s. induction Hnd as [|p l Hp _ IH]; intros s.
  - cbn [foldl]. rewrite decide_False; [done|]. by intros [?%elem_of_nil _].
  - cbn [foldl]. rewrite IH, validate_poc_fs.
    destruct (decide (q = p)) as [->|Hne].
    + rewrite (decide_False (P := p ∈ l ∧ _)) by tauto.
      destruct (decide (accepted env p (fs s !! p))) as [Ha|Ha].
      * rewrite decide_False; [done|]. tauto.
      * rewrite lookup_delete_eq. rewrite decide_True; [done|]. split; [by left|done].
    + assert (Heq : (if decide (accepted env p (fs s !! p)) then fs s else delete p (fs s)) !! q
                    = fs s !! q).
      { destruct (decide (accepted env p (fs s !! p))); [done|]. by rewrite lookup_delete_ne by congruence. }
      rewrite Heq. apply decide_ext. rewrite elem_of_cons. tauto.
Qed.

Lemma migrate_one_rest env f rf :
  under TMP_DIR (os_path_join rf) →
  migrate_one env f rf = migrate_rest env f (drop 1 (os_path_join rf)).
Proof.
  intros (rest & Heq & _)%under_cons. unfold migrate_one, migrate_rest, _safe_move.
  rewrite Heq. change (drop 1 (TMP_DIR :: rest)) with rest.
  cbn [relpath]. rewrite decide_True by done.
  destruct (decide (movable env rest)) as [[Hm1 Hm2]|Hm].
  - rewrite Hm1, Hm2. by destruct (f !! (TMP_DIR :: rest)).
  - destruct (io_fault env (op_makedirs _)) eqn:Hm1; [by destruct (f !! (TMP_DIR :: rest))|].
    destruct (io_fault env (op_move _ _)) eqn:Hm2; [by destruct (f !! (TMP_DIR :: rest))|].
    by destruct Hm.
Qed.

Lemma migrate_all_rest env (l : list (path * string)) f :
  Forall (fun rf => under TMP_DIR (os_path_join rf)) l →
  foldl (migrate_one env) f l = foldl (migrate_rest env) f (map (fun rf => drop 1 (os_path_join rf)) l).
Proof.
  intros H. revert f. induction H as [|rf l Hrf _ IH]; intros f; [done|].
  cbn [foldl map]. by rewrite migrate_one_rest, IH.
Qed.

Lemma tmp_poc_ne (r1 r2 : path) : TMP_DIR :: r1 ≠ POC_DIR :: r2.
Proof. by intros [= ? _]. Qed.

Lemma migrate_rests_lookup env (rs : list path) f :
  NoDup rs →
  (∀ rest, foldl (migrate_rest env) f rs !! (POC_DIR :: rest) =
     if decide (rest ∈ rs ∧ is_Some (f !! (TMP_DIR :: rest)) ∧ movable env rest)
     then f !! (TMP_DIR :: rest) else f !! (POC_DIR :: rest)) ∧
  (∀ rest, foldl (migrate_rest env) f rs !! (TMP_DIR :: rest) =
     if decide (rest ∈ rs ∧ movable env rest) then None else f !! (TMP_DIR :: rest)) ∧
  (∀ q, head q ≠ Some TMP_DIR → head q ≠ Some POC_DIR →
     foldl (migrate_rest env) f rs !! q = f !! q).
Proof.
  intros Hnd. revert f. induction Hnd as [|r rs Hr _ IH]; intros f.
  { cbn [foldl]. split_and!; [intros rest|intros rest|done];
      (rewrite decide_False; [done|]); by intros [?%elem_of_nil _]. }
  cbn [foldl]. destruct (IH (migrate_rest env f r)) as (IH1 & IH2 & IH3). clear IH.
  assert (Hpoc : ∀ rest, migrate_rest env f r !! (POC_DIR :: rest) =
            if decide (rest = r ∧ is_Some (f !! (TMP_DIR :: rest)) ∧ movable env rest)
            then f !! (TMP_DIR :: rest) else f !! (POC_DIR :: rest)).
  { intros rest. unfold migrate_rest. destruct (f !! (TMP_DIR :: r)) as [data|] eqn:Hsrc.
    - destruct (decide (movable env r)) as [Hm|Hm].
      + destruct (decide (rest = r)) as [->|Hne].
        * rewrite lookup_insert_eq, decide_True; [done|]. rewrite Hsrc. eauto.
        * rewrite lookup_insert_ne by congruence.
          rewrite lookup_delete_ne by apply tmp_poc_ne. rewrite decide_False; [done|]. tauto.
      + rewrite decide_False; [done|]. intros (-> & _ & ?). done.
    - rewrite decide_False; [done|]. intros (-> & [? ?] & _). congruence. }
  assert (Htmp : ∀ rest, migrate_rest env f r !! (TMP_DIR :: rest) =
            if decide (rest = r ∧ movable env rest) then None else f !! (TMP_DIR :: rest)).
  { intros rest. unfold migrate_rest. destruct (f !! (TMP_DIR :: r)) as [data|] eqn:Hsrc.
    - destruct (decide (movable env r)) as [Hm|Hm].
      + rewrite lookup_insert_ne by (symmetry; apply tmp_poc_ne).
        destruct (decide (rest = r)) as [->|Hne].
        * rewrite lookup_delete_eq, decide_True; done.
        * rewrite lookup_delete_ne by congruence. rewrite decide_False; [done|]. tauto.
      + rewrite decide_False; [done|]. intros (-> & ?). done.
    - destruct (decide (rest = r ∧ movable env rest)) as [[-> _]|]; done. }
  split_and!.
  - intros rest. rewrite IH1, Hpoc, Htmp.
    destruct (decide (rest = r)) as [->|Hne].
    + rewrite (decide_False (P := r ∈ rs ∧ _)) by tauto.
      apply decide_ext. rewrite elem_of_cons. tauto.
    + rewrite (decide_False (P := rest = r ∧ _ ∧ _)) by tauto.
      rewrite (decide_False (P := rest = r ∧ _)) by tauto.
      apply decide_ext. rewrite elem_of_cons. tauto.
  - intros rest. rewrite IH2, Htmp.
    destruct (decide (rest ∈ rs ∧ movable env rest)) as [[? ?]|Hn].
    + rewrite decide_True; [done|]. split; [by right|done].
    + apply decide_ext. rewrite elem_of_cons. tauto.
  - intros q Hq1 Hq2. rewrite IH3 by done. unfold migrate_rest.
    destruct (f !! (TMP_DIR :: r)); [|done]. case_decide; [|done].
    rewrite lookup_insert_ne by (intros <-; done).
    rewrite lookup_delete_ne by (intros <-; done). done.
Qed.

Lemma staged_rests top f :
  let rs := map (fun rf => drop 1 (os_path_join rf)) (walk top f) in
  NoDup rs ∧ ∀ rest, rest ∈ rs ↔ rest ≠ [] ∧ is_Some (f !! (top :: rest)).
Proof.
  intros rs.
  assert (Heq : rs = map (drop 1) (map os_path_join (walk top f))).
  { unfold rs. by rewrite <- list_fmap_compose. }
  split.
  - rewrite Heq. apply NoDup_fmap_2_strong; [|apply NoDup_walk_join].
    intros p q [Hp _]%elem_of_walk_join [Hq _]%elem_of_walk_join.
    apply under_cons in Hp as (r1 & -> & _). apply under_cons in Hq as (r2 & -> & _).
    change (drop 1 (top :: r1)) with r1. change (drop 1 (top :: r2)) with r2. by intros ->.
  - intros rest. rewrite Heq, list_elem_of_fmap. split.
    + intros (p & -> & [Hp Hs]%elem_of_walk_join).
      apply under_cons in Hp as (r1 & -> & ?). done.
    + intros [Hne Hs]. exists (top :: rest). split; [done|].
      apply elem_of_walk_join. split; [by apply under_cons_iff|done].
Qed.

Lemma enterprise_validation_spec env s :
  ∃ s4, enterprise_validation env s = Done s4 ∧
    (∀ rest, fs s4 !! (POC_DIR :: rest) =
       if decide (migrates env (fs s) rest) then fs s !! (TMP_DIR :: rest)
       else fs s !! (POC_DIR :: rest)) ∧
    (∀ rest, rest ≠ [] →
       fs s4 !! (TMP_DIR :: rest) =
       if decide (accepted env (TMP_DIR :: rest) (fs s !! (TMP_DIR :: rest)) ∧ ¬ movable env rest)
       then fs s !! (TMP_DIR :: rest) else None) ∧
    (∀ q, ¬ under TMP_DIR q → head q ≠ Some POC_DIR → fs s4 !! q = fs s !! q) ∧
    stdout s4 = stdout s ++ [stage_banner 4] ∧
    attempts (trace s4) =
      attempts (trace s) ++ map checker_argv (map os_path_join (walk TMP_DIR (fs s))).
Proof.
  eexists. split; [done|].
  set (s1 := print (stage_banner 4) s).
  set (paths := map os_path_join (walk TMP_DIR (fs s1))).
  set (s2 := foldl (fun s batch => foldl (_validate_poc env) s batch) s1 (Py.chunks 200 paths)).
  assert (Hs2 : s2 = foldl (_validate_poc env) s1 paths).
  { unfold s2. apply foldl_chunks. lia. }
  assert (Hv : ∀ q, fs s2 !! q =
     if decide (q ∈ paths ∧ ¬ accepted env q (fs s !! q)) then None else fs s !! q).
  { intros q. rewrite Hs2. rewrite validate_all_lookup by apply NoDup_walk_join. done. }
  assert (Hpaths : ∀ q, q ∈ paths ↔ under TMP_DIR q ∧ is_Some (fs s !! q)).
  { intros q. apply elem_of_walk_join. }
  unfold _migrate_valid_files. cbn [set_fs fs trace].
  rewrite migrate_all_rest.
  2:{ apply Forall_forall. intros rf Hrf.
      apply (list_elem_of_fmap_2 os_path_join) in Hrf. by apply elem_of_walk_join in Hrf as [? _]. }
  destruct (staged_rests TMP_DIR (fs s2)) as [Hnd Hrs].
  destruct (migrate_rests_lookup env _ (fs s2) Hnd) as (M1 & M2 & M3).
  assert (Hstay : ∀ q, ¬ under TMP_DIR q → fs s2 !! q = fs s !! q).
  { intros q Hq. rewrite Hv, decide_False; [done|]. rewrite Hpaths. tauto. }
  assert (Htmp : ∀ rest, rest ≠ [] → fs s2 !! (TMP_DIR :: rest) =
     if decide (accepted env (TMP_DIR :: rest) (fs s !! (TMP_DIR :: rest)))
     then fs s !! (TMP_DIR :: rest) else None).
  { intros rest Hne. rewrite Hv.
    destruct (decide (accepted env (TMP_DIR :: rest) (fs s !! (TMP_DIR :: rest)))) as [Ha|Ha].
    - rewrite decide_False; [done|]. tauto.
    - destruct (fs s !! (TMP_DIR :: rest)) as [c|] eqn:Hc.
      + rewrite decide_True; [done|]. split; [|done]. apply Hpaths.
        split; [by apply under_cons_iff|]. rewrite Hc. eauto.
      + by case_decide. }
  assert (Hmig : ∀ rest, migrates env (fs s) rest →
            fs s2 !! (TMP_DIR :: rest) = fs s !! (TMP_DIR :: rest)).
  { intros rest (Hne & _ & Ha & _). rewrite Htmp by done. by rewrite decide_True. }
  split_and!.
  - intros rest. rewrite M1.
    rewrite <- (Hstay (POC_DIR :: rest)) by (destruct rest; simpl; [tauto|by intros [= ?]]).
    symmetry. apply if_decide_ext; [|by intros ?; symmetry; apply Hmig|done].
    rewrite Hrs. unfold migrates. split.
    + intros (Hne & Hs & Ha & Hm). rewrite Htmp, decide_True by done. tauto.
    + intros ((Hne & _) & Hs & Hm). rewrite Htmp in Hs by done.
      destruct (decide (accepted env (TMP_DIR :: rest) (fs s !! (TMP_DIR :: rest)))); [tauto|].
      by destruct Hs.
  - intros rest Hne. rewrite M2.
    destruct (decide (accepted env (TMP_DIR :: rest) (fs s !! (TMP_DIR :: rest)) ∧
                      ¬ movable env rest)) as [[Ha Hm]|Hn].
    + rewrite decide_False by tauto. rewrite Htmp by done. by rewrite decide_True.
    + destruct (decide (_ ∧ movable env rest)) as [|Hn']; [done|].
      rewrite Htmp by done.
      destruct (decide (accepted env (TMP_DIR :: rest) (fs s !! (TMP_DIR :: rest)))) as [Ha|];
        [|done].
      destruct (fs s !! (TMP_DIR :: rest)) as [c|] eqn:Hc; [|done].
      exfalso. apply Hn'. split; [|destruct (decide (movable env rest)); tauto]. apply Hrs. split; [done|].
      rewrite Htmp by done. rewrite Hc. rewrite decide_True by done. eauto.
  - intros q Hq1 Hq2. destruct (decide (head q = Some TMP_DIR)) as [Hh|Hh].
    + destruct q as [|c [|d r]]; [done| |].
      2:{ exfalso. apply Hq1. cbn. by injection Hh. }
      injection Hh as ->. rewrite M2. rewrite decide_False; [by apply Hstay|]. rewrite Hrs. tauto.
    + rewrite M3 by done. by apply Hstay.
  - transitivity (stdout s2); [done|].
    rewrite Hs2, validate_all_stdout. unfold s1, print, emit, stdout. cbn [trace].
    by rewrite omap_app.
  - transitivity (attempts (trace s2)); [done|].
    rewrite Hs2, validate_all_attempts. unfold s1, print, emit, attempts. cbn [trace].
    rewrite omap_app. cbn [omap list_omap]. by rewrite app_nil_r.
Qed.

(** C3.  Validating a staged file runs the checker once, as
    [NUCLEI_BIN -validate -t path] with a timeout of 120 seconds; the file
    stays when the checker exits with code zero and is deleted when it
    exits with another code, times out or cannot be run.  The validation
    stage always completes and runs the checker once on every staged
    file; a staged file the checker does not accept is
    gone from staging and never reaches the corpus, and every file the
    Migrator put into the corpus was a staged file the checker accepted. *)
Theorem validator_keeps_what_the_checker_accepts env s :
  (∀ p, trace (_validate_poc env s p) =
          trace s ++ [EvExec [NUCLEI_BIN; "-validate"; "-t"; path_str p] (Some 120%Z)
                        (nuclei env [NUCLEI_BIN; "-validate"; "-t"; path_str p] 120 (fs s !! p))] ∧
        match nuclei env [NUCLEI_BIN; "-validate"; "-t"; path_str p] 120 (fs s !! p) with
        | Exited 0 => fs (_validate_poc env s p) = fs s
        | Exited _ | TimeoutExpired | Raised _ => fs (_validate_poc env s p) = delete p (fs s)
        end) ∧
  ∃ s4, enterprise_validation env s = Done s4 ∧
    (∀ rest, rest ≠ [] →
       ¬ accepted env (TMP_DIR :: rest) (fs s !! (TMP_DIR :: rest)) →
       fs s4 !! (TMP_DIR :: rest) = None ∧
       fs s4 !! (POC_DIR :: rest) = fs s !! (POC_DIR :: rest)) ∧
    (∀ rest c, fs s4 !! (POC_DIR :: rest) = Some c →
       fs s !! (POC_DIR :: rest) = Some c ∨
       (fs s !! (TMP_DIR :: rest) = Some c ∧ accepted env (TMP_DIR :: rest) (Some c))) ∧
    attempts (trace s4) =
      attempts (trace s) ++
      map (fun rf => [NUCLEI_BIN; "-validate"; "-t"; path_str (os_path_join rf)])
          (walk TMP_DIR (fs s)).
Proof.
  split.
  - intros p. split; [apply validate_poc_trace|].
    rewrite validate_poc_fs.
    destruct (decide (accepted env p (fs s !! p))) as [Ha|Ha]; unfold accepted, checker_argv in Ha.
    + by rewrite Ha.
    + destruct (nuclei env _ 120 (fs s !! p)) as [[| |]| |]; [by destruct Ha|done..].
  - destruct (enterprise_validation_spec env s) as (s4 & H4 & V1 & V2 & _ & _ & Hatt).
    exists s4. split_and!; [done| | |by rewrite Hatt, <- list_fmap_compose].
    + intros rest Hne Hrej. split.
      * rewrite V2 by done. rewrite decide_False; [done|]. tauto.
      * rewrite V1. rewrite decide_False; [done|]. unfold migrates. tauto.
    + intros rest c. rewrite V1. case_decide as Hm; [|by left].
      intros Hc. right. split; [done|]. destruct Hm as (_ & _ & Ha & _). by rewrite Hc in Ha.
Qed.

(** ** Stage 1: one source *)

Lemma git_command_cases env cfg url t f :
  git_command env cfg url t f =
    if dir_exists env t (target_dir url) f then pull_command cfg url
    else clone_command cfg url.
Proof. done. Qed.

Lemma git_retries_trace env cfg url n k s :
  ∃ evs, trace (git_retries env cfg url (seq k n) s) = trace s ++ evs ∧
         retry_schedule cfg url k n evs.
Proof.
  revert k s. induction n as [|n IH]; intros k s.
  { exists []. split; [by rewrite app_nil_r|constructor]. }
  cbn [seq git_retries].
  assert (Hargv : git_command env cfg url (length (trace s)) (fs s) = pull_command cfg url ∨
                  git_command env cfg url (length (trace s)) (fs s) = clone_command cfg url).
  { rewrite git_command_cases. destruct (dir_exists _ _ _ _); [by left|by right]. }
  destruct (git env (length (trace s)) (git_command env cfg url (length (trace s)) (fs s)) (fs s)) as [r f'].
  destruct r as [rc| |msg].
  - destruct (decide (rc = 0%Z)) as [->|Hrc].
    + eexists. split; [done|]. by constructor.
    + edestruct (IH (S k)) as (evs & -> & Hevs). eexists. split.
      * cbn [emit set_fs trace]. rewrite <- !app_assoc. done.
      * by constructor.
  - edestruct (IH (S k)) as (evs & -> & Hevs). eexists. split.
    + cbn [print emit set_fs trace]. rewrite <- !app_assoc. done.
    + apply (retry_after_exception _ _ _ _ _ _ "timeout"); [done|by left|done].
  - edestruct (IH (S k)) as (evs & -> & Hevs). eexists. split.
    + cbn [print emit set_fs trace]. rewrite <- !app_assoc. done.
    + apply (retry_after_exception _ _ _ _ _ _ msg); [done|by right|done].
Qed.

Lemma retry_schedule_attempts cfg url k n evs :
  retry_schedule cfg url k n evs → length (attempts evs) ≤ n.
Proof. induction 1; unfold attempts in *; cbn [omap list_omap length] in *; lia. Qed.

Lemma retry_schedule_sleeps cfg url k n evs secs :
  retry_schedule cfg url k n evs → EvSleep secs ∈ evs →
  ∃ j, k ≤ j < k + n ∧ secs = (2 ^ Z.of_nat j)%Z.
Proof.
  induction 1 as [k|k n argv Ha|k n argv rc evs Ha Hrc Hevs IH|k n argv r msg evs Ha Hr Hevs IH].
  - by intros ?%elem_of_nil.
  - intros [?|?%elem_of_nil]%elem_of_cons; done.
  - intros [?|[[= ->]|Hin]%elem_of_cons]%elem_of_cons; [done| |].
    + exists k. split; [lia|done].
    + destruct (IH Hin) as (j & ? & ?). exists j. split; [lia|done].
  - intros [?|[?|Hin]%elem_of_cons]%elem_of_cons; [done..|].
    destruct (IH Hin) as (j & ? & ?). exists j. split; [lia|done].
Qed.

Lemma retry_schedule_quiet cfg url k n evs :
  retry_schedule cfg url k n evs → schedule_of evs = [].
Proof. induction 1; unfold schedule_of in *; cbn [omap list_omap]; done. Qed.

Lemma git_retries_path env cfg url retries s p :
  (∀ t argv f, snd (git env t argv f) !! p = f !! p) →
  fs (git_retries env cfg url retries s) !! p = fs s !! p.
Proof.
  intros Hgit. revert s. induction retries as [|retry rest IH]; intros s; [done|].
  cbn [git_retries].
  pose proof (Hgit (length (trace s)) (git_command env cfg url (length (trace s)) (fs s)) (fs s)) as Hstep.
  destruct (git env (length (trace s)) (git_command env cfg url (length (trace s)) (fs s)) (fs s)) as [r f'].
  cbn in Hstep. destruct r as [rc| |msg].
  - destruct (decide (rc = 0%Z)); [done|]. by rewrite IH.
  - by rewrite IH.
  - by rewrite IH.
Qed.

Lemma git_retries_fs env cfg url retries s :
  (∀ t argv f, snd (git env t argv f) = f) → fs (git_retries env cfg url retries s) = fs s.
Proof.
  intros Hgit. revert s. induction retries as [|retry rest IH]; intros s; [done|].
  cbn [git_retries].
  pose proof (Hgit (length (trace s)) (git_command env cfg url (length (trace s)) (fs s)) (fs s)) as Hstep.
  destruct (git env (length (trace s)) (git_command env cfg url (length (trace s)) (fs s)) (fs s)) as [r f'].
  cbn in Hstep. subst f'. destruct r as [rc| |msg].
  - destruct (decide (rc = 0%Z)); [done|]. by rewrite IH.
  - by rewrite IH.
  - by rewrite IH.
Qed.

Lemma git_retries_frame env cfg url retries s p :
  git_confined env → head p ≠ Some CLONE_DIR →
  fs (git_retries env cfg url retries s) !! p = fs s !! p.
Proof.
  intros Hgit Hp. revert s. induction retries as [|retry rest IH]; intros s; [done|].
  cbn [git_retries].
  pose proof (Hgit (length (trace s)) (git_command env cfg url (length (trace s)) (fs s)) (fs s) p Hp) as Hstep.
  destruct (git env (length (trace s)) (git_command env cfg url (length (trace s)) (fs s)) (fs s)) as [r f'].
  simpl in Hstep. destruct r as [rc| |msg].
  - destruct (decide (rc = 0%Z)); [done|]. by rewrite IH.
  - by rewrite IH.
  - by rewrite IH.
Qed.

Lemma gather_frame env cfg batch s p :
  git_confined env → head p ≠ Some CLONE_DIR →
  fs (gather env cfg batch s) !! p = fs s !! p.
Proof.
  intros Hgit Hp. unfold gather.
  rewrite <- (foldl_emit_fs EvDispatch batch s).
  generalize (foldl (fun s url => emit (EvDispatch url) s) s batch). intros s'.
  revert s'. induction batch as [|url batch IH]; intros s'; [done|].
  cbn [foldl]. rewrite IH. cbn [emit fs]. by apply git_retries_frame.
Qed.

Lemma gather_fs env cfg batch s :
  (∀ t argv f, snd (git env t argv f) = f) → fs (gather env cfg batch s) = fs s.
Proof.
  intros Hgit. unfold gather.
  rewrite <- (foldl_emit_fs EvDispatch batch s).
  generalize (foldl (fun s url => emit (EvDispatch url) s) s batch). intros s'.
  revert s'. induction batch as [|url batch IH]; intros s'; [done|].
  cbn [foldl]. rewrite IH. cbn [emit fs]. by apply git_retries_fs.
Qed.

Lemma discovery_frame env cfg s s1 p :
  git_confined env → dynamic_repo_discovery env cfg s = Done s1 →
  head p ≠ Some CLONE_DIR → p ≠ [REPO_FILE] → fs s1 !! p = fs s !! p.
Proof.
  intros Hgit Hrun Hp Hrepo. unfold dynamic_repo_discovery in Hrun.
  destruct (negb (ENABLE_STAGE1 cfg)); [by injection Hrun as <-|].
  destruct (_fetch_github_repos env (print (stage_banner 1) s)) as [new_repos s2] eqn:Hfetch.
  assert (Hs2 : fs s2 = fs s).
  { unfold _fetch_github_repos in Hfetch. destruct (github_search env); by injection Hfetch as <- <-. }
  destruct (Py.range_slices _ _) as [batches|]; [|done].
  injection Hrun as <-.
  assert (Hfold : ∀ bs s', fs (foldl (fun s batch => gather env cfg batch s) s' bs) !! p = fs s' !! p).
  { induction bs as [|b bs IH]; intros s'; [done|]. cbn [foldl]. rewrite IH. by apply gather_frame. }
  rewrite Hfold. unfold _update_repo_registry. cbn [set_fs fs].
  rewrite lookup_insert_ne by done. by rewrite Hs2.
Qed.

Lemma discovery_up_to_date env cfg s s1 p :
  (∀ t argv f, snd (git env t argv f) = f) →
  dynamic_repo_discovery env cfg s = Done s1 →
  p ≠ [REPO_FILE] → fs s1 !! p = fs s !! p.
Proof.
  intros Hgit Hrun Hrepo. unfold dynamic_repo_discovery in Hrun.
  destruct (negb (ENABLE_STAGE1 cfg)); [by injection Hrun as <-|].
  destruct (_fetch_github_repos env (print (stage_banner 1) s)) as [new_repos s2] eqn:Hfetch.
  assert (Hs2 : fs s2 = fs s).
  { unfold _fetch_github_repos in Hfetch. destruct (github_search env); by injection Hfetch as <- <-. }
  destruct (Py.range_slices _ _) as [batches|]; [|done].
  injection Hrun as <-.
  assert (Hfold : ∀ bs s', fs (foldl (fun s batch => gather env cfg batch s) s' bs) = fs s').
  { induction bs as [|b bs IH]; intros s'; [done|]. cbn [foldl]. rewrite IH. by apply gather_fs. }
  rewrite Hfold. unfold _update_repo_registry. cbn [set_fs fs].
  rewrite lookup_insert_ne by done. by rewrite Hs2.
Qed.

Lemma discovery_total env cfg s :
  (ENABLE_STAGE1 cfg = true → GIT_PARALLEL cfg ≠ 0%Z) →
  ∃ s1, dynamic_repo_discovery env cfg s = Done s1.
Proof.
  intros Hp. unfold dynamic_repo_discovery.
  destruct (ENABLE_STAGE1 cfg); [|by eexists]. cbn [negb].
  destruct (_fetch_github_repos env _) as [new_repos s2].
  unfold Py.range_slices. rewrite decide_False by (specialize (Hp eq_refl); lia).
  case_decide; by eexists.
Qed.

Lemma attempts_app evs1 evs2 : attempts (evs1 ++ evs2) = attempts evs1 ++ attempts evs2.
Proof. unfold attempts. apply omap_app. Qed.

Lemma git_command_sync env cfg url s :
  git_command env cfg url (length (trace s)) (fs s) = sync_command env cfg url s.
Proof. apply git_command_cases. Qed.

(** The states in which the attempts of one sync start. *)
Lemma git_retries_starts env cfg url retries s :
  ∃ starts,
    attempts (trace (git_retries env cfg url retries s)) =
      attempts (trace s) ++ map (sync_command env cfg url) starts ∧
    length starts ≤ length retries ∧
    (retries ≠ [] → head starts = Some s) ∧
    ∀ i s1 s2, starts !! i = Some s1 → starts !! S i = Some s2 →
      next_attempt env cfg url s1 s2.
Proof.
  revert s. induction retries as [|retry rest IH]; intros s.
  { exists []. split_and!; [by rewrite app_nil_r|done|done|]. by intros i s1 s2 ?. }
  cbn [git_retries]. rewrite git_command_sync.
  destruct (git env (length (trace s)) (sync_command env cfg url s) (fs s)) as [r f'] eqn:Hgit.
  assert (Hone : ∀ s', attempts (trace s') =
                   attempts (trace s) ++ [sync_command env cfg url s] →
            fs s' = f' → length (trace s) < length (trace s') →
            ∃ starts,
              attempts (trace (git_retries env cfg url rest s')) =
                attempts (trace s) ++ map (sync_command env cfg url) starts ∧
              length starts ≤ length (retry :: rest) ∧
              (retry :: rest ≠ [] → head starts = Some s) ∧
              ∀ i s1 s2, starts !! i = Some s1 → starts !! S i = Some s2 →
                next_attempt env cfg url s1 s2).
  { intros s' Hatt Hfs Hlen. destruct (IH s') as (starts & Hs & Hl & Hh & Hchain).
    exists (s :: starts). split_and!.
    - rewrite Hs, Hatt, <- app_assoc. done.
    - cbn [length]. lia.
    - done.
    - intros [|i] s1 s2 H1 H2.
      + injection H1 as <-.
        destruct starts as [|s0 starts']; [done|]. cbn in H2. injection H2 as <-.
        destruct rest as [|retry' rest']; [cbn in Hl; lia|].
        assert (Hs0 : head (s0 :: starts') = Some s') by (by apply Hh).
        cbn in Hs0. injection Hs0 as ->.
        split; [by rewrite Hgit|done].
      + apply (Hchain i); done. }
  destruct r as [rc| |msg].
  - destruct (decide (rc = 0%Z)) as [->|Hrc].
    + exists [s]. split_and!; [|cbn; lia|done|].
      * cbn [emit set_fs trace]. rewrite attempts_app. done.
      * intros [|i] s1 s2 H1 H2; done.
    + apply Hone.
      * cbn [emit set_fs trace]. rewrite !attempts_app. cbn. by rewrite app_nil_r.
      * done.
      * cbn [emit set_fs trace]. rewrite !length_app. cbn. lia.
  - apply Hone.
    + cbn [print emit set_fs trace]. rewrite !attempts_app. cbn. by rewrite app_nil_r.
    + done.
    + cbn [print emit set_fs trace]. rewrite !length_app. cbn. lia.
  - apply Hone.
    + cbn [print emit set_fs trace]. rewrite !attempts_app. cbn. by rewrite app_nil_r.
    + done.
    + cbn [print emit set_fs trace]. rewrite !length_app. cbn. lia.
Qed.

(** A source whose URL ends in [/] is synced by a pull in the clone
    directory itself, and an empty directory in the place of a working copy
    is pulled in, not cloned over. *)
Lemma existing_directories_are_pulled :
  sync_command quiet_env default_config "https://github.com/o/" (mkState ∅ []) =
    ["git"; "-C"; "clone-templates/"; "pull"; "--depth"; "1"; "--filter=tree:0"] ∧
  sync_command (with_empty_dir (fun _ d => bool_decide (d = ["clone-templates"; "r"])) quiet_env)
    default_config "https://github.com/o/R.git" (mkState ∅ []) =
    ["git"; "-C"; "clone-templates/r"; "pull"; "--depth"; "1"; "--filter=tree:0"] ∧
  sync_command quiet_env default_config "https://github.com/o/R.git" (mkState ∅ []) =
    ["git"; "clone"; "--depth"; "1"; "--filter=tree:0"; "https://github.com/o/R.git";
     "clone-templates/r"].
Proof. vm_compute. done. Qed.

(** C7.  The backoff is missing after an attempt that raises.  When git
    cannot be spawned at the first attempt, the error is printed and the
    second attempt follows at once, with no sleep between the two; after a
    first attempt that ends with exit code 1 the same sync sleeps one second
    before it tries again. *)
Lemma no_backoff_after_exception :
  trace (_async_git_ops (with_git git_raises_once quiet_env) default_config
           "https://github.com/o/r.git" (mkState ∅ [])) =
  [ EvExec (clone_command default_config "https://github.com/o/r.git") None (Raised "spawn failed");
    EvPrint (git_exception "spawn failed");
    EvExec (clone_command default_config "https://github.com/o/r.git") None (Exited 0) ] ∧
  trace (_async_git_ops (with_git git_fails_once quiet_env) default_config
           "https://github.com/o/r.git" (mkState ∅ [])) =
  [ EvExec (clone_command default_config "https://github.com/o/r.git") None (Exited 1);
    EvSleep 1;
    EvExec (clone_command default_config "https://github.com/o/r.git") None (Exited 0) ].
Proof. vm_compute. done. Qed.

(** X23.  One sync of a source runs git at most three times.  Every
    attempt runs the update when the working copy is there at the moment
    the attempt starts, in the file system the previous attempt left, and
    the clone otherwise.  The sync stops at the first exit code zero and
    sleeps [2 ^ k] seconds (1, 2, 4) after attempt [k] when that attempt
    ends with a non-zero exit code; an attempt that raises is printed.  The
    sync never raises, it touches the working copy only through git, and
    the sync stage completes whatever the attempts returned. *)
Theorem sync_retries_back_off_after_exit_codes env cfg url s :
  (∃ evs starts,
     trace (_async_git_ops env cfg url s) = trace s ++ evs ∧
     retry_schedule cfg url 0 3 evs ∧
     attempts evs = map (sync_command env cfg url) starts ∧
     head starts = Some s ∧ length starts ≤ 3 ∧
     (∀ i s1 s2, starts !! i = Some s1 → starts !! S i = Some s2 →
        next_attempt env cfg url s1 s2) ∧
     (∀ secs, EvSleep secs ∈ evs → secs = 1%Z ∨ secs = 2%Z ∨ secs = 4%Z)) ∧
  (∀ p, (∀ t argv f, snd (git env t argv f) !! p = f !! p) →
        fs (_async_git_ops env cfg url s) !! p = fs s !! p) ∧
  ((ENABLE_STAGE1 cfg = true → GIT_PARALLEL cfg ≠ 0%Z) →
   ∃ s1, dynamic_repo_discovery env cfg s = Done s1).
Proof.
  split_and!.
  - destruct (git_retries_trace env cfg url 3 0 s) as (evs & Htr & Hevs).
    destruct (git_retries_starts env cfg url (seq 0 3) s) as (starts & Hatt & Hlen & Hhead & Hchain).
    exists evs, starts. split_and!; [done|done| |by apply Hhead|done|done|].
    + rewrite Htr, attempts_app in Hatt. by apply app_inv_head in Hatt.
    + intros secs Hin. destruct (retry_schedule_sleeps _ _ _ _ _ _ Hevs Hin) as (j & Hj & ->).
      destruct j as [|[|[|j]]]; [by left|by right; left|by right; right|lia].
  - intros p Hgit. by apply git_retries_path.
  - apply discovery_total.
Qed.

(** ** Stage 1: batches *)

Lemma schedule_of_app evs1 evs2 :
  schedule_of (evs1 ++ evs2) = schedule_of evs1 ++ schedule_of evs2.
Proof. apply omap_app. Qed.

Lemma in_flight_app evs1 evs2 :
  in_flight (evs1 ++ evs2) = (in_flight evs1 + in_flight evs2)%Z.
Proof.
  induction evs1 as [|e evs1 IH]; [done|]. destruct e; cbn [app in_flight]; lia.
Qed.

Lemma in_flight_schedule_of evs : in_flight (schedule_of evs) = in_flight evs.
Proof.
  induction evs as [|e evs IH]; [done|].
  destruct e; unfold schedule_of in *; cbn [omap list_omap in_flight]; lia.
Qed.

Lemma prefix_app_cases {A} (pre l1 l2 : list A) :
  pre `prefix_of` l1 ++ l2 →
  pre `prefix_of` l1 ∨ ∃ pre2, pre = l1 ++ pre2 ∧ pre2 `prefix_of` l2.
Proof.
  revert pre. induction l1 as [|x l1 IH]; intros pre Hpre.
  { right. by exists pre. }
  destruct pre as [|y pre]; [left; apply prefix_nil|].
  pose proof (prefix_cons_inv_1 _ _ _ _ Hpre) as ->.
  apply prefix_cons_inv_2 in Hpre.
  destruct (IH pre Hpre) as [?|(pre2 & -> & ?)].
  - left. by apply prefix_cons.
  - right. by exists pre2.
Qed.

Lemma in_flight_dispatches (urls : list string) :
  in_flight (map EvDispatch urls) = Z.of_nat (length urls).
Proof. induction urls as [|u urls IH]; [done|]. cbn [map in_flight length]. lia. Qed.

Lemma in_flight_completes (urls : list string) :
  in_flight (map EvComplete urls) = (- Z.of_nat (length urls))%Z.
Proof. induction urls as [|u urls IH]; [done|]. cbn [map in_flight length]. lia. Qed.

Lemma prefix_of_map {A B} (g : A → B) (pre : list B) (l : list A) :
  pre `prefix_of` map g l → ∃ l', pre = map g l' ∧ length l' ≤ length l.
Proof.
  intros [k Hk]. exists (take (length pre) l). split.
  - apply (f_equal (take (length pre))) in Hk.
    rewrite take_app_length in Hk. rewrite <- Hk at 1. symmetry. apply fmap_take.
  - rewrite length_take. lia.
Qed.

Lemma in_flight_batch_prefix (batch : list string) pre :
  pre `prefix_of` batch_events batch →
  (0 ≤ in_flight pre ≤ Z.of_nat (length batch))%Z.
Proof.
  intros [Hpre|(pre2 & -> & Hpre)]%prefix_app_cases.
  - apply prefix_of_map in Hpre as (l' & -> & Hlen). rewrite in_flight_dispatches. lia.
  - apply prefix_of_map in Hpre as (l' & -> & Hlen).
    rewrite in_flight_app, in_flight_dispatches, in_flight_completes. lia.
Qed.

Lemma in_flight_batch (batch : list string) : in_flight (batch_events batch) = 0%Z.
Proof.
  unfold batch_events. rewrite in_flight_app, in_flight_dispatches, in_flight_completes. lia.
Qed.

Lemma in_flight_batches_prefix (batches : list (list string)) (bound : Z) pre :
  (∀ b, b ∈ batches → (Z.of_nat (length b) ≤ bound)%Z) →
  pre `prefix_of` concat (map batch_events batches) →
  (0 ≤ in_flight pre ≤ bound)%Z ∨ (pre = [] ∧ batches = []).
Proof.
  revert pre. induction batches as [|b bs IH]; intros pre Hb Hpre.
  { right. split; [by apply prefix_nil_inv in Hpre|done]. }
  left. cbn [map concat] in Hpre.
  apply prefix_app_cases in Hpre as [Hpre|(pre2 & -> & Hpre)].
  - apply in_flight_batch_prefix in Hpre. specialize (Hb b ltac:(by left)). lia.
  - rewrite in_flight_app, in_flight_batch.
    destruct (IH pre2) as [?|[-> _]]; [intros; apply Hb; by right|done|lia|].
    cbn. specialize (Hb b ltac:(by left)). lia.
Qed.

Lemma dispatch_all_trace (batch : list string) s :
  trace (foldl (fun s url => emit (EvDispatch url) s) s batch) = trace s ++ map EvDispatch batch.
Proof.
  revert s. induction batch as [|u batch IH]; intros s; [by rewrite app_nil_r|].
  cbn [foldl map]. rewrite IH. cbn [emit trace]. by rewrite <- app_assoc.
Qed.

Lemma complete_all_trace env cfg (batch : list string) s :
  ∃ evs, trace (foldl (fun s url => emit (EvComplete url) (_async_git_ops env cfg url s)) s batch)
           = trace s ++ evs ∧
         schedule_of evs = map EvComplete batch.
Proof.
  revert s. induction batch as [|u batch IH]; intros s.
  { exists []. by rewrite app_nil_r. }
  cbn [foldl]. edestruct IH as (evs & -> & Hevs).
  destruct (git_retries_trace env cfg u 3 0 s) as (tevs & Htr & Hq).
  exists (tevs ++ EvComplete u :: evs). split.
  - cbn [emit trace]. unfold _async_git_ops. rewrite Htr. by rewrite <- !app_assoc.
  - rewrite schedule_of_app, (retry_schedule_quiet _ _ _ _ _ Hq).
    cbn [app map]. unfold schedule_of in *. cbn [omap list_omap]. by rewrite Hevs.
Qed.

Lemma gather_trace env cfg (batch : list string) s :
  ∃ evs, trace (gather env cfg batch s) = trace s ++ evs ∧
         schedule_of evs = batch_events batch.
Proof.
  unfold gather.
  edestruct (complete_all_trace env cfg batch) as (evs & -> & Hevs).
  rewrite dispatch_all_trace. exists (map EvDispatch batch ++ evs). split.
  - by rewrite <- app_assoc.
  - rewrite schedule_of_app, Hevs. unfold batch_events. f_equal.
    clear. induction batch as [|u batch IH]; [done|].
    unfold schedule_of in *. cbn [map omap list_omap]. by rewrite IH.
Qed.

Lemma gather_all_trace env cfg (batches : list (list string)) s :
  ∃ evs, trace (foldl (fun s batch => gather env cfg batch s) s batches) = trace s ++ evs ∧
         schedule_of evs = concat (map batch_events batches).
Proof.
  revert s. induction batches as [|b bs IH]; intros s.
  { exists []. by rewrite app_nil_r. }
  cbn [foldl]. edestruct IH as (evs & -> & Hevs).
  destruct (gather_trace env cfg b s) as (bevs & -> & Hb).
  exists (bevs ++ evs). split; [by rewrite <- app_assoc|].
  rewrite schedule_of_app, Hb, Hevs. done.
Qed.

(** C8.  With a positive parallelism [P], the sync stage cuts the list of
    sources into consecutive batches of [2 * P], the last one possibly
    shorter; the dispatch and completion events of the stage are those of
    the batches one after the other, every operation of a batch completing
    before the next batch is dispatched, so that at no point of the trace
    more than [2 * P] operations are in flight. *)
Theorem sync_runs_in_batches_of_twice_the_parallelism env cfg s :
  ENABLE_STAGE1 cfg = true → (0 < GIT_PARALLEL cfg)%Z →
  ∃ s1 batches evs,
    dynamic_repo_discovery env cfg s = Done s1 ∧
    trace s1 = trace s ++ evs ∧
    concat batches =
      registry_urls (fs (_update_repo_registry (default [] (github_search env)) s)) ∧
    NoDup (concat batches) ∧
    (∀ b, b ∈ batches → (0 < Z.of_nat (length b) ≤ 2 * GIT_PARALLEL cfg)%Z) ∧
    (∀ i b, batches !! i = Some b → is_Some (batches !! S i) →
       Z.of_nat (length b) = (2 * GIT_PARALLEL cfg)%Z) ∧
    schedule_of evs = concat (map batch_events batches) ∧
    (∀ pre, pre `prefix_of` evs → (0 ≤ in_flight pre ≤ 2 * GIT_PARALLEL cfg)%Z).
Proof.
  intros Hon Hp. unfold dynamic_repo_discovery. rewrite Hon. cbn [negb].
  set (s1 := print (stage_banner 1) s).
  destruct (_fetch_github_repos env s1) as [new_repos s2] eqn:Hfetch.
  assert (Hs2 : new_repos = default [] (github_search env) ∧ fs s2 = fs s ∧
                ∃ evs0, trace s2 = trace s ++ evs0 ∧ schedule_of evs0 = []).
  { unfold _fetch_github_repos in Hfetch.
    destruct (github_search env); injection Hfetch as <- <-; (split_and!; [done..|]).
    - by exists [EvPrint (stage_banner 1)].
    - exists [EvPrint (stage_banner 1); EvPrint api_failure]. split; [|done].
      cbn [print emit trace s1]. by rewrite <- app_assoc. }
  destruct Hs2 as (-> & Hfs2 & evs0 & Htr2 & Hq0).
  set (s3 := _update_repo_registry (default [] (github_search env)) s2).
  set (k := Z.to_nat (GIT_PARALLEL cfg * 2)).
  assert (Hk : 0 < k) by (unfold k; lia).
  unfold Py.range_slices. rewrite decide_False by lia. rewrite decide_False by lia.
  fold k.
  destruct (gather_all_trace env cfg (Py.chunks k (registry_urls (fs s3))) s3)
    as (evs & Htr & Hsched).
  eexists _, (Py.chunks k (registry_urls (fs s3))), (evs0 ++ evs).
  assert (Hbound : ∀ b, b ∈ Py.chunks k (registry_urls (fs s3)) →
            (0 < Z.of_nat (length b) ≤ 2 * GIT_PARALLEL cfg)%Z).
  { intros b Hb. apply chunks_sizes in Hb; [|done]. unfold k in Hb. lia. }
  split_and!; [done| | | |done| | |].
  - rewrite Htr. unfold s3, _update_repo_registry. cbn [set_fs trace].
    rewrite Htr2. by rewrite <- app_assoc.
  - rewrite concat_chunks by done. unfold s3, _update_repo_registry. cbn [set_fs fs].
    by rewrite Hfs2.
  - rewrite concat_chunks by done. unfold registry_urls. apply NoDup_elements.
  - intros i b Hb Hnext. rewrite (chunks_full k _ i b Hk Hb Hnext). unfold k. lia.
  - by rewrite schedule_of_app, Hq0, Hsched.
  - intros pre Hpre. rewrite <- in_flight_schedule_of.
    assert (Hsp : schedule_of pre `prefix_of` concat (map batch_events
                    (Py.chunks k (registry_urls (fs s3))))).
    { destruct Hpre as [rest Hrest]. exists (schedule_of rest).
      rewrite <- Hsched. rewrite <- (app_nil_l (schedule_of evs)), <- Hq0.
      by rewrite <- !schedule_of_app, Hrest. }
    destruct (in_flight_batches_prefix _ (2 * GIT_PARALLEL cfg) _
                (fun b Hb => proj2 (Hbound b Hb)) Hsp) as [?|[-> _]]; [done|cbn; lia].
Qed.

Lemma sync_runs_in_batches_of_twice_the_parallelism_witness :
  ENABLE_STAGE1 one_at_a_time = true ∧ (0 < GIT_PARALLEL one_at_a_time)%Z ∧
  ∃ s1 batches evs,
    dynamic_repo_discovery quiet_env one_at_a_time (mkState registry_fs []) = Done s1 ∧
    trace s1 = [] ++ evs ∧
    (∀ b, b ∈ batches → (0 < Z.of_nat (length b) ≤ 2 * 1)%Z) ∧
    schedule_of evs = concat (map batch_events batches) ∧
    (∀ pre, pre `prefix_of` evs → (0 ≤ in_flight pre ≤ 2 * 1)%Z).
Proof.
  split; [reflexivity|]. split; [reflexivity|].
  destruct (sync_runs_in_batches_of_twice_the_parallelism quiet_env one_at_a_time
              (mkState registry_fs []) eq_refl eq_refl)
    as (s1 & batches & evs & Hrun & Htr & _ & _ & Hsize & _ & Hsched & Hflight).
  exists s1, batches, evs.
  split; [exact Hrun|]. split; [exact Htr|]. split; [exact Hsize|].
  split; [exact Hsched|exact Hflight].
Defined.

Lemma registry_scenario_batches :
  schedule_of (trace (state_of (dynamic_repo_discovery quiet_env one_at_a_time
                                  (mkState registry_fs [])))) =
  batch_events ["https://github.com/o/c.git"; "https://github.com/o/a.git"] ++
  batch_events ["https://github.com/o/b.git"].
Proof. vm_compute. reflexivity. Qed.

(** ** Whole runs *)

Lemma init_workspace_spec env s s0 :
  _init_workspace env s = Done s0 →
  trace s0 = trace s ∧
  ∀ p, fs s0 !! p = if decide (head p = Some TMP_DIR) then None else fs s !! p.
Proof.
  unfold _init_workspace. repeat (destruct (io_fault env _); [done|]).
  intros [= <-]. split; [done|]. intros p. apply rmtree_lookup.
Qed.

Lemma run_stages_done (sig : option nat) stages k s s' :
  run_stages sig k stages s = Done s' →
  ∀ j, sig = Some j → j < k ∨ k + length stages ≤ j.
Proof.
  revert k s. induction stages as [|st rest IH]; intros k s Hrun j Hj.
  - simpl. lia.
  - cbn [run_stages] in Hrun. case_decide as Hk; [done|].
    destruct (st s) as [s1|]; [|done].
    destruct (IH _ _ Hrun j Hj); [|right; simpl; lia].
    destruct (decide (j = k)) as [->|]; [congruence|]. left. lia.
Qed.

Lemma run_stages_calm (sig : option nat) stages k s :
  (∀ j, sig = Some j → j < k ∨ k + length stages ≤ j) →
  run_stages sig k stages s =
    foldl (fun o st => match o with Done s => st s | Crashed e s => Crashed e s end)
          (Done s) stages.
Proof.
  revert k s. induction stages as [|st rest IH]; intros k s Hsig; [done|].
  cbn [run_stages foldl]. rewrite decide_False.
  2:{ intros Hk. destruct (Hsig k Hk); simpl in *; lia. }
  destruct (st s) as [s1|e s1].
  - apply IH. intros j Hj. destruct (Hsig j Hj); simpl in *; lia.
  - clear. induction rest as [|st' rest IH]; [done|]. done.
Qed.

Lemma run_stages_interrupted (k j : nat) stages s si :
  j ≤ k → k - j < length stages →
  run_stages None j (take (k - j) stages) s = Done si →
  run_stages (Some k) j stages s = Crashed KeyboardInterrupt si.
Proof.
  revert j s. induction stages as [|st rest IH]; intros j s Hj Hlen Hrun.
  { simpl in Hlen. lia. }
  cbn [run_stages]. destruct (decide (Some k = Some j)) as [[= ->]|Hne].
  - replace (j - j) with 0 in Hrun by lia. cbn in Hrun. by injection Hrun as ->.
  - assert (j < k) as Hlt.
    { destruct (decide (j = k)) as [->|]; [done|lia]. }
    replace (k - j) with (S (k - S j)) in Hrun by lia.
    cbn [take run_stages] in Hrun. rewrite decide_False in Hrun by done.
    destruct (st s) as [s1|]; [|done].
    apply IH; [lia|simpl in Hlen; lia|done].
Qed.

Lemma normal_run_main env f0 r : normal_run env f0 r → main env f0 = (0%Z, final r).
Proof.
  intros (Hcfg & Hinit & H1 & H2 & H3 & H4 & H5 & H6 & Hsig). unfold main.
  rewrite Hcfg, Hinit. rewrite run_stages_calm.
  2:{ intros j Hj. right. apply Hsig in Hj. simpl. lia. }
  cbn [try_body foldl]. by rewrite H1, H2, H3, H4, H5, H6.
Qed.

Lemma main_normal_run env f0 s' :
  main env f0 = (0%Z, s') → ∃ r, normal_run env f0 r ∧ final r = s'.
Proof.
  unfold main. destruct (_load_config env) as [|cfg] eqn:Hcfg; [done|].
  destruct (_init_workspace env _) as [s0|] eqn:Hinit; [|done].
  destruct (run_stages _ _ _ _) as [s''|e s''] eqn:Hrun; [|by destruct e].
  intros [= <-].
  pose proof (run_stages_done _ _ _ _ _ Hrun) as Hsig.
  rewrite run_stages_calm in Hrun by done. cbn [try_body foldl] in Hrun.
  destruct (dynamic_repo_discovery env cfg s0) as [s1|] eqn:H1; [|done].
  destruct (enterprise_deduplication env s1) as [s2|] eqn:H2; [|done].
  destruct (dynamic_categorization env s2) as [s3|] eqn:H3; [|done].
  destruct (enterprise_validation env s3) as [s4|] eqn:H4; [|done].
  destruct (generate_index s4) as [s5|] eqn:H5; [|done].
  destruct (print_total s5) as [s6|] eqn:H6; [|done].
  injection Hrun as <-.
  exists (mkRun cfg s0 s1 s2 s3 s4 s5 s6). split; [|done].
  unfold normal_run. cbn. split_and!; try done.
  intros k Hk. destruct (Hsig k Hk) as [?|?]; simpl in *; lia.
Qed.

Lemma calm_normal_run env f0 :
  calm env → fair_scheduling env → ∃ r, normal_run env f0 r.
Proof.
  intros ((cfg & Hcfg & Hp) & Hmk & Hhash & Hsig) Hfair.
  assert (∃ s0, _init_workspace env (mkState f0 []) = Done s0) as [s0 H0].
  { unfold _init_workspace. rewrite !Hmk. by eexists. }
  destruct (discovery_total env cfg s0 Hp) as [s1 H1].
  destruct (enterprise_deduplication_total env s1 (Hfair Dedup) (Hhash Dedup)) as [s2 H2].
  destruct (dynamic_categorization_total env s2 (Hhash Seed)) as [s3 H3].
  destruct (enterprise_validation_spec env s3) as (s4 & H4 & _).
  eexists (mkRun cfg s0 s1 s2 s3 s4 _ _). unfold normal_run. cbn.
  split_and!; try done. intros k Hk. congruence.
Qed.

Section regions.
Context (env : Env) (f0 : FS) (r : Run).
Hypothesis (Hfair : fair_scheduling env) (Hgit : git_confined env).
Hypothesis (Hrun : normal_run env f0 r).

Lemma run_staging_empty p :
  head p = Some TMP_DIR → fs (after_dedup r) !! p = None.
Proof using Hfair Hgit Hrun.
  destruct Hrun as (_ & Hinit & H1 & H2 & _). intros Hp.
  assert (Hne : head p ≠ Some CLONE_DIR) by (rewrite Hp; by intros [= ?]).
  rewrite (dedup_frame env _ _ p Hfair H2 Hne).
  rewrite (discovery_frame env _ _ _ p Hgit H1 Hne).
  2:{ intros ->. by injection Hp. }
  apply init_workspace_spec in Hinit as [_ ->]. by rewrite decide_True.
Qed.

Lemma run_corpus_before p :
  head p = Some POC_DIR → fs (after_dedup r) !! p = f0 !! p.
Proof using Hfair Hgit Hrun.
  destruct Hrun as (_ & Hinit & H1 & H2 & _). intros Hp.
  assert (Hne : head p ≠ Some CLONE_DIR) by (rewrite Hp; by intros [= ?]).
  rewrite (dedup_frame env _ _ p Hfair H2 Hne).
  rewrite (discovery_frame env _ _ _ p Hgit H1 Hne).
  2:{ intros ->. by injection Hp. }
  apply init_workspace_spec in Hinit as [_ ->]. rewrite decide_False; [done|].
  rewrite Hp. by intros [= ?].
Qed.

Lemma run_final_lookup p :
  p ≠ [INDEX_FILE] → fs (final r) !! p = fs (after_migration r) !! p.
Proof using Hrun.
  destruct Hrun as (_ & _ & _ & _ & _ & _ & H5 & H6 & _). intros Hp.
  injection H6 as <-. injection H5 as <-. cbn [print emit set_fs fs].
  by rewrite lookup_insert_ne.
Qed.

Lemma run_fresh c : fresh env (fs (after_dedup r)) c ↔ fresh env f0 c.
Proof using Hfair Hgit Hrun.
  unfold fresh. split; intros H q c' Hq Hc'; apply (H q c' Hq).
  - rewrite run_corpus_before; [done|by apply under_head].
  - rewrite <- run_corpus_before; [done|by apply under_head].
Qed.

End regions.

Section origin.
Context (env : Env) (f0 : FS) (r : Run).
Hypothesis (Hfair : fair_scheduling env) (Hgit : git_confined env).
Hypothesis (Hrun : normal_run env f0 r).

Lemma run_validation :
  (∀ rest, fs (after_migration r) !! (POC_DIR :: rest) =
     if decide (migrates env (fs (after_categorization r)) rest)
     then fs (after_categorization r) !! (TMP_DIR :: rest)
     else fs (after_categorization r) !! (POC_DIR :: rest)) ∧
  (∀ rest, rest ≠ [] →
     fs (after_migration r) !! (TMP_DIR :: rest) =
     if decide (accepted env (TMP_DIR :: rest) (fs (after_categorization r) !! (TMP_DIR :: rest))
                ∧ ¬ movable env rest)
     then fs (after_categorization r) !! (TMP_DIR :: rest) else None) ∧
  (∀ q, ¬ under TMP_DIR q → head q ≠ Some POC_DIR →
     fs (after_migration r) !! q = fs (after_categorization r) !! q).
Proof using Hrun.
  destruct Hrun as (_ & _ & _ & _ & _ & H4 & _).
  destruct (enterprise_validation_spec env (after_categorization r)) as (s4 & H4' & V1 & V2 & V3 & _).
  rewrite H4 in H4'. injection H4' as <-. done.
Qed.

Lemma run_categorization :
  (∀ q, head q ≠ Some TMP_DIR → fs (after_categorization r) !! q = fs (after_dedup r) !! q) ∧
  (∀ q c, fs (after_categorization r) !! q = Some c → head q = Some TMP_DIR →
     ∃ rf t, rf ∈ candidates (fs (after_dedup r)) ∧
       fs (after_dedup r) !! os_path_join rf = Some c ∧
       fresh env f0 c ∧ t ∈ staged_tags env c ∧ q = [TMP_DIR; t; snd rf]) ∧
  (copies_work env →
   ∀ rf c t, rf ∈ candidates (fs (after_dedup r)) →
     fs (after_dedup r) !! os_path_join rf = Some c →
     fresh env f0 c → t ∈ staged_tags env c →
     (∀ rf' c', rf' ∈ candidates (fs (after_dedup r)) → snd rf' = snd rf →
        fs (after_dedup r) !! os_path_join rf' = Some c' → fresh env f0 c' →
        t ∈ staged_tags env c' → c' = c) →
     fs (after_categorization r) !! [TMP_DIR; t; snd rf] = Some c).
Proof using Hfair Hgit Hrun.
  pose proof Hrun as (_ & _ & _ & _ & H3 & _).
  destruct (dynamic_categorization_spec env _ _ (Hfair Categorize) H3) as (K1 & K2 & K3 & _).
  split_and!; [done| |].
  - intros q c Hq Hh. destruct (K2 q c Hq) as [Hold|(rf & t & ? & ? & ? & ? & ?)].
    + rewrite (run_staging_empty env f0 r) in Hold; done.
    + exists rf, t. split_and!; try done. by apply (run_fresh env f0 r).
  - intros Hw rf c t Hrf Hc Hfr Ht Hclash. apply K3; try done.
    + by apply (run_fresh env f0 r).
    + intros rf' c' ? ? ? Hfr' ?. apply (Hclash rf' c'); try done.
      by apply (run_fresh env f0 r) in Hfr'.
Qed.

(** A file of the final corpus was there before the run, untouched, or
    is the accepted staged copy of a fresh candidate under one of its tags. *)
Lemma corpus_file_origin p c :
  under POC_DIR p → fs (final r) !! p = Some c →
  f0 !! p = Some c ∨
  ∃ rf t, rf ∈ candidates (fs (after_dedup r)) ∧
    fs (after_dedup r) !! os_path_join rf = Some c ∧ fresh env f0 c ∧
    t ∈ staged_tags env c ∧ p = [POC_DIR; t; snd rf] ∧
    accepted env [TMP_DIR; t; snd rf] (Some c).
Proof using Hfair Hgit Hrun.
  intros Hp Hc. pose proof Hp as (rest & -> & Hne)%under_cons.
  rewrite (run_final_lookup env f0 r Hrun) in Hc by (by intros [= ?]).
  destruct run_validation as (V1 & _). destruct run_categorization as (K1 & K2 & _).
  rewrite V1 in Hc. destruct (decide (migrates env _ rest)) as [(_ & _ & Ha & _)|_].
  - right. destruct (K2 _ _ Hc eq_refl) as (rf & t & ? & ? & ? & ? & [= ->]).
    exists rf, t. split_and!; try done. by rewrite Hc in Ha.
  - left. rewrite K1 in Hc by (by intros [= ?]).
    by rewrite (run_corpus_before env f0 r) in Hc.
Qed.

End origin.

Lemma quiet_fair : fair_scheduling quiet_env.
Proof. by intros st A l. Defined.

Lemma quiet_confined : git_confined quiet_env.
Proof. by intros t argv f p _. Defined.

Lemma quiet_fault_free : fault_free quiet_env.
Proof. by intros op. Defined.

Ltac run_by_computation :=
  unfold normal_run; split_and!;
  [vm_compute; reflexivity.. | intros k; vm_compute; intros Hk; discriminate Hk].

Lemma two_tag_run : normal_run quiet_env two_tag_fs (trace_run quiet_env two_tag_fs).
Proof. run_by_computation. Defined.

Lemma two_tag_candidates :
  candidates (fs (after_dedup (trace_run quiet_env two_tag_fs)))
  = [(["clone-templates"; "r"], "x.yaml")].
Proof. vm_compute. reflexivity. Qed.

Lemma notes_run : normal_run quiet_env notes_fs (trace_run quiet_env notes_fs).
Proof. run_by_computation. Defined.

(** ** The corpus after a run *)

(** C1, as stated, fails: both migrated copies of a two-tag rule have
    the same fingerprint. *)
Lemma fan_out_duplicates_fingerprint :
  fst (main quiet_env two_tag_fs) = 0%Z ∧
  fingerprint quiet_env (fs (snd (main quiet_env two_tag_fs))) ["poc"; "a"; "x.yaml"]
    = Some "a,b:x" ∧
  fingerprint quiet_env (fs (snd (main quiet_env two_tag_fs))) ["poc"; "b"; "x.yaml"]
    = Some "a,b:x".
Proof. vm_compute. done. Qed.

Lemma staged_tags_of_list env c doc info ts :
  safe_load env c = Some doc →
  Yaml.get doc "info" (Yaml.Dict []) = Some info →
  Yaml.get info "tags" (Yaml.List []) = Some (Yaml.List (map Yaml.Str ts)) →
  staged_tags env c = map Py.lower ts.
Proof.
  intros Hdoc Hinfo Htags. unfold staged_tags, declared_tags.
  rewrite Hdoc. cbn [mbind option_bind]. rewrite Hinfo. cbn [mbind option_bind].
  rewrite Htags. cbn [mbind option_bind Yaml.iter]. apply routed_strings.
Qed.

Lemma two_tag_plain : plain_routes quiet_env (trace_run quiet_env two_tag_fs).
Proof.
  intros rf c t Hrf Hc Ht. rewrite two_tag_candidates in Hrf.
  apply list_elem_of_singleton in Hrf as ->.
  assert (Hc' : c = "a,b:x") by (vm_compute in Hc; by injection Hc).
  rewrite Hc' in Ht.
  assert (Hst : staged_tags quiet_env "a,b:x" = ["a"; "b"]) by (vm_compute; reflexivity).
  rewrite Hst in Ht.
  apply elem_of_cons in Ht as [->|Ht]; [|apply list_elem_of_singleton in Ht as ->];
    apply (bool_decide_unpack _); vm_compute; exact I.
Defined.

(** C1, amended.  After the Migrator stage of a run that completes, two
    distinct files of the corpus have the same fingerprint only if both
    were in the corpus before the run and are untouched, or if both hold
    the content of one candidate file that the Categorizer routed to two
    different tag directories, where they lie under the candidate's file
    name; for a candidate whose tags are a list of strings these are two
    tags of the list that differ once lower-cased.  Within one tag
    directory the run adds no two files with one fingerprint.  Tags are
    taken to be plain directory names. *)
Theorem corpus_duplicates_only_by_fan_out env f0 r :
  fair_scheduling env → git_confined env → plain_routes env r → normal_run env f0 r →
  (∀ p1 p2 h, p1 ≠ p2 → under POC_DIR p1 → under POC_DIR p2 →
     fingerprint env (fs (final r)) p1 = Some h →
     fingerprint env (fs (final r)) p2 = Some h →
     (fs (final r) !! p1 = f0 !! p1 ∧ fs (final r) !! p2 = f0 !! p2) ∨
     (∃ rf c t1 t2, rf ∈ candidates (fs (after_dedup r)) ∧
        fs (after_dedup r) !! os_path_join rf = Some c ∧
        fs (final r) !! p1 = Some c ∧ fs (final r) !! p2 = Some c ∧
        t1 ∈ staged_tags env c ∧ t2 ∈ staged_tags env c ∧ t1 ≠ t2 ∧
        p1 = [POC_DIR; t1; snd rf] ∧ p2 = [POC_DIR; t2; snd rf])) ∧
  (∀ c doc info ts,
     safe_load env c = Some doc → Yaml.get doc "info" (Yaml.Dict []) = Some info →
     Yaml.get info "tags" (Yaml.List []) = Some (Yaml.List (map Yaml.Str ts)) →
     staged_tags env c = map Py.lower ts).
Proof.
  intros Hfair Hgit _ Hrun. split.
  2:{ intros c doc info ts. apply staged_tags_of_list. }
  intros p1 p2 h Hne Hp1 Hp2 Hf1 Hf2.
  unfold fingerprint in Hf1, Hf2.
  destruct (fs (final r) !! p1) as [c1|] eqn:Hc1; [|done].
  destruct (fs (final r) !! p2) as [c2|] eqn:Hc2; [|done].
  injection Hf1 as Hh1. injection Hf2 as Hh2.
  destruct (corpus_file_origin env f0 r Hfair Hgit Hrun p1 c1 Hp1 Hc1)
    as [Ho1|(rf1 & t1 & Hrf1 & Hs1 & Hfr1 & Ht1 & Hq1 & _)];
  destruct (corpus_file_origin env f0 r Hfair Hgit Hrun p2 c2 Hp2 Hc2)
    as [Ho2|(rf2 & t2 & Hrf2 & Hs2 & Hfr2 & Ht2 & Hq2 & _)].
  - left. by rewrite Ho1, Ho2.
  - exfalso. apply (Hfr2 p1 c1 Hp1 Ho1). congruence.
  - exfalso. apply (Hfr1 p2 c2 Hp2 Ho2). congruence.
  - right. pose proof Hrun as (_ & _ & _ & H2 & _).
    destruct (dedup_properties env _ _ (Hfair Dedup) H2) as (Huniq & _).
    assert (rf1 = rf2) as <-.
    { apply (Huniq rf1 rf2 h); try done; unfold fingerprint.
      - by rewrite Hs1; cbn; rewrite Hh1.
      - by rewrite Hs2; cbn; rewrite Hh2. }
    assert (c2 = c1) as -> by congruence.
    exists rf1, c1, t1, t2. split_and!; try done. intros ->. apply Hne. by rewrite Hq1, Hq2.
Qed.

Lemma corpus_duplicates_only_by_fan_out_witness :
  fair_scheduling quiet_env ∧ git_confined quiet_env ∧
  plain_routes quiet_env (trace_run quiet_env two_tag_fs) ∧
  normal_run quiet_env two_tag_fs (trace_run quiet_env two_tag_fs) ∧
  ∃ rf c t1 t2,
    rf ∈ candidates (fs (after_dedup (trace_run quiet_env two_tag_fs))) ∧
    fs (final (trace_run quiet_env two_tag_fs)) !! [POC_DIR; "a"; "x.yaml"] = Some c ∧
    fs (final (trace_run quiet_env two_tag_fs)) !! [POC_DIR; "b"; "x.yaml"] = Some c ∧
    t1 ∈ staged_tags quiet_env c ∧ t2 ∈ staged_tags quiet_env c ∧ t1 ≠ t2 ∧
    [POC_DIR; "a"; "x.yaml"] = [POC_DIR; t1; snd rf] ∧
    [POC_DIR; "b"; "x.yaml"] = [POC_DIR; t2; snd rf].
Proof.
  split; [exact quiet_fair|]. split; [exact quiet_confined|]. split; [exact two_tag_plain|].
  split; [exact two_tag_run|].
  destruct (corpus_duplicates_only_by_fan_out quiet_env two_tag_fs _
              quiet_fair quiet_confined two_tag_plain two_tag_run) as [Hdup _].
  destruct (Hdup [POC_DIR; "a"; "x.yaml"] [POC_DIR; "b"; "x.yaml"] "a,b:x")
    as [[Hold _]|(rf & c & t1 & t2 & Hrf & _ & H1 & H2 & Ht1 & Ht2 & Hne & Hp1 & Hp2)].
  - intros Heq. discriminate Heq.
  - reflexivity.
  - reflexivity.
  - vm_compute. reflexivity.
  - vm_compute. reflexivity.
  - exfalso. vm_compute in Hold. discriminate Hold.
  - exists rf, c, t1, t2. split_and!; assumption.
Defined.

(** C2, as stated, fails.  Of two candidates with one file name and the
    tags [a] and [b], in a run whose checker accepts everything, the one
    copied first is overwritten in the staging directory: the corpus holds
    the other one under [a] and [b], and nothing else. *)
Lemma two_tag_rule_misses_its_directories :
  fst (main quiet_env clash_fs) = 0%Z ∧
  declared_tags quiet_env "a,b:two" = Some [Yaml.Str "a"; Yaml.Str "b"] ∧
  fs (snd (main quiet_env clash_fs)) !! ["clone-templates"; "r2"; "x.yaml"] = Some "a,b:two" ∧
  fs (snd (main quiet_env clash_fs)) !! ["poc"; "a"; "x.yaml"] = Some "a,b:one" ∧
  fs (snd (main quiet_env clash_fs)) !! ["poc"; "b"; "x.yaml"] = Some "a,b:one" ∧
  size (subtree POC_DIR (fs (snd (main quiet_env clash_fs)))) = 2.
Proof. vm_compute. split_and!; done. Qed.

(** C2, amended.  In a run without file-operation failures, take a
    candidate file that survives deduplication.  When its tags are a list
    of strings [ts] and its fingerprint is not in the corpus yet, then for
    every tag [t] of [ts] to which no other such candidate of the same file
    name is routed and whose staged copy the checker accepts, the final
    corpus holds the candidate's content at [POC_DIR/lower(t)/file]; and
    whatever else happened, a staged copy of the candidate that the checker
    accepts is in the final corpus under its tag directory.  A candidate
    that declares no tag, one without a [tags] entry or with an empty one,
    leaves the file system as it is, no staged file has its content, and
    the corpus holds its content only where it already did before the run.
    Tags are taken to be plain directory names. *)
Theorem fan_out_lands_under_every_tag env f0 r :
  fair_scheduling env → git_confined env → fault_free env → plain_routes env r →
  normal_run env f0 r →
  ∀ rf c, rf ∈ candidates (fs (after_dedup r)) →
    fs (after_dedup r) !! os_path_join rf = Some c →
    (∀ doc info ts,
       safe_load env c = Some doc → Yaml.get doc "info" (Yaml.Dict []) = Some info →
       Yaml.get info "tags" (Yaml.List []) = Some (Yaml.List (map Yaml.Str ts)) →
       fresh env f0 c →
       ∀ t, t ∈ ts →
         (∀ rf' c', rf' ∈ candidates (fs (after_dedup r)) → snd rf' = snd rf →
            fs (after_dedup r) !! os_path_join rf' = Some c' → fresh env f0 c' →
            Py.lower t ∈ staged_tags env c' → rf' = rf) →
         accepted env [TMP_DIR; Py.lower t; snd rf] (Some c) →
         fs (final r) !! [POC_DIR; Py.lower t; snd rf] = Some c) ∧
    (∀ t, fs (after_categorization r) !! [TMP_DIR; t; snd rf] = Some c →
       accepted env [TMP_DIR; t; snd rf] (Some c) →
       fs (final r) !! [POC_DIR; t; snd rf] = Some c) ∧
    (declared_tags env c = Some [] →
       (∀ known f, f !! os_path_join rf = Some c → _process_poc env known f rf = f) ∧
       (∀ q, head q = Some TMP_DIR → fs (after_categorization r) !! q ≠ Some c) ∧
       (∀ q, under POC_DIR q → fs (final r) !! q = Some c → f0 !! q = Some c)).
Proof.
  intros Hfair Hgit Hff _ Hrun rf c Hrf Hc.
  destruct (run_categorization env f0 r Hfair Hgit Hrun) as (K1 & K2 & K3).
  destruct (run_validation env f0 r Hrun) as (V1 & _).
  assert (Hmove : ∀ t, fs (after_categorization r) !! [TMP_DIR; t; snd rf] = Some c →
            accepted env [TMP_DIR; t; snd rf] (Some c) →
            fs (final r) !! [POC_DIR; t; snd rf] = Some c).
  { intros t Hstaged Hacc.
    rewrite (run_final_lookup env f0 r Hrun) by (by intros [= ?]).
    rewrite V1, decide_True; [done|].
    unfold migrates. rewrite Hstaged. split_and!; [done|by eauto|done|].
    split; apply Hff. }
  split_and!; [|exact Hmove|].
  - intros doc info ts Hdoc Hinfo Htags Hfresh t Ht Hclash Hacc.
    assert (Hst : Py.lower t ∈ staged_tags env c).
    { rewrite (staged_tags_of_list env c doc info ts Hdoc Hinfo Htags).
      by apply list_elem_of_fmap_2. }
    assert (Hstaged : fs (after_categorization r) !! [TMP_DIR; Py.lower t; snd rf] = Some c).
    { apply K3; [|exact Hrf|exact Hc|exact Hfresh|exact Hst|].
      - split_and!; intros; apply Hff.
      - intros rf' c' Hrf' Hname Hc' Hfr' Ht'.
        assert (rf' = rf) as -> by (by apply (Hclash rf' c')). congruence. }
    by apply Hmove.
  - intros Htags. split_and!.
    + intros known f Hf. unfold _process_poc.
      destruct (_calculate_sha256 env Categorize f (os_path_join rf)) as [|[p h]]; [done|].
      case_decide; [done|]. rewrite Hf, Htags. done.
    + intros q Hq Hstaged. destruct (K2 q c Hstaged Hq) as (rf' & t & _ & _ & _ & Ht & _).
      unfold staged_tags in Ht. rewrite Htags in Ht. by apply elem_of_nil in Ht.
    + intros q Hq Hfin.
      destruct (corpus_file_origin env f0 r Hfair Hgit Hrun q c Hq Hfin)
        as [?|(rf' & t & _ & _ & _ & Ht & _)]; [done|].
      unfold staged_tags in Ht. rewrite Htags in Ht. by apply elem_of_nil in Ht.
Qed.

Lemma fan_out_lands_under_every_tag_witness :
  fair_scheduling quiet_env ∧ git_confined quiet_env ∧ fault_free quiet_env ∧
  plain_routes quiet_env (trace_run quiet_env two_tag_fs) ∧
  normal_run quiet_env two_tag_fs (trace_run quiet_env two_tag_fs) ∧
  fs (final (trace_run quiet_env two_tag_fs)) !! [POC_DIR; "a"; "x.yaml"] = Some "a,b:x" ∧
  fs (final (trace_run quiet_env two_tag_fs)) !! [POC_DIR; "b"; "x.yaml"] = Some "a,b:x".
Proof.
  split; [exact quiet_fair|]. split; [exact quiet_confined|].
  split; [exact quiet_fault_free|]. split; [exact two_tag_plain|]. split; [exact two_tag_run|].
  assert (Hrf : (["clone-templates"; "r"], "x.yaml")
                ∈ candidates (fs (after_dedup (trace_run quiet_env two_tag_fs)))).
  { rewrite two_tag_candidates. apply list_elem_of_here. }
  assert (Hc : fs (after_dedup (trace_run quiet_env two_tag_fs))
               !! os_path_join (["clone-templates"; "r"], "x.yaml") = Some "a,b:x").
  { vm_compute. reflexivity. }
  destruct (fan_out_lands_under_every_tag quiet_env two_tag_fs _
              quiet_fair quiet_confined quiet_fault_free two_tag_plain two_tag_run
              _ _ Hrf Hc) as [Htags _].
  assert (Hfresh : fresh quiet_env two_tag_fs "a,b:x").
  { apply fresh_without_corpus. vm_compute. reflexivity. }
  assert (Halone : ∀ rf' : path * string,
            rf' ∈ candidates (fs (after_dedup (trace_run quiet_env two_tag_fs))) →
            rf' = (["clone-templates"; "r"], "x.yaml")).
  { intros rf'. rewrite two_tag_candidates. apply list_elem_of_singleton. }
  split.
  - apply (Htags _ _ ["a"; "b"] eq_refl eq_refl eq_refl Hfresh "a").
    + apply list_elem_of_here.
    + intros rf' c' Hrf' _ _ _ _. by apply Halone.
    + reflexivity.
  - apply (Htags _ _ ["a"; "b"] eq_refl eq_refl eq_refl Hfresh "b").
    + apply list_elem_of_further, list_elem_of_here.
    + intros rf' c' Hrf' _ _ _ _. by apply Halone.
    + reflexivity.
Defined.

(** C5, as stated, fails: a corpus file that is not a rule file is
    counted but not indexed. *)
Lemma index_omits_other_files :
  fst (main quiet_env notes_fs) = 0%Z ∧
  fs (snd (main quiet_env notes_fs)) !! ["poc"; "misc"; "notes.txt"] = Some "hello" ∧
  fs (snd (main quiet_env notes_fs)) !! [INDEX_FILE] = Some EmptyString ∧
  last (stdout (snd (main quiet_env notes_fs))) = Some (valid_total 1).
Proof. vm_compute. done. Qed.

(** C5, amended.  At the end of every run that completes normally the
    index file holds exactly one line, the corpus-relative path, for every
    file of the corpus whose name ends in [.yml] or [.yaml], each such file
    once and no other line; files of the corpus with another extension are
    not listed.  The last line printed is the total, the number of all
    files in the corpus. *)
Theorem index_lists_every_rule_file env f0 r :
  normal_run env f0 r →
  main env f0 = (0%Z, final r) ∧
  (∃ listing,
     fs (final r) !! [INDEX_FILE] = Some (String.concat EmptyString (map index_line listing)) ∧
     NoDup listing ∧
     ∀ root file, (root, file) ∈ listing ↔
       head root = Some POC_DIR ∧ is_Some (fs (final r) !! (root ++ [file])) ∧
       is_rule_file file = true) ∧
  last (stdout (final r)) = Some (valid_total (size (subtree POC_DIR (fs (final r))))).
Proof.
  intros Hrun. split; [by apply normal_run_main|].
  destruct Hrun as (_ & _ & _ & _ & _ & _ & H5 & H6 & _).
  injection H6 as <-. injection H5 as <-.
  set (s4 := after_migration r).
  assert (Hwalk : walk POC_DIR (<[ [INDEX_FILE] := index_text (fs s4) ]> (fs s4))
                  = walk POC_DIR (fs s4)).
  { apply walk_ext. intros p Hp. apply lookup_insert_ne. intros <-. done. }
  split.
  - exists (rule_files (walk POC_DIR (fs s4))). cbn [print emit set_fs fs]. split_and!.
    + by rewrite lookup_insert_eq.
    + apply NoDup_filter, NoDup_walk.
    + intros root file. unfold rule_files. rewrite list_elem_of_filter.
      rewrite <- Hwalk, elem_of_walk. cbn. tauto.
  - rewrite stdout_print, last_snoc. cbn [set_fs fs]. by rewrite length_walk.
Qed.

Lemma index_lists_every_rule_file_witness :
  normal_run quiet_env notes_fs (trace_run quiet_env notes_fs) ∧
  main quiet_env notes_fs = (0%Z, final (trace_run quiet_env notes_fs)) ∧
  last (stdout (final (trace_run quiet_env notes_fs)))
    = Some (valid_total (size (subtree POC_DIR (fs (final (trace_run quiet_env notes_fs)))))).
Proof.
  split; [exact notes_run|].
  destruct (index_lists_every_rule_file quiet_env notes_fs _ notes_run) as (Hmain & _ & Htotal).
  split; [exact Hmain|exact Htotal].
Defined.

(** ** Interrupts and failures *)

(** C6.  When the try block of the script ends with the interrupt, the
    process exits with status 1 after the handler has removed every file
    below the staging directory and nothing else: every path outside it,
    in the corpus and in the working copies, is as the interrupt found it.
    A run that completes exits with status 0, and an interrupt that
    arrives after [k < 6] completed statements does end the try block.
    The handler does the same on any state it is entered in. *)
Theorem interrupt_discards_staging_only env f0 cfg s0 :
  _load_config env = inr cfg →
  _init_workspace env (mkState f0 []) = Done s0 →
  match run_stages (sigint env) 0 (try_body env cfg) s0 with
  | Done s' => main env f0 = (0%Z, s')
  | Crashed KeyboardInterrupt si =>
      ∃ s', main env f0 = (1%Z, s') ∧ on_keyboard_interrupt si = (1%Z, s') ∧
        (∀ p, head p = Some TMP_DIR → fs s' !! p = None) ∧
        (∀ p, head p ≠ Some TMP_DIR → fs s' !! p = fs si !! p) ∧
        trace s' = trace si
  | Crashed _ si => main env f0 = (1%Z, si)
  end ∧
  (∀ k si, sigint env = Some k → k < 6 →
     run_stages None 0 (take k (try_body env cfg)) s0 = Done si →
     run_stages (sigint env) 0 (try_body env cfg) s0 = Crashed KeyboardInterrupt si) ∧
  (∀ s, fst (on_keyboard_interrupt s) = 1%Z ∧
     (∀ p, head p = Some TMP_DIR → fs (snd (on_keyboard_interrupt s)) !! p = None) ∧
     (∀ p, head p ≠ Some TMP_DIR → fs (snd (on_keyboard_interrupt s)) !! p = fs s !! p)).
Proof.
  intros Hcfg Hinit. split_and!.
  - unfold main. rewrite Hcfg, Hinit.
    destruct (run_stages (sigint env) 0 (try_body env cfg) s0) as [s'|e si]; [done|].
    destruct e; try done.
    eexists. split_and!; [done|done| | |done].
    + intros p Hp. cbn [set_fs fs]. rewrite rmtree_lookup. by rewrite decide_True.
    + intros p Hp. cbn [set_fs fs]. rewrite rmtree_lookup. by rewrite decide_False.
  - intros k si -> Hk Hrun. apply run_stages_interrupted; [lia|simpl; lia|].
    by rewrite Nat.sub_0_r.
  - intros s. cbn [on_keyboard_interrupt fst snd set_fs fs]. split_and!; [done| |].
    + intros p Hp. rewrite rmtree_lookup. by rewrite decide_True.
    + intros p Hp. rewrite rmtree_lookup. by rewrite decide_False.
Qed.

Lemma interrupt_discards_staging_only_witness :
  _load_config (interrupted_env 3) = inr (run_cfg (trace_run quiet_env two_tag_fs)) ∧
  _init_workspace (interrupted_env 3) (mkState two_tag_fs [])
    = Done (after_init (trace_run quiet_env two_tag_fs)) ∧
  is_Some (fs (after_categorization (trace_run quiet_env two_tag_fs))
             !! [TMP_DIR; "a"; "x.yaml"]) ∧
  ∃ s', main (interrupted_env 3) two_tag_fs = (1%Z, s') ∧
    (∀ p, head p = Some TMP_DIR → fs s' !! p = None) ∧
    (∀ p, head p ≠ Some TMP_DIR →
       fs s' !! p = fs (after_categorization (trace_run quiet_env two_tag_fs)) !! p).
Proof.
  assert (H1 : _load_config (interrupted_env 3) = inr (run_cfg (trace_run quiet_env two_tag_fs))).
  { vm_compute. reflexivity. }
  assert (H2 : _init_workspace (interrupted_env 3) (mkState two_tag_fs [])
               = Done (after_init (trace_run quiet_env two_tag_fs))).
  { vm_compute. reflexivity. }
  split; [exact H1|]. split; [exact H2|].
  split; [vm_compute; eexists; reflexivity|].
  destruct (interrupt_discards_staging_only (interrupted_env 3) two_tag_fs _ _ H1 H2)
    as [Hmatch _].
  assert (Hrs : run_stages (sigint (interrupted_env 3)) 0
                  (try_body (interrupted_env 3) (run_cfg (trace_run quiet_env two_tag_fs)))
                  (after_init (trace_run quiet_env two_tag_fs))
                = Crashed KeyboardInterrupt (after_categorization (trace_run quiet_env two_tag_fs))).
  { vm_compute. reflexivity. }
  rewrite Hrs in Hmatch. destruct Hmatch as (s' & Hmain & _ & Hgone & Hkept & _).
  exists s'. split; [exact Hmain|]. split; [exact Hgone|exact Hkept].
Defined.

(** C9, as stated, fails: a failed copy leaves no line in the output. *)
Lemma failed_copy_is_not_logged :
  fst (main (with_io_fault copy_fails quiet_env) two_tag_fs) = 0%Z ∧
  fs (snd (main (with_io_fault copy_fails quiet_env) two_tag_fs)) !! ["poc"; "a"; "x.yaml"] = None ∧
  stdout (snd (main (with_io_fault copy_fails quiet_env) two_tag_fs)) =
    [stage1_skipped; stage_banner 2; stage_banner 3; stage_banner 4; valid_total 0].
Proof. vm_compute. done. Qed.

Lemma dedup_hash_failure_aborts :
  fst (main (with_io_fault dedup_hash_fails quiet_env) two_tag_fs) = 1%Z ∧
  stdout (snd (main (with_io_fault dedup_hash_fails quiet_env) two_tag_fs)) =
    [stage1_skipped; stage_banner 2].
Proof. vm_compute. done. Qed.

(** C9, amended.  A copy that fails, a hash that fails inside a Categorizer
    worker and a move that fails are dropped without a trace: the file
    system stays as it was for that file, nothing is raised, and nothing
    is printed.  Whatever copies and moves fail, categorisation (once the
    corpus has been hashed) and validation with migration complete and
    print only their banner and progress lines.  A configuration that
    does not load and a core directory that cannot be made end the run
    with status 1 before any stage starts. *)
Theorem file_failures_are_dropped_silently env :
  (∀ src dst f, io_fault env (op_copy src dst) = true → submit_copy env src dst f = f) ∧
  (∀ known f rf, io_fault env (op_hash Categorize (os_path_join rf)) = true →
     _process_poc env known f rf = f) ∧
  (∀ f rf,
     io_fault env (op_move (os_path_join rf) (POC_DIR :: relpath (os_path_join rf) TMP_DIR)) = true →
     migrate_one env f rf = f) ∧
  (∀ s, (∀ p, io_fault env (op_hash Seed p) = false) → fair_scheduling env →
     ∃ s3, dynamic_categorization env s = Done s3 ∧
       stdout s3 = stdout s ++ stage_banner 3 ::
         map (fun k => progress (50 * k) (length (candidates (fs s))))
             (seq 1 (length (candidates (fs s)) / 50))) ∧
  (∀ s, ∃ s4, enterprise_validation env s = Done s4 ∧ stdout s4 = stdout s ++ [stage_banner 4]) ∧
  (∀ f0, json_load env = None ∨ io_fault env (op_makedirs [CLONE_DIR]) = true ∨
         io_fault env (op_makedirs [POC_DIR]) = true ∨
         io_fault env (op_makedirs [TMP_DIR]) = true →
     fst (main env f0) = 1%Z ∧ trace (snd (main env f0)) = []).
Proof.
  split_and!.
  - intros src dst f Hio. unfold submit_copy. by rewrite Hio.
  - intros known f rf Hio. unfold _process_poc, _calculate_sha256. by rewrite Hio.
  - intros f rf Hio. unfold migrate_one, _safe_move. rewrite Hio.
    by destruct (io_fault env (op_makedirs _)).
  - intros s Hseed Hfair. destruct (dynamic_categorization_total env s Hseed) as [s3 H3].
    exists s3. split; [done|].
    destruct (dynamic_categorization_spec env s s3 (Hfair Categorize) H3) as (_ & _ & _ & Htr).
    unfold stdout at 1. rewrite Htr, omap_app. cbn [omap list_omap]. by rewrite stdout_progress_lines.
  - intros s. destruct (enterprise_validation_spec env s) as (s4 & H4 & _ & _ & _ & Hout & _). eauto.
  - intros f0 Hfail. unfold main, _load_config.
    destruct (json_load env) as [raw|]; [|done].
    unfold _init_workspace.
    destruct (io_fault env (op_makedirs [CLONE_DIR])); [done|].
    destruct (io_fault env (op_makedirs [POC_DIR])); [done|].
    destruct (io_fault env (op_makedirs [TMP_DIR])); [done|].
    by destruct Hfail as [?|[?|[?|?]]].
Qed.

(** ** A second run *)

Section second_run.
Context (env env2 : Env) (f0 : FS) (r1 r2 : Run).
Hypothesis (Hfair : fair_scheduling env) (Hgit : git_confined env) (Hff : fault_free env).
Hypothesis (Hfair2 : fair_scheduling env2) (Hnew : nothing_new env env2).
Hypothesis (Hrun1 : normal_run env f0 r1).
Hypothesis (Hrun2 : normal_run env2 (fs (final r1)) r2).
Hypothesis (Hclean : overwrites_nothing env f0 r1).

Lemma later_confined : git_confined env2.
Proof using Hnew. destruct Hnew as (_ & _ & Hq & _). intros t argv f p _. by rewrite Hq. Qed.

Lemma later_fingerprint f p : fingerprint env2 f p = fingerprint env f p.
Proof using Hnew. destruct Hnew as (Hd & _). unfold fingerprint. by rewrite Hd. Qed.

Lemma later_fresh f c : fresh env2 f c → fresh env f c.
Proof using Hnew. destruct Hnew as (Hd & _). unfold fresh. by rewrite Hd. Qed.

Lemma later_staged_tags c : staged_tags env2 c = staged_tags env c.
Proof using Hnew.
  destruct Hnew as (_ & Hl & _). unfold staged_tags, declared_tags. by rewrite Hl.
Qed.

Lemma later_accepted p (content : option string) :
  accepted env2 p content → accepted env p content.
Proof using Hnew. destruct Hnew as (_ & _ & _ & Hv). apply Hv. Qed.

Lemma run1_corpus rest :
  fs (final r1) !! (POC_DIR :: rest) =
    if decide (migrates env (fs (after_categorization r1)) rest)
    then fs (after_categorization r1) !! (TMP_DIR :: rest)
    else f0 !! (POC_DIR :: rest).
Proof using Hfair Hgit Hrun1.
  rewrite (run_final_lookup env f0 r1 Hrun1) by (by intros [= ?]).
  destruct (run_validation env f0 r1 Hrun1) as (V1 & _).
  destruct (run_categorization env f0 r1 Hfair Hgit Hrun1) as (K1 & _).
  rewrite V1. case_decide; [done|].
  rewrite K1 by (by intros [= ?]). by apply (run_corpus_before env f0 r1).
Qed.

Lemma run_clone_after_dedup e g r p :
  fair_scheduling e → git_confined e → normal_run e g r →
  head p = Some CLONE_DIR → fs (final r) !! p = fs (after_dedup r) !! p.
Proof.
  intros Hf Hg Hr Hp.
  rewrite (run_final_lookup e g r Hr) by (intros ->; by injection Hp).
  destruct (run_validation e g r Hr) as (_ & _ & V3).
  destruct (run_categorization e g r Hf Hg Hr) as (K1 & _).
  rewrite V3.
  - apply K1. rewrite Hp. by intros [= ?].
  - intros Hu. apply under_head in Hu. rewrite Hp in Hu. by injection Hu.
  - rewrite Hp. by intros [= ?].
Qed.

(** The second run starts its categorisation from the clone tree and the
    corpus the first run left. *)
Lemma run2_after_sync p :
  head p = Some CLONE_DIR ∨ head p = Some POC_DIR →
  fs (after_sync r2) !! p = fs (final r1) !! p.
Proof using Hnew Hrun2.
  intros Hp. destruct Hrun2 as (_ & Hinit & H1 & _). destruct Hnew as (_ & _ & Hq & _).
  rewrite (discovery_up_to_date env2 _ _ _ p Hq H1).
  2:{ intros ->. by destruct Hp as [[= ?]|[= ?]]. }
  apply init_workspace_spec in Hinit as [_ ->]. cbn [fs].
  rewrite decide_False; [done|]. intros Hh. rewrite Hh in Hp. by destruct Hp as [[= ?]|[= ?]].
Qed.

Lemma run2_candidates_after_sync :
  candidates (fs (after_sync r2)) = candidates (fs (after_dedup r1)).
Proof using Hfair Hgit Hnew Hrun1 Hrun2.
  apply candidates_ext. intros p Hp. rewrite run2_after_sync by (by left).
  by apply (run_clone_after_dedup env f0 r1).
Qed.

Lemma run2_after_dedup p :
  head p = Some CLONE_DIR ∨ head p = Some POC_DIR →
  fs (after_dedup r2) !! p = fs (final r1) !! p.
Proof using Hfair Hgit Hfair2 Hnew Hrun1 Hrun2.
  intros Hp. rewrite <- run2_after_sync by done.
  pose proof Hrun2 as (_ & _ & _ & H2 & _).
  apply (dedup_of_unique_is_identity _ _ _ Hfair2 H2).
  intros rf1 rf2 h Hrf1 Hrf2 Hf1 Hf2. rewrite later_fingerprint in Hf1, Hf2.
  pose proof Hrun1 as (_ & _ & _ & H2' & _).
  destruct (dedup_properties env _ _ (Hfair Dedup) H2') as (Huniq & _).
  rewrite run2_candidates_after_sync in Hrf1, Hrf2.
  assert (Hlook : ∀ rf, rf ∈ candidates (fs (after_dedup r1)) →
            fs (after_sync r2) !! os_path_join rf = fs (after_dedup r1) !! os_path_join rf).
  { intros rf (Hh & _)%elem_of_candidates. apply candidate_head in Hh.
    rewrite run2_after_sync by (by left). by apply (run_clone_after_dedup env f0 r1). }
  apply (Huniq rf1 rf2 h); try done.
  - unfold fingerprint in *. by rewrite <- Hlook.
  - unfold fingerprint in *. by rewrite <- Hlook.
Qed.

Lemma run2_candidates :
  candidates (fs (after_dedup r2)) = candidates (fs (after_dedup r1)).
Proof using Hfair Hgit Hfair2 Hnew Hrun1 Hrun2.
  apply candidates_ext. intros p Hp. rewrite run2_after_dedup by (by left).
  by apply (run_clone_after_dedup env f0 r1).
Qed.

(** Whatever the second run stages, its checker rejects. *)
Lemma run2_stages_only_rejects q c :
  fs (after_categorization r2) !! q = Some c → head q = Some TMP_DIR →
  ¬ accepted env2 q (Some c).
Proof using Hfair Hgit Hff Hfair2 Hnew Hrun1 Hrun2 Hclean.
  intros Hq Hh Hacc%later_accepted.
  destruct (run_categorization _ _ r2 Hfair2 later_confined Hrun2) as (_ & K2' & _).
  destruct (K2' q c Hq Hh) as (rf & t & Hrf & Hc & Hfresh2%later_fresh & Ht & ->).
  rewrite later_staged_tags in Ht.
  rewrite run2_candidates in Hrf.
  assert (Hc1 : fs (after_dedup r1) !! os_path_join rf = Some c).
  { rewrite <- Hc. pose proof Hrf as (Hhd & _)%elem_of_candidates. apply candidate_head in Hhd.
    rewrite run2_after_dedup by (by left). symmetry. by apply (run_clone_after_dedup env f0 r1). }
  destruct (run_categorization env f0 r1 Hfair Hgit Hrun1) as (_ & K2 & K3).
  destruct Hclean as (N1 & N2).
  assert (Hfresh1 : fresh env f0 c).
  { intros q0 c0 Hq0 Hc0 Heq. pose proof Hq0 as (rest0 & -> & Hne0)%under_cons.
    pose proof (run1_corpus rest0) as Hcorp.
    destruct (decide (migrates env (fs (after_categorization r1)) rest0)) as [(_ & [c'' Hs] & _)|_].
    - destruct (K2 _ _ Hs eq_refl) as (rf'' & t'' & Hrf'' & Hc'' & Hfr'' & Ht'' & [= ->]).
      rewrite (N2 rf'' c'' t'' Hrf'' Hc'' Hfr'' Ht'') in Hc0. done.
    - apply (Hfresh2 (POC_DIR :: rest0) c0 Hq0); [|exact Heq]. by rewrite Hcorp. }
  assert (Hstaged : fs (after_categorization r1) !! [TMP_DIR; t; snd rf] = Some c).
  { apply K3; [|exact Hrf|exact Hc1|exact Hfresh1|exact Ht|].
    - split_and!; intros; apply Hff.
    - intros rf' c' Hrf' Hname Hc' Hfr' Ht'.
      assert (rf' = rf) as -> by (by apply (N1 rf' rf c' c t)). congruence. }
  apply (Hfresh2 [POC_DIR; t; snd rf] c); [done| |done].
  rewrite run1_corpus, decide_True; [done|].
  unfold migrates. rewrite Hstaged. split_and!; [done|by eauto|done|].
  split; apply Hff.
Qed.

Lemma run2_corpus p :
  head p = Some POC_DIR → fs (final r2) !! p = fs (final r1) !! p.
Proof using Hfair Hgit Hff Hfair2 Hnew Hrun1 Hrun2 Hclean.
  intros Hp. rewrite (run_final_lookup _ _ r2 Hrun2) by (intros ->; by injection Hp).
  destruct (run_validation _ _ r2 Hrun2) as (V1 & _).
  destruct (run_categorization _ _ r2 Hfair2 later_confined Hrun2) as (K1 & _).
  destruct p as [|c rest]; [done|]. injection Hp as ->.
  rewrite V1. destruct (decide (migrates _ _ rest)) as [(_ & [c Hs] & Ha & _)|_].
  - exfalso. rewrite Hs in Ha. by apply (run2_stages_only_rejects _ c Hs).
  - rewrite K1 by (by intros [= ?]). apply run2_after_dedup. by right.
Qed.

End second_run.

(** C4, as stated, fails: the second run adds a file and a line. *)
Lemma second_run_grows_corpus_and_index :
  fst (main quiet_env renamed_fs) = 0%Z ∧
  fst (main quiet_env (fs (snd (main quiet_env renamed_fs)))) = 0%Z ∧
  fs (snd (main quiet_env renamed_fs)) !! ["poc"; "a"; "z.yaml"] = None ∧
  fs (snd (main quiet_env (fs (snd (main quiet_env renamed_fs))))) !! ["poc"; "a"; "z.yaml"]
    = Some "a:old" ∧
  fs (snd (main quiet_env renamed_fs)) !! [INDEX_FILE] = Some ("a/x.yaml" +:+ Py.nl) ∧
  fs (snd (main quiet_env (fs (snd (main quiet_env renamed_fs))))) !! [INDEX_FILE]
    ≠ fs (snd (main quiet_env renamed_fs)) !! [INDEX_FILE].
Proof. vm_compute. split_and!; done. Qed.

(** C4, amended.  A second run right after a completed one leaves the
    corpus as it is and writes the same index when no remote source has new
    content (git leaves every file as it is), the digest and the parser are
    those of the first run, the checker accepts no file it rejected in the
    first run, and the first run, free of file-operation failures, overwrote
    nothing: no two fresh candidates were routed to one staged path and no
    staged path was already a file of the corpus.  The Categorizer skips
    every candidate whose fingerprint the pre-run corpus holds, and the
    index depends on the corpus tree only.  Tags are taken to be plain
    directory names. *)
Theorem second_run_changes_nothing_unless_overwritten env env2 f0 r1 r2 :
  fair_scheduling env → git_confined env → fault_free env → plain_routes env r1 →
  fair_scheduling env2 → nothing_new env env2 →
  normal_run env f0 r1 →
  normal_run env2 (fs (final r1)) r2 →
  overwrites_nothing env f0 r1 →
  subtree POC_DIR (fs (final r2)) = subtree POC_DIR (fs (final r1)) ∧
  fs (final r2) !! [INDEX_FILE] = fs (final r1) !! [INDEX_FILE] ∧
  (∀ known g rf c q c0,
     hash_all env2 Seed (fs (final r1)) (map os_path_join (walk POC_DIR (fs (final r1))))
       = inr known →
     under POC_DIR q → fs (final r1) !! q = Some c0 → hexdigest env2 c0 = hexdigest env2 c →
     g !! os_path_join rf = Some c → _process_poc env2 known g rf = g) ∧
  (∀ f g, subtree POC_DIR f = subtree POC_DIR g → index_text f = index_text g).
Proof.
  intros Hfair Hgit Hff _ Hfair2 Hnew Hrun1 Hrun2 Hclean.
  assert (Hcorp : ∀ p, under POC_DIR p → fs (final r2) !! p = fs (final r1) !! p).
  { intros p Hp. apply (run2_corpus env env2 f0 r1 r2); try done. by apply under_head. }
  assert (Hsub : subtree POC_DIR (fs (final r2)) = subtree POC_DIR (fs (final r1))).
  { by apply subtree_ext. }
  split_and!; [done| |by apply categorizer_skips_known|apply index_text_ext].
  assert (Hidx : ∀ e g r, normal_run e g r →
            fs (final r) !! [INDEX_FILE] = Some (index_text (fs (final r)))).
  { intros e g r (_ & _ & _ & _ & _ & _ & G5 & G6 & _).
    injection G6 as <-. injection G5 as <-. cbn [print emit set_fs fs].
    rewrite lookup_insert_eq. f_equal. apply index_text_ext, subtree_ext.
    intros p Hp. symmetry. apply lookup_insert_ne. intros <-. done. }
  rewrite (Hidx _ _ _ Hrun1), (Hidx _ _ _ Hrun2). f_equal. by apply index_text_ext.
Qed.

Lemma checker_missing_fair : fair_scheduling (with_nuclei checker_missing quiet_env).
Proof. by intros st A l. Defined.

Lemma checker_missing_nothing_new : nothing_new quiet_env (with_nuclei checker_missing quiet_env).
Proof. split_and!; [reflexivity|reflexivity|by intros t argv f|by intros p content _]. Defined.

Lemma two_tag_second_run :
  normal_run (with_nuclei checker_missing quiet_env)
    (fs (final (trace_run quiet_env two_tag_fs)))
    (trace_run (with_nuclei checker_missing quiet_env)
       (fs (final (trace_run quiet_env two_tag_fs)))).
Proof. run_by_computation. Defined.

Lemma two_tag_overwrites_nothing :
  overwrites_nothing quiet_env two_tag_fs (trace_run quiet_env two_tag_fs).
Proof.
  split.
  - intros rf rf' c c' t Hrf Hrf' _ _ _ _ _ _ _.
    rewrite two_tag_candidates in Hrf, Hrf'.
    apply list_elem_of_singleton in Hrf, Hrf'. congruence.
  - intros rf c t _ _ _ _. unfold two_tag_fs. apply lookup_singleton_ne.
    intros Heq. discriminate Heq.
Defined.

Lemma second_run_changes_nothing_unless_overwritten_witness :
  fair_scheduling quiet_env ∧ git_confined quiet_env ∧ fault_free quiet_env ∧
  plain_routes quiet_env (trace_run quiet_env two_tag_fs) ∧
  fair_scheduling (with_nuclei checker_missing quiet_env) ∧
  nothing_new quiet_env (with_nuclei checker_missing quiet_env) ∧
  overwrites_nothing quiet_env two_tag_fs (trace_run quiet_env two_tag_fs) ∧
  subtree POC_DIR (fs (final (trace_run (with_nuclei checker_missing quiet_env)
                                 (fs (final (trace_run quiet_env two_tag_fs))))))
    = subtree POC_DIR (fs (final (trace_run quiet_env two_tag_fs))) ∧
  fs (final (trace_run (with_nuclei checker_missing quiet_env)
               (fs (final (trace_run quiet_env two_tag_fs))))) !! [INDEX_FILE]
    = fs (final (trace_run quiet_env two_tag_fs)) !! [INDEX_FILE] ∧
  fs (final (trace_run quiet_env two_tag_fs)) !! [POC_DIR; "a"; "x.yaml"] = Some "a,b:x".
Proof.
  split; [exact quiet_fair|]. split; [exact quiet_confined|].
  split; [exact quiet_fault_free|]. split; [exact two_tag_plain|].
  split; [exact checker_missing_fair|]. split; [exact checker_missing_nothing_new|].
  split; [exact two_tag_overwrites_nothing|].
  destruct (second_run_changes_nothing_unless_overwritten quiet_env
              (with_nuclei checker_missing quiet_env) two_tag_fs _ _
              quiet_fair quiet_confined quiet_fault_free two_tag_plain
              checker_missing_fair checker_missing_nothing_new
              two_tag_run two_tag_second_run two_tag_overwrites_nothing)
    as (Hcorpus & Hindex & _).
  split; [exact Hcorpus|]. split; [exact Hindex|]. vm_compute. reflexivity.
Defined.

(** ** Text lines and repository names *)

Lemma free_of_cons sep a u : free_of sep (String a u) ↔ a ≠ sep ∧ free_of sep u.
Proof. unfold free_of. cbn [list_ascii_of_string]. rewrite not_elem_of_cons. naive_solver. Qed.

Lemma free_of_empty sep : free_of sep EmptyString.
Proof. unfold free_of. cbn. apply not_elem_of_nil. Qed.

Lemma free_of_app sep (a b : string) :
  free_of sep a → free_of sep b → free_of sep (a +:+ b).
Proof.
  intros Ha Hb. induction a as [|x a IH]; [done|].
  apply free_of_cons in Ha as [? ?].
  change (String x a +:+ b) with (String x (a +:+ b)). apply free_of_cons. auto.
Qed.

Lemma split_nonempty sep s : Py.split sep s ≠ [].
Proof.
  destruct s as [|a s]; cbn [Py.split]; [done|].
  destruct (Ascii.eqb a sep); [done|]. by destruct (Py.split sep s).
Qed.

Lemma split_free sep u : free_of sep u → Py.split sep u = [u].
Proof.
  induction u as [|a u IH]; [done|]. intros [Ha Hu]%free_of_cons.
  cbn [Py.split]. destruct (Ascii.eqb_spec a sep) as [|_]; [done|]. by rewrite IH.
Qed.

Lemma split_app_sep sep (a b : string) :
  Py.split sep (a +:+ String sep b) = Py.split sep a ++ Py.split sep b.
Proof.
  induction a as [|x a IH].
  - change (EmptyString +:+ String sep b) with (String sep b).
    cbn [Py.split]. by rewrite Ascii.eqb_refl.
  - change (String x a +:+ String sep b) with (String x (a +:+ String sep b)).
    cbn [Py.split]. destruct (Ascii.eqb x sep); [by rewrite IH|].
    rewrite IH. pose proof (split_nonempty sep a).
    by destruct (Py.split sep a).
Qed.

Lemma split_pieces_free sep s : Forall (free_of sep) (Py.split sep s).
Proof.
  induction s as [|a s IH]; cbn [Py.split].
  - constructor; [apply free_of_empty|constructor].
  - destruct (Ascii.eqb_spec a sep) as [->|Hne].
    + constructor; [apply free_of_empty|done].
    + destruct (Py.split sep s) as [|w ws]; [constructor; [|done]|].
      * apply free_of_cons. split; [done|apply free_of_empty].
      * inversion IH; subst. constructor; [|done]. by apply free_of_cons.
Qed.

Lemma split_join sep (l : list string) :
  Forall (free_of sep) l → l ≠ [] →
  Py.split sep (Py.join (String sep EmptyString) l) = l.
Proof.
  unfold Py.join. induction 1 as [|u l Hu Hl IH]; [done|]. intros _.
  destruct l as [|v l].
  - cbn [String.concat]. by apply split_free.
  - change (String.concat (String sep "") (u :: v :: l))
      with (u +:+ String sep (String.concat (String sep "") (v :: l))).
    rewrite split_app_sep, IH by done. by rewrite split_free.
Qed.

Lemma lstrip_suffix (l : list ascii) : Py.lstrip l `suffix_of` l.
Proof.
  induction l as [|a l IH]; cbn [Py.lstrip]; [done|].
  destruct (Py.is_space a); [by apply suffix_cons_r|done].
Qed.

Lemma lstrip_fixed (l : list ascii) :
  match l with [] => True | a :: _ => Py.is_space a = false end → Py.lstrip l = l.
Proof. destruct l as [|a l]; [done|]. cbn [Py.lstrip]. by intros ->. Qed.

Lemma lstrip_head (l : list ascii) :
  match Py.lstrip l with [] => True | a :: _ => Py.is_space a = false end.
Proof.
  induction l as [|a l IH]; cbn [Py.lstrip]; [done|].
  by destruct (Py.is_space a) eqn:E.
Qed.

Lemma lstrip_idemp (l : list ascii) : Py.lstrip (Py.lstrip l) = Py.lstrip l.
Proof. apply lstrip_fixed, lstrip_head. Qed.

Lemma strip_chars_prefix (l : list ascii) : strip_chars l `prefix_of` Py.lstrip l.
Proof.
  unfold strip_chars.
  destruct (lstrip_suffix (rev (Py.lstrip l))) as [k Hk].
  exists (rev k). rewrite <- rev_app_distr, <- Hk. by rewrite rev_involutive.
Qed.

Lemma strip_chars_idemp (l : list ascii) : strip_chars (strip_chars l) = strip_chars l.
Proof.
  assert (H1 : Py.lstrip (strip_chars l) = strip_chars l).
  { apply lstrip_fixed. destruct (strip_chars_prefix l) as [k Hk].
    pose proof (lstrip_head l) as Hh. rewrite Hk in Hh.
    by destruct (strip_chars l). }
  unfold strip_chars at 1. rewrite H1. unfold strip_chars.
  by rewrite rev_involutive, lstrip_idemp.
Qed.

Lemma strip_idemp (s : string) : Py.strip (Py.strip s) = Py.strip s.
Proof.
  unfold Py.strip. fold (strip_chars (list_ascii_of_string s)).
  rewrite list_ascii_of_string_of_list_ascii.
  fold (strip_chars (strip_chars (list_ascii_of_string s))).
  by rewrite strip_chars_idemp.
Qed.

Lemma strip_chars_sub (l : list ascii) a : a ∈ strip_chars l → a ∈ l.
Proof.
  intros Ha. destruct (strip_chars_prefix l) as [k Hk].
  destruct (lstrip_suffix l) as [k' Hk'].
  rewrite Hk'. apply elem_of_app. right. rewrite Hk. apply elem_of_app. by left.
Qed.

Lemma strip_free sep (s : string) : free_of sep s → free_of sep (Py.strip s).
Proof.
  unfold free_of, Py.strip. fold (strip_chars (list_ascii_of_string s)).
  rewrite list_ascii_of_string_of_list_ascii. intros H Hin. by apply H, strip_chars_sub.
Qed.

Lemma file_lines_join (l : list string) :
  Forall one_line l →
  filter (fun u => u ≠ EmptyString) (Py.file_lines (Py.join Py.nl l)) =
  filter (fun u => u ≠ EmptyString) l.
Proof.
  intros Hl. unfold Py.file_lines.
  destruct (decide (l = [])) as [->|Hne]; [done|].
  change Py.nl with (String LF EmptyString). change (ascii_of_nat 10) with LF.
  rewrite split_join by done.
  destruct (last l) as [[|a u]|] eqn:Hlast; [|done..].
  apply last_Some in Hlast as [l' ->].
  rewrite removelast_last. rewrite filter_app.
  rewrite (filter_cons_False _ EmptyString) by naive_solver.
  by rewrite filter_nil, app_nil_r.
Qed.

Lemma file_lines_one_line (text : string) : Forall one_line (Py.file_lines text).
Proof.
  unfold Py.file_lines. pose proof (split_pieces_free LF text) as H.
  change (ascii_of_nat 10) with LF.
  destruct (last (Py.split LF text)) as [[|a u]|]; try done.
  clear -H. induction H as [|x l Hx Hl IH]; [constructor|].
  destruct l as [|y l]; [constructor|]. cbn [removelast]. constructor; [done|]. apply IH.
Qed.

Lemma remove_dot_git_other a rest :
  a ≠ "."%char → Py.remove_dot_git (String a rest) = String a (Py.remove_dot_git rest).
Proof.
  intros Hne. destruct a as [[] [] [] [] [] [] [] []]; try reflexivity. by destruct Hne.
Qed.

Lemma remove_dot_git_dot_other x r :
  x ≠ "g"%char →
  Py.remove_dot_git (String "." (String x r)) = String "." (Py.remove_dot_git (String x r)).
Proof.
  intros Hne. destruct x as [[] [] [] [] [] [] [] []]; try reflexivity. by destruct Hne.
Qed.

Lemma remove_dot_git_dot_g y r :
  y ≠ "i"%char →
  Py.remove_dot_git (String "." (String "g" (String y r)))
    = String "." (String "g" (Py.remove_dot_git (String y r))).
Proof.
  intros Hne. destruct y as [[] [] [] [] [] [] [] []]; try reflexivity. by destruct Hne.
Qed.

Lemma remove_dot_git_dot_gi z r :
  z ≠ "t"%char →
  Py.remove_dot_git (String "." (String "g" (String "i" (String z r))))
    = String "." (String "g" (String "i" (Py.remove_dot_git (String z r)))).
Proof.
  intros Hne. destruct z as [[] [] [] [] [] [] [] []]; try reflexivity. by destruct Hne.
Qed.

Lemma starts_git_None_1 x r : x ≠ "g"%char → starts_git (String x r) = None.
Proof.
  intros Hne. destruct r as [|y [|z r]]; try done. cbn [starts_git].
  by destruct (Ascii.eqb_spec x "g").
Qed.

Lemma starts_git_None_2 x y r : y ≠ "i"%char → starts_git (String x (String y r)) = None.
Proof.
  intros Hne. destruct r as [|z r]; try done. cbn [starts_git].
  destruct (Ascii.eqb_spec y "i"); [done|]. by rewrite andb_false_r.
Qed.

Lemma starts_git_None_3 x y z r :
  z ≠ "t"%char → starts_git (String x (String y (String z r))) = None.
Proof.
  intros Hne. cbn [starts_git].
  destruct (Ascii.eqb_spec z "t"); [done|]. by rewrite andb_false_r.
Qed.

Lemma remove_dot_git_dot rest :
  Py.remove_dot_git (String "." rest) =
    match starts_git rest with
    | Some r => Py.remove_dot_git r
    | None => String "." (Py.remove_dot_git rest)
    end.
Proof.
  destruct rest as [|x rest]; [reflexivity|].
  destruct (decide (x = "g"%char)) as [->|Hx].
  2:{ by rewrite (starts_git_None_1 x rest Hx), remove_dot_git_dot_other. }
  destruct rest as [|y rest]; [reflexivity|].
  destruct (decide (y = "i"%char)) as [->|Hy].
  2:{ rewrite (starts_git_None_2 "g" y rest Hy), remove_dot_git_dot_g by done.
      by rewrite (remove_dot_git_other "g") by done. }
  destruct rest as [|z rest]; [reflexivity|].
  destruct (decide (z = "t"%char)) as [->|Hz].
  2:{ rewrite (starts_git_None_3 "g" "i" z rest Hz), remove_dot_git_dot_gi by done.
      by rewrite (remove_dot_git_other "g"), (remove_dot_git_other "i") by done. }
  reflexivity.
Qed.

Lemma starts_git_Some s r : starts_git s = Some r → s = "git" +:+ r.
Proof.
  destruct s as [|x [|y [|z r']]]; try done. cbn [starts_git].
  destruct (Ascii.eqb_spec x "g") as [->|]; [|done].
  destruct (Ascii.eqb_spec y "i") as [->|]; [|done].
  destruct (Ascii.eqb_spec z "t") as [->|]; [|done].
  by intros [= ->].
Qed.

Lemma starts_git_app s : starts_git s = None → starts_git (s +:+ ".git") = None.
Proof.
  destruct s as [|x [|y [|z r]]]; try done.
  - intros _. change (starts_git (String x (String "." (String "g" "it"))) = None).
    by apply starts_git_None_2.
  - intros _. change (starts_git (String x (String y (String "." "git"))) = None).
    by apply starts_git_None_3.
  - cbn [starts_git String.append].
    change (String x (String y (String z r)) +:+ ".git")
      with (String x (String y (String z (r +:+ ".git")))).
    cbn [starts_git]. by destruct (_ && _ && _).
Qed.

Lemma no_dot_git_tail a s : no_dot_git (String a s) → no_dot_git s.
Proof. intros H m. apply (H (S m)). Qed.

Lemma no_dot_git_starts s : no_dot_git (String "." s) → starts_git s = None.
Proof.
  intros H. destruct (starts_git s) as [r|] eqn:E; [|done].
  apply starts_git_Some in E as ->. exfalso. apply (H 0). cbn. by destruct r.
Qed.

Lemma remove_dot_git_clean s :
  no_dot_git s → Py.remove_dot_git s = s ∧ Py.remove_dot_git (s +:+ ".git") = s.
Proof.
  induction s as [|a s IH]; intros H; [done|].
  destruct (IH (no_dot_git_tail _ _ H)) as [IH1 IH2].
  change (String a s +:+ ".git") with (String a (s +:+ ".git")).
  destruct (decide (a = "."%char)) as [->|Hne].
  - pose proof (no_dot_git_starts s H) as Hs.
    rewrite !remove_dot_git_dot, Hs, (starts_git_app s Hs). by rewrite IH1, IH2.
  - rewrite !remove_dot_git_other by done. by rewrite IH1, IH2.
Qed.

Lemma index_no_dot_git s : String.index 0 ".git" s = None → no_dot_git s.
Proof.
  intros H m. apply (String.index_correct3 0 m ".git" s H); [done|lia].
Qed.

Lemma last_segment (pre name : string) :
  free_of "/" name → last (Py.split "/" (pre +:+ "/" +:+ name)) = Some name.
Proof.
  intros H. change ("/" +:+ name) with (String "/" name).
  rewrite split_app_sep, (split_free _ name H). apply last_snoc.
Qed.

Lemma lower_nonempty (s : string) : s ≠ EmptyString → Py.lower s ≠ EmptyString.
Proof. by destruct s. Qed.

(** X1.  For a source URL whose last path segment is a non-empty
    repository name in plain text, without [/] and without [.git] inside,
    with or without a trailing [.git], the working copy is
    [clone-templates/<name in lower case>], whatever precedes the last
    segment: sources of different owners with one repository name share
    a working copy. *)
Theorem standard_urls_clone_by_name (pre name : string) :
  name ≠ EmptyString → plain_text name → free_of "/" name →
  String.index 0 ".git" name = None →
  target_dir (pre +:+ "/" +:+ name +:+ ".git") = [CLONE_DIR; Py.lower name] ∧
  target_dir (pre +:+ "/" +:+ name) = [CLONE_DIR; Py.lower name].
Proof.
  intros Hne _ Hfree Hidx.
  destruct (remove_dot_git_clean name (index_no_dot_git name Hidx)) as [R1 R2].
  assert (Hgit : free_of "/" (name +:+ ".git")).
  { apply free_of_app; [done|]. apply (bool_decide_unpack _). by vm_compute. }
  unfold target_dir, repo_name. split.
  - rewrite (last_segment pre (name +:+ ".git") Hgit). cbn [default from_option id]. rewrite R2.
    by rewrite decide_False by (by apply lower_nonempty).
  - rewrite (last_segment pre name Hfree). cbn [default from_option id]. rewrite R1.
    by rewrite decide_False by (by apply lower_nonempty).
Qed.

Lemma standard_urls_clone_by_name_witness :
  target_dir "https://github.com/Owner/Nuclei-Templates.git"
    = ["clone-templates"; "nuclei-templates"] ∧
  target_dir "https://github.com/other/Nuclei-Templates"
    = ["clone-templates"; "nuclei-templates"].
Proof.
  assert (H1 : "Nuclei-Templates" ≠ EmptyString) by (intros H; discriminate H).
  assert (H2 : free_of "/" "Nuclei-Templates").
  { apply (bool_decide_unpack _). vm_compute. exact I. }
  assert (H3 : plain_text "Nuclei-Templates").
  { apply (bool_decide_unpack _). vm_compute. exact I. }
  split.
  - exact (proj1 (standard_urls_clone_by_name "https://github.com/Owner" "Nuclei-Templates"
                    H1 H3 H2 eq_refl)).
  - exact (proj2 (standard_urls_clone_by_name "https://github.com/other" "Nuclei-Templates"
                    H1 H3 H2 eq_refl)).
Defined.

(** ** The registry of sources *)

Lemma elem_of_registry_urls f u :
  u ∈ registry_urls f ↔ u ≠ EmptyString ∧ u ∈ registered f.
Proof.
  unfold registry_urls, registered, read_file.
  rewrite elem_of_elements, elem_of_list_to_set, list_elem_of_filter.
  destruct (f !! [REPO_FILE]) as [text|]; cbn [default].
  - by rewrite elem_of_list_to_set.
  - cbn. rewrite elem_of_nil. set_solver.
Qed.

Lemma registered_clean f u : u ∈ registered f → one_line u ∧ Py.strip u = u.
Proof.
  unfold registered. destruct (f !! [REPO_FILE]) as [text|]; [|set_solver].
  rewrite elem_of_list_to_set, list_elem_of_fmap. intros (l & -> & Hl). split.
  - apply strip_free. pose proof (file_lines_one_line text) as H.
    rewrite Forall_forall in H. by apply H.
  - apply strip_idemp.
Qed.

Lemma registered_update new s u :
  Forall one_line new →
  u ∈ registry_urls (fs (_update_repo_registry new s)) ↔
  u ≠ EmptyString ∧ (u ∈ registered (fs s) ∨ ∃ v, v ∈ new ∧ u = Py.strip v).
Proof.
  intros Hnew. unfold _update_repo_registry. fold (registered (fs s)).
  cbn [set_fs fs]. unfold registry_urls, read_file. rewrite lookup_insert_eq. cbn [default].
  set (L := elements (registered (fs s) ∪ list_to_set new)).
  assert (HL : Forall one_line L).
  { apply Forall_forall. intros x Hx. unfold L in Hx.
    apply elem_of_elements, elem_of_union in Hx as [Hx|Hx].
    - by apply registered_clean in Hx as [? _].
    - rewrite elem_of_list_to_set in Hx. rewrite Forall_forall in Hnew. by apply Hnew. }
  rewrite elem_of_elements, elem_of_list_to_set, list_elem_of_filter, list_elem_of_fmap.
  assert (Hin : ∀ x, x ≠ EmptyString →
            x ∈ Py.file_lines (Py.join Py.nl L) ↔ x ∈ registered (fs s) ∨ x ∈ new).
  { intros x Hx.
    transitivity (x ∈ filter (fun u => u ≠ EmptyString) (Py.file_lines (Py.join Py.nl L))).
    { rewrite list_elem_of_filter. tauto. }
    rewrite file_lines_join by done. rewrite list_elem_of_filter. unfold L.
    rewrite elem_of_elements, elem_of_union, elem_of_list_to_set. tauto. }
  split.
  - intros (Hu & x & -> & Hx). split; [done|].
    assert (Hxne : x ≠ EmptyString) by (intros ->; by apply Hu).
    apply (Hin x Hxne) in Hx as [Hx|Hx]; [|right; eauto].
    left. by rewrite (proj2 (registered_clean _ _ Hx)).
  - intros (Hu & [Hx|(v & Hv & ->)]).
    + split; [done|]. exists u. split; [by rewrite (proj2 (registered_clean _ _ Hx))|].
      apply Hin; [done|by left].
    + split; [done|]. exists v. split; [done|].
      apply Hin; [|by right]. intros ->. by apply Hu.
Qed.

Lemma registry_urls_ext f g :
  (∀ u, u ∈ registry_urls f ↔ u ∈ registry_urls g) → registry_urls f = registry_urls g.
Proof.
  intros H. unfold registry_urls in *. f_equal. apply set_eq. intros u.
  specialize (H u). by rewrite !elem_of_elements in H.
Qed.

Lemma registry_unchanged_without_news s :
  registry_urls (fs (_update_repo_registry [] s)) = registry_urls (fs s).
Proof.
  apply registry_urls_ext. intros u. rewrite registered_update by constructor.
  rewrite elem_of_registry_urls. split; [|tauto].
  intros (? & [?|(v & ?%elem_of_nil & _)]); done.
Qed.

(** X2.  Reading the registry back after [_update_repo_registry]: a URL
    is listed exactly when it was listed before or is the stripped,
    non-empty form of one of the new clone URLs.  Nothing is ever dropped
    from the registry.  The registry file and the new URLs are plain
    text, and a new URL holds no line feed. *)
Theorem registry_update_keeps_and_adds new s u :
  plain_text (read_file [REPO_FILE] (fs s)) →
  Forall (fun v => plain_text v ∧ one_line v) new →
  u ∈ registry_urls (fs (_update_repo_registry new s)) ↔
  u ∈ registry_urls (fs s) ∨ (u ≠ EmptyString ∧ ∃ v, v ∈ new ∧ u = Py.strip v).
Proof.
  intros _ Hnew. rewrite registered_update.
  - rewrite elem_of_registry_urls. tauto.
  - eapply Forall_impl; [exact Hnew|]. by intros v [_ ?].
Qed.

Lemma registry_update_keeps_and_adds_witness :
  plain_text (read_file [REPO_FILE] registry_fs) ∧
  Forall (fun v => plain_text v ∧ one_line v) ["https://github.com/o/d.git"] ∧
  "https://github.com/o/a.git" ∈
    registry_urls (fs (_update_repo_registry ["https://github.com/o/d.git"]
                         (mkState registry_fs []))) ∧
  "https://github.com/o/d.git" ∈
    registry_urls (fs (_update_repo_registry ["https://github.com/o/d.git"]
                         (mkState registry_fs []))).
Proof.
  assert (H0 : plain_text (read_file [REPO_FILE] (fs (mkState registry_fs [])))).
  { apply (bool_decide_unpack _). vm_compute. exact I. }
  assert (H : Forall (fun v => plain_text v ∧ one_line v) ["https://github.com/o/d.git"]).
  { apply Forall_cons. split; [|apply Forall_nil_2].
    split; apply (bool_decide_unpack _); vm_compute; exact I. }
  split; [exact H0|]. split; [exact H|]. split.
  - apply (registry_update_keeps_and_adds _ _ _ H0 H). left.
    apply (bool_decide_unpack _). vm_compute. exact I.
  - apply (registry_update_keeps_and_adds _ _ _ H0 H). right. split.
    + intros Heq. discriminate Heq.
    + exists "https://github.com/o/d.git". split; [apply list_elem_of_here|].
      vm_compute. reflexivity.
Defined.

Lemma fetch_github_repos_spec env s :
  _fetch_github_repos env s =
    (default [] (github_search env),
     match github_search env with Some _ => s | None => print api_failure s end).
Proof. unfold _fetch_github_repos. by destruct (github_search env). Qed.

(** X3.  When the GitHub search fails, the failure is printed right
    after the banner of the stage, the registry lists the same URLs as
    before, and the stage goes on to sync exactly those, in batches.  The
    parallelism is positive and the registry file plain text. *)
Theorem failed_search_keeps_registry env cfg s :
  github_search env = None → ENABLE_STAGE1 cfg = true → (0 < GIT_PARALLEL cfg)%Z →
  plain_text (read_file [REPO_FILE] (fs s)) →
  ∃ s1 evs, dynamic_repo_discovery env cfg s = Done s1 ∧
    trace s1 = trace s ++ EvPrint (stage_banner 1) :: EvPrint api_failure :: evs ∧
    registry_urls (fs (_update_repo_registry [] s)) = registry_urls (fs s) ∧
    schedule_of evs =
      concat (map batch_events
                (Py.chunks (Z.to_nat (GIT_PARALLEL cfg * 2)) (registry_urls (fs s)))).
Proof.
  intros Hapi Hon Hp _. unfold dynamic_repo_discovery. rewrite Hon. cbn [negb].
  rewrite fetch_github_repos_spec, Hapi. cbn [default].
  unfold Py.range_slices. rewrite !decide_False by lia.
  set (s2 := print api_failure (print (stage_banner 1) s)).
  assert (Hurls : registry_urls (fs (_update_repo_registry [] s2)) = registry_urls (fs s)).
  { rewrite registry_unchanged_without_news. done. }
  rewrite Hurls.
  destruct (gather_all_trace env cfg
              (Py.chunks (Z.to_nat (GIT_PARALLEL cfg * 2)) (registry_urls (fs s)))
              (_update_repo_registry [] s2)) as (evs & Htr & Hsched).
  eexists _, evs. split_and!; [done| |apply registry_unchanged_without_news|done].
  rewrite Htr. unfold _update_repo_registry, s2. cbn [set_fs print emit trace].
  by rewrite <- !app_assoc.
Qed.

Lemma failed_search_keeps_registry_witness :
  github_search quiet_env = None ∧ ENABLE_STAGE1 one_at_a_time = true ∧
  (0 < GIT_PARALLEL one_at_a_time)%Z ∧
  plain_text (read_file [REPO_FILE] registry_fs) ∧
  ∃ s1 evs,
    dynamic_repo_discovery quiet_env one_at_a_time (mkState registry_fs []) = Done s1 ∧
    trace s1 = [] ++ EvPrint (stage_banner 1) :: EvPrint api_failure :: evs.
Proof.
  assert (H0 : plain_text (read_file [REPO_FILE] (fs (mkState registry_fs [])))).
  { apply (bool_decide_unpack _). vm_compute. exact I. }
  split; [reflexivity|]. split; [reflexivity|]. split; [reflexivity|]. split; [exact H0|].
  destruct (failed_search_keeps_registry quiet_env one_at_a_time (mkState registry_fs [])
              eq_refl eq_refl eq_refl H0) as (s1 & evs & Hrun & Htr & _).
  exists s1, evs. split; [exact Hrun|exact Htr].
Defined.

(** X4.  With the sync stage enabled and [GIT_PARALLEL] zero or
    negative, the stage runs no command and dispatches nothing; the registry
    has been rewritten by then and no other path changed.  For zero the
    stage raises [ValueError] (the step of [range] is zero) and the script
    ends with status 1; for a negative value the stage completes, its loop
    being empty. *)
Theorem nonpositive_parallelism_syncs_nothing env cfg s :
  ENABLE_STAGE1 cfg = true → (GIT_PARALLEL cfg ≤ 0)%Z →
  ∃ s',
    (if decide (GIT_PARALLEL cfg = 0)%Z
     then dynamic_repo_discovery env cfg s = Crashed ValueError s'
     else dynamic_repo_discovery env cfg s = Done s') ∧
    attempts (trace s') = attempts (trace s) ∧
    schedule_of (trace s') = schedule_of (trace s) ∧
    fs s' = fs (_update_repo_registry (default [] (github_search env)) s) ∧
    (∀ p, p ≠ [REPO_FILE] → fs s' !! p = fs s !! p) ∧
    (GIT_PARALLEL cfg = 0%Z → ∀ f0, _load_config env = inr cfg → fst (main env f0) = 1%Z).
Proof.
  intros Hon Hp.
  set (s2 := match github_search env with
             | Some _ => print (stage_banner 1) s
             | None => print api_failure (print (stage_banner 1) s)
             end).
  set (s3 := _update_repo_registry (default [] (github_search env)) s2).
  assert (Hrun : dynamic_repo_discovery env cfg s =
            if decide (GIT_PARALLEL cfg = 0)%Z then Crashed ValueError s3 else Done s3).
  { unfold dynamic_repo_discovery. rewrite Hon. cbn [negb].
    rewrite fetch_github_repos_spec. fold s2. fold s3.
    unfold Py.range_slices.
    destruct (decide (GIT_PARALLEL cfg = 0)%Z) as [->|Hne].
    - by rewrite decide_True.
    - rewrite decide_False by lia. rewrite decide_True by lia. done. }
  assert (Hfs2 : fs s2 = fs s) by (unfold s2; by destruct (github_search env)).
  exists s3. split_and!.
  - rewrite Hrun. by case_decide.
  - unfold s3, s2, _update_repo_registry. cbn [set_fs trace].
    destruct (github_search env); cbn [print emit trace];
      rewrite ?attempts_app; cbn; by rewrite ?app_nil_r.
  - unfold s3, s2, _update_repo_registry. cbn [set_fs trace].
    destruct (github_search env); cbn [print emit trace];
      rewrite ?schedule_of_app; cbn; by rewrite ?app_nil_r.
  - unfold s3, _update_repo_registry. cbn [set_fs fs]. by rewrite Hfs2.
  - intros p Hne. unfold s3, _update_repo_registry. cbn [set_fs fs].
    rewrite lookup_insert_ne by done. by rewrite Hfs2.
  - intros Hz f0 Hcfg. unfold main. rewrite Hcfg.
    destruct (_init_workspace env (mkState f0 [])) as [s0|e s0]; [|done].
    assert (H0 : ∃ sx, dynamic_repo_discovery env cfg s0 = Crashed ValueError sx).
    { unfold dynamic_repo_discovery. rewrite Hon. cbn [negb].
      destruct (_fetch_github_repos env _) as [new sx].
      unfold Py.range_slices. rewrite decide_True by lia. by eexists. }
    destruct H0 as [sx H0]. unfold try_body. cbn [run_stages].
    destruct (decide (sigint env = Some 0)); [done|]. by rewrite H0.
Qed.

Lemma nonpositive_parallelism_syncs_nothing_witness :
  ENABLE_STAGE1 no_parallelism = true ∧ (GIT_PARALLEL no_parallelism ≤ 0)%Z ∧
  ∃ s', dynamic_repo_discovery quiet_env no_parallelism (mkState registry_fs [])
        = Crashed ValueError s' ∧
        attempts (trace s') = [].
Proof.
  split; [reflexivity|]. split; [discriminate|].
  destruct (nonpositive_parallelism_syncs_nothing quiet_env no_parallelism
              (mkState registry_fs []) eq_refl) as (s' & Hrun & Hatt & _).
  - discriminate.
  - exists s'. split; [exact Hrun|exact Hatt].
Defined.

(** ** Fingerprints, passes and the progress loop *)

(** X5.  [_calculate_sha256] returns the path it was given with the
    digest of the whole content of the file, whatever its length (the
    blocks of 4096 bytes fed to the hasher make up the content); it raises
    when the file cannot be read or does not exist. *)
Theorem sha256_digests_whole_content env st f p :
  _calculate_sha256 env st f p =
    if io_fault env (op_hash st p) then inl (OSError (op_hash st p))
    else match f !! p with
         | Some data => inr (p, hexdigest env data)
         | None => inl (FileNotFoundError p)
         end.
Proof.
  destruct (io_fault env (op_hash st p)) eqn:Hio.
  - unfold _calculate_sha256. by rewrite Hio.
  - destruct (f !! p) as [data|] eqn:Hp.
    + by apply calculate_sha256_content.
    + unfold _calculate_sha256. by rewrite Hio, Hp.
Qed.

(** X6.  A deduplication pass right after a completed one removes
    nothing, whatever the order in which the hashes complete. *)
Theorem dedup_pass_is_idempotent env s s1 :
  fair_scheduling env → (∀ p, io_fault env (op_hash Dedup p) = false) →
  enterprise_deduplication env s = Done s1 →
  ∃ s2, enterprise_deduplication env s1 = Done s2 ∧ fs s2 = fs s1.
Proof.
  intros Hfair Hio Hrun.
  destruct (enterprise_deduplication_total env s1 (Hfair Dedup) Hio) as [s2 Hrun2].
  exists s2. split; [done|]. apply map_eq. intros p.
  apply (dedup_of_unique_is_identity env s1 s2 Hfair Hrun2).
  by destruct (dedup_properties env s s1 (Hfair Dedup) Hrun) as (Huniq & _).
Qed.

Lemma dedup_pass_is_idempotent_witness :
  fair_scheduling quiet_env ∧ (∀ p, io_fault quiet_env (op_hash Dedup p) = false) ∧
  ∃ s1 s2, enterprise_deduplication quiet_env (mkState twin_fs []) = Done s1 ∧
    enterprise_deduplication quiet_env s1 = Done s2 ∧ fs s2 = fs s1.
Proof.
  assert (Hio : ∀ p, io_fault quiet_env (op_hash Dedup p) = false) by (intros p; reflexivity).
  split; [exact quiet_fair|]. split; [exact Hio|].
  exists (state_of (enterprise_deduplication quiet_env (mkState twin_fs []))).
  assert (Hrun : enterprise_deduplication quiet_env (mkState twin_fs []) =
                 Done (state_of (enterprise_deduplication quiet_env (mkState twin_fs [])))).
  { vm_compute. reflexivity. }
  destruct (dedup_pass_is_idempotent quiet_env _ _ quiet_fair Hio Hrun) as (s2 & H2 & Hfs).
  exists s2. split; [exact Hrun|]. split; [exact H2|exact Hfs].
Defined.

Lemma progress_loop_spec {A} (futures : list A) (completed total : nat) s :
  progress_loop futures completed total s =
    mkState (fs s)
      (trace s ++ map (fun k => EvPrint (progress (50 * k) total))
                      (seq (S (completed / 50))
                           ((completed + length futures) / 50 - completed / 50))).
Proof.
  revert completed s. induction futures as [|x rest IH]; intros c0 s.
  - cbn [progress_loop length]. rewrite Nat.add_0_r, Nat.sub_diag. cbn.
    rewrite app_nil_r. by destruct s.
  - cbn [progress_loop length]. rewrite IH.
    replace (c0 + S (length rest)) with (S c0 + length rest) by lia.
    pose proof (Nat.div_mod_eq c0 50) as E0.
    pose proof (Nat.mod_upper_bound c0 50 ltac:(lia)) as B0.
    pose proof (Nat.div_mod_eq (S c0) 50) as E1.
    pose proof (Nat.mod_upper_bound (S c0) 50 ltac:(lia)) as B1.
    pose proof (Nat.div_mod_eq (S c0 + length rest) 50) as E2.
    pose proof (Nat.mod_upper_bound (S c0 + length rest) 50 ltac:(lia)) as B2.
    set (n := length rest) in *.
    set (q0 := c0 / 50) in *. set (r0 := c0 mod 50) in *.
    set (q1 := S c0 / 50) in *. set (r1 := S c0 mod 50) in *.
    set (q2 := (S c0 + n) / 50) in *. set (r2 := (S c0 + n) mod 50) in *.
    destruct (Nat.eqb_spec r1 0) as [Hz|Hnz].
    + assert (q1 = S q0) as Hq by lia.
      assert (S c0 = 50 * q1) as Hc by lia.
      cbn [print emit fs trace]. f_equal. rewrite <- app_assoc. f_equal.
      replace (q2 - q0) with (S (q2 - q1)) by lia.
      cbn [seq map]. rewrite <- Hq. f_equal. by rewrite Hc.
    + assert (q1 = q0) as -> by lia. done.
Qed.

(** X7.  The loop over the completed futures, with its counter, prints
    one progress line at each multiple of 50: [total / 50] lines in all,
    none for fewer than 50 candidates.  The categorisation stage is this
    loop, run after the banner on the file system the workers left. *)
Theorem progress_loop_prints_every_fiftieth {A} (futures : list A) s :
  progress_loop futures 0 (length futures) s =
    mkState (fs s) (trace s ++ progress_lines (length futures)) ∧
  (length futures < 50 → progress_loop futures 0 (length futures) s = s) ∧
  ∀ env s0 known,
    hash_all env Seed (fs s0) (map os_path_join (walk POC_DIR (fs s0))) = inr known →
    dynamic_categorization env s0 =
      Done (progress_loop (as_completed env Categorize _ (candidates (fs s0))) 0
              (length (as_completed env Categorize _ (candidates (fs s0))))
              (mkState (foldl (_process_poc env known) (fs s0)
                          (as_completed env Categorize _ (candidates (fs s0))))
                       (trace (print (stage_banner 3) s0)))).
Proof.
  assert (H : ∀ B (l : list B) s',
            progress_loop l 0 (length l) s' =
            mkState (fs s') (trace s' ++ progress_lines (length l))).
  { intros B l s'. rewrite progress_loop_spec. unfold progress_lines.
    rewrite Nat.add_0_l, Nat.sub_0_r. done. }
  split_and!.
  - apply H.
  - intros Hlt. rewrite H. unfold progress_lines.
    rewrite Nat.div_small by done. cbn. rewrite app_nil_r. by destruct s.
  - intros env s0 known Hk. unfold dynamic_categorization. cbn [print emit fs].
    rewrite Hk. by rewrite H.
Qed.

(** ** Tags that are not a list of strings *)

(** X8.  When the [tags] value of a rule is a string of plain text (as
    in [tags: cve,rce]) the loop runs over its characters: the rule is routed
    to one staging directory per character, lower-cased, the commas
    included; when copies work, every such character that names a
    directory of its own gets a staged copy of the rule. *)
Theorem string_tags_stage_per_character env known f rf text doc info tags :
  plain_text tags →
  safe_load env text = Some doc →
  Yaml.get doc "info" (Yaml.Dict []) = Some info →
  Yaml.get info "tags" (Yaml.List []) = Some (Yaml.Str tags) →
  staged_tags env text =
    map (fun a => Py.lower (String a EmptyString)) (list_ascii_of_string tags) ∧
  (copies_work env → head (fst rf) = Some CLONE_DIR →
   f !! os_path_join rf = Some text → hexdigest env text ∉ known →
   ∀ a, a ∈ list_ascii_of_string tags → names_a_directory a →
     _process_poc env known f rf !! [TMP_DIR; Py.lower (String a EmptyString); snd rf]
       = Some text).
Proof.
  intros _ Hdoc Hinfo Htags.
  assert (Hst : staged_tags env text =
            map (fun a => Py.lower (String a EmptyString)) (list_ascii_of_string tags)).
  { unfold staged_tags, declared_tags. rewrite Hdoc. cbn [mbind option_bind].
    rewrite Hinfo. cbn [mbind option_bind]. rewrite Htags. cbn [mbind option_bind Yaml.iter].
    apply routed_chars. }
  split; [exact Hst|].
  intros Hw Hrf Hc Hfresh a Ha _.
  apply process_poc_complete; try done.
  rewrite Hst. apply list_elem_of_fmap. by exists a.
Qed.

Lemma string_tags_stage_per_character_witness :
  plain_text "cve,RCE" ∧
  staged_tags (with_safe_load tags_as_text quiet_env) "cve,RCE" =
    ["c"; "v"; "e"; ","; "r"; "c"; "e"] ∧
  _process_poc (with_safe_load tags_as_text quiet_env) ∅
    {[ ["clone-templates"; "r"; "x.yaml"] := "cve,RCE" ]}
    (["clone-templates"; "r"], "x.yaml") !! [TMP_DIR; ","; "x.yaml"] = Some "cve,RCE".
Proof.
  assert (H0 : plain_text "cve,RCE").
  { apply (bool_decide_unpack _). vm_compute. exact I. }
  destruct (string_tags_stage_per_character (with_safe_load tags_as_text quiet_env) ∅
              {[ ["clone-templates"; "r"; "x.yaml"] := "cve,RCE" ]}
              (["clone-templates"; "r"], "x.yaml") "cve,RCE" _ _ "cve,RCE"
              H0 eq_refl eq_refl eq_refl) as [Hst Hfs].
  split; [exact H0|]. split; [exact Hst|].
  apply (Hfs ltac:(by split_and!) eq_refl eq_refl (not_elem_of_empty _) ","%char).
  - apply (bool_decide_unpack _). vm_compute. exact I.
  - split_and!; intros H; discriminate H.
Defined.

(** X9.  A tag that is not a string ends the fan-out: the copies for
    the string tags before it are made, the tag itself and every tag
    after it are skipped, and nothing is raised. *)
Theorem non_string_tag_ends_fan_out env src file (ts : list string) v rest f :
  Yaml.lower v = None →
  fan_out env src file (map Yaml.Str ts ++ v :: rest) f
    = fan_out env src file (map Yaml.Str ts) f ∧
  routed (map Yaml.Str ts ++ v :: rest) = map Py.lower ts.
Proof.
  intros Hv. split.
  - revert f. induction ts as [|t ts IH]; intros f.
    + cbn [map app fan_out]. by rewrite Hv.
    + cbn [map app fan_out Yaml.lower].
      destruct (io_fault env (op_makedirs [TMP_DIR; Py.lower t])); [done|]. apply IH.
  - induction ts as [|t ts IH]; cbn [map app routed Yaml.lower]; [by rewrite Hv|].
    by rewrite IH.
Qed.

Lemma non_string_tag_ends_fan_out_witness :
  Yaml.lower (Yaml.Int 2021) = None ∧
  routed [Yaml.Str "CVE"; Yaml.Int 2021; Yaml.Str "rce"] = ["cve"] ∧
  fan_out quiet_env ["clone-templates"; "r"; "x.yaml"] "x.yaml"
    [Yaml.Str "CVE"; Yaml.Int 2021; Yaml.Str "rce"]
    {[ ["clone-templates"; "r"; "x.yaml"] := "rule" ]} !! [TMP_DIR; "rce"; "x.yaml"] = None.
Proof.
  split; [reflexivity|].
  destruct (non_string_tag_ends_fan_out quiet_env ["clone-templates"; "r"; "x.yaml"] "x.yaml"
              ["CVE"] (Yaml.Int 2021) [Yaml.Str "rce"]
              {[ ["clone-templates"; "r"; "x.yaml"] := "rule" ]} eq_refl) as [Hfan Hrouted].
  split; [exact Hrouted|].
  change ([Yaml.Str "CVE"; Yaml.Int 2021; Yaml.Str "rce"])
    with (map Yaml.Str ["CVE"] ++ Yaml.Int 2021 :: [Yaml.Str "rce"]).
  rewrite Hfan. vm_compute. reflexivity.
Defined.

(** ** The checker, the moves and the index *)

(** X10.  When the checker never exits with code zero (the binary is
    missing, say, and every invocation raises), the validation stage
    completes, deletes every staged file and leaves every other path, the
    corpus included, as it was. *)
Theorem unavailable_checker_empties_staging env s :
  (∀ argv content, nuclei env argv 120 content ≠ Exited 0) →
  ∃ s4, enterprise_validation env s = Done s4 ∧
    (∀ p, under TMP_DIR p → fs s4 !! p = None) ∧
    (∀ p, ¬ under TMP_DIR p → fs s4 !! p = fs s !! p).
Proof.
  intros Hno. destruct (enterprise_validation_spec env s) as (s4 & H4 & V1 & V2 & V3 & _).
  exists s4. split; [done|]. split.
  - intros p (rest & -> & Hne)%under_cons. rewrite V2 by done.
    rewrite decide_False; [done|]. intros [Ha _]. by apply Hno in Ha.
  - intros p Hp. destruct (decide (head p = Some POC_DIR)) as [Hh|Hh]; [|by apply V3].
    destruct p as [|c0 rest]; [done|]. injection Hh as ->.
    rewrite V1, decide_False; [done|]. intros (_ & _ & Ha & _). by apply Hno in Ha.
Qed.

Lemma unavailable_checker_empties_staging_witness :
  (∀ argv content, nuclei (with_nuclei checker_missing quiet_env) argv 120 content ≠ Exited 0) ∧
  ∃ s4, enterprise_validation (with_nuclei checker_missing quiet_env) (mkState staged_fs [])
        = Done s4 ∧
    fs s4 !! [".tmp"; "rce"; "x.yaml"] = None ∧
    fs s4 !! ["poc"; "rce"; "x.yaml"] = None ∧
    fs s4 !! ["poc"; "rce"; "y.yaml"] = Some "rce:y".
Proof.
  assert (H : ∀ argv content,
            nuclei (with_nuclei checker_missing quiet_env) argv 120 content ≠ Exited 0).
  { intros argv content Heq. discriminate Heq. }
  split; [exact H|].
  destruct (unavailable_checker_empties_staging _ (mkState staged_fs []) H)
    as (s4 & Hrun & Hgone & Hkept).
  exists s4. split; [exact Hrun|]. split; [|split].
  - apply Hgone. reflexivity.
  - rewrite Hkept; [reflexivity|]. intros Hu. discriminate Hu.
  - rewrite Hkept; [reflexivity|]. intros Hu. discriminate Hu.
Defined.

(** X11.  When no move fails, the validation stage leaves no file below
    the staging directory: a staged file the checker accepts is moved, not
    copied, to the same relative path below the corpus, replacing whatever
    was there, and a corpus path without an accepted staged file keeps its
    content. *)
Theorem migration_drains_staging env s :
  (∀ rest, movable env rest) →
  ∃ s4, enterprise_validation env s = Done s4 ∧
    (∀ p, under TMP_DIR p → fs s4 !! p = None) ∧
    (∀ rest c, rest ≠ [] → fs s !! (TMP_DIR :: rest) = Some c →
       accepted env (TMP_DIR :: rest) (Some c) → fs s4 !! (POC_DIR :: rest) = Some c) ∧
    (∀ rest, ¬ accepted env (TMP_DIR :: rest) (fs s !! (TMP_DIR :: rest)) →
       fs s4 !! (POC_DIR :: rest) = fs s !! (POC_DIR :: rest)).
Proof.
  intros Hmv. destruct (enterprise_validation_spec env s) as (s4 & H4 & V1 & V2 & _).
  exists s4. split; [done|]. split_and!.
  - intros p (rest & -> & Hne)%under_cons. rewrite V2 by done.
    rewrite decide_False; [done|]. intros [_ Hn]. by apply Hn.
  - intros rest c Hne Hc Ha. rewrite V1, decide_True; [done|].
    unfold migrates. rewrite Hc. split_and!; [done|by eauto|done|apply Hmv].
  - intros rest Ha. rewrite V1, decide_False; [done|]. by intros (_ & _ & ? & _).
Qed.

Lemma migration_drains_staging_witness :
  (∀ rest, movable quiet_env rest) ∧
  ∃ s4, enterprise_validation quiet_env (mkState staged_fs []) = Done s4 ∧
    fs s4 !! [".tmp"; "rce"; "x.yaml"] = None ∧
    fs s4 !! ["poc"; "rce"; "x.yaml"] = Some "rce:x".
Proof.
  assert (H : ∀ rest, movable quiet_env rest) by (intros rest; split; reflexivity).
  split; [exact H|].
  destruct (migration_drains_staging quiet_env (mkState staged_fs []) H)
    as (s4 & Hrun & Hgone & Hmoved & _).
  exists s4. split; [exact Hrun|]. split.
  - apply Hgone. reflexivity.
  - apply Hmoved; [intros Hnil; discriminate Hnil|reflexivity|reflexivity].
Defined.

(** X12.  [generate_index] replaces the index file by a text that
    depends on the corpus only: running it again changes nothing, the
    previous content of the index file has no influence, nothing is
    printed and no other path is touched. *)
Theorem index_regeneration_is_idempotent s stale :
  ∃ s1, generate_index s = Done s1 ∧
    generate_index s1 = Done s1 ∧
    generate_index (set_fs (<[ [INDEX_FILE] := stale ]> (fs s)) s) = Done s1 ∧
    trace s1 = trace s ∧
    ∀ p, p ≠ [INDEX_FILE] → fs s1 !! p = fs s !! p.
Proof.
  assert (Hext : ∀ text, index_text (<[ [INDEX_FILE] := text ]> (fs s)) = index_text (fs s)).
  { intros text. apply index_text_ext, subtree_ext. intros p Hp.
    apply lookup_insert_ne. intros <-. done. }
  eexists. split; [done|]. unfold generate_index. cbn [set_fs fs trace]. split_and!.
  - by rewrite Hext, insert_insert_eq.
  - by rewrite Hext, insert_insert_eq.
  - done.
  - intros p Hp. by rewrite lookup_insert_ne.
Qed.

(** ** What every run preserves *)

Section stagewise.
Context (R : State → State → Prop).
Hypothesis (R_refl : ∀ s, R s s).
Hypothesis (R_trans : ∀ s1 s2 s3, R s1 s2 → R s2 s3 → R s1 s3).

(** A relation that every statement of a list respects is respected by
    the run of the list, wherever it stops. *)
Lemma run_stages_rel (sig : option nat) stages k s :
  (∀ st s, st ∈ stages → R s (state_of (st s))) →
  R s (state_of (run_stages sig k stages s)).
Proof using R_refl R_trans.
  revert k s. induction stages as [|st rest IH]; intros k s Hall; [apply R_refl|].
  cbn [run_stages]. case_decide; [apply R_refl|].
  pose proof (Hall st s (list_elem_of_here _ _)) as Hst.
  destruct (st s) as [s'|e s']; [|done]. cbn [state_of] in Hst.
  eapply R_trans; [exact Hst|]. apply IH. intros st' s'' Hin. apply Hall. by right.
Qed.

End stagewise.

Lemma keeps_refl s : keeps s s.
Proof. by split. Qed.

Lemma keeps_trans s1 s2 s3 : keeps s1 s2 → keeps s2 s3 → keeps s1 s3.
Proof.
  intros [F1 C1] [F2 C2]. split.
  - intros p Hp. by rewrite F2, F1.
  - intros p Hp Hs. by apply C2, C1.
Qed.

(** Enough for [keeps]: every path outside the clone tree and the
    staging tree, the registry and the index apart, is unchanged. *)
Lemma keeps_by_frame s s' :
  (∀ p, head p ≠ Some CLONE_DIR → head p ≠ Some TMP_DIR →
        p ≠ [REPO_FILE] → p ≠ [INDEX_FILE] → fs s' !! p = fs s !! p) →
  keeps s s'.
Proof.
  intros H. split.
  - intros p (? & ? & ? & ? & ?). by apply H.
  - intros p Hp Hs. rewrite H; [done|rewrite Hp; by intros [= ?]..| |].
    + intros ->. by injection Hp.
    + intros ->. by injection Hp.
Qed.

Lemma discovery_outside env cfg s p :
  git_confined env → head p ≠ Some CLONE_DIR → p ≠ [REPO_FILE] →
  fs (state_of (dynamic_repo_discovery env cfg s)) !! p = fs s !! p.
Proof.
  intros Hgit Hp Hrepo.
  destruct (dynamic_repo_discovery env cfg s) as [s1|e s1] eqn:Hrun.
  { by apply (discovery_frame env cfg s s1 p). }
  unfold dynamic_repo_discovery in Hrun.
  destruct (negb (ENABLE_STAGE1 cfg)); [done|].
  rewrite fetch_github_repos_spec in Hrun.
  destruct (Py.range_slices _ _); [done|]. injection Hrun as _ <-.
  unfold _update_repo_registry. cbn [state_of set_fs fs].
  rewrite lookup_insert_ne by done. by destruct (github_search env).
Qed.

Lemma dedup_loop_outside env snapshot (completed : list path) reg s p :
  p ∉ completed →
  fs (state_of (dedup_loop env snapshot completed reg s)) !! p = fs s !! p.
Proof.
  revert reg s. induction completed as [|q rest IH]; intros reg s Hp; [done|].
  apply not_elem_of_cons in Hp as [Hne Hp]. cbn [dedup_loop].
  destruct (_calculate_sha256 env Dedup snapshot q) as [e|[q' h]] eqn:Hh; [done|].
  apply calculate_sha256_inr in Hh as (data & _ & [= -> _] & _).
  case_decide.
  - rewrite IH by done. cbn [set_fs fs]. by rewrite lookup_delete_ne.
  - by rewrite IH.
Qed.

Lemma dedup_outside env s p :
  fair_scheduling env → head p ≠ Some CLONE_DIR →
  fs (state_of (enterprise_deduplication env s)) !! p = fs s !! p.
Proof.
  intros Hfair Hp. unfold enterprise_deduplication. rewrite dedup_loop_outside; [done|].
  rewrite (Hfair Dedup). intros (rf & -> & Hrf)%list_elem_of_fmap.
  apply Hp, candidate_head. by apply elem_of_candidates in Hrf as (? & _).
Qed.

Lemma categorization_outside env s p :
  head p ≠ Some TMP_DIR →
  fs (state_of (dynamic_categorization env s)) !! p = fs s !! p.
Proof.
  intros Hp. unfold dynamic_categorization.
  destruct (hash_all env Seed _ _) as [e|known]; [done|].
  cbn [state_of fs]. by rewrite categorize_frame.
Qed.

Lemma validation_keeps env s : keeps s (state_of (enterprise_validation env s)).
Proof.
  destruct (enterprise_validation_spec env s) as (s4 & -> & V1 & _ & V3 & _).
  cbn [state_of]. split.
  - intros p (_ & Hpoc & Htmp & _). apply V3; [|done].
    intros Hu. by apply Htmp, under_head.
  - intros p Hp Hs. destruct p as [|c0 rest]; [done|]. injection Hp as ->.
    rewrite V1. case_decide as Hm; [|done]. by destruct Hm as (_ & ? & _).
Qed.

Lemma stage_keeps env cfg st s :
  fair_scheduling env → git_confined env →
  st ∈ try_body env cfg → keeps s (state_of (st s)).
Proof.
  intros Hfair Hgit Hst. unfold try_body in Hst.
  repeat (apply elem_of_cons in Hst as [->|Hst]); [..|by apply elem_of_nil in Hst].
  - apply keeps_by_frame. intros p ? _ ? _. by apply discovery_outside.
  - apply keeps_by_frame. intros p ? _ _ _. by apply dedup_outside.
  - apply keeps_by_frame. intros p _ ? _ _. by apply categorization_outside.
  - apply validation_keeps.
  - apply keeps_by_frame. intros p _ _ _ ?. cbn [generate_index state_of set_fs fs].
    by rewrite lookup_insert_ne.
  - apply keeps_by_frame. by intros.
Qed.

Lemma rmtree_keeps s : keeps s (set_fs (rmtree TMP_DIR (fs s)) s).
Proof.
  apply keeps_by_frame. intros p _ Hp _ _. cbn [set_fs fs].
  rewrite rmtree_lookup. by rewrite decide_False.
Qed.

Lemma init_workspace_keeps env s : keeps s (state_of (_init_workspace env s)).
Proof.
  unfold _init_workspace.
  repeat (destruct (io_fault env _); [apply keeps_refl || apply rmtree_keeps|]).
  apply rmtree_keeps.
Qed.

Lemma main_keeps env f0 :
  fair_scheduling env → git_confined env → keeps (mkState f0 []) (snd (main env f0)).
Proof.
  intros Hfair Hgit. unfold main.
  destruct (_load_config env) as [|cfg]; [apply keeps_refl|].
  pose proof (init_workspace_keeps env (mkState f0 [])) as Hinit.
  destruct (_init_workspace env (mkState f0 [])) as [s0|e s0]; [|exact Hinit].
  cbn [state_of] in Hinit. eapply keeps_trans; [exact Hinit|].
  pose proof (run_stages_rel keeps keeps_refl keeps_trans (sigint env) (try_body env cfg) 0 s0
                (fun st s Hst => stage_keeps env cfg st s Hfair Hgit Hst)) as Hrun.
  destruct (run_stages (sigint env) 0 (try_body env cfg) s0) as [s'|e s']; [exact Hrun|].
  cbn [state_of] in Hrun.
  destruct e; try exact Hrun.
  cbn [on_keyboard_interrupt snd]. eapply keeps_trans; [exact Hrun|apply rmtree_keeps].
Qed.

Lemma one_tag_fair : fair_scheduling one_tag_env.
Proof. by intros st A l. Defined.

Lemma one_tag_confined : git_confined one_tag_env.
Proof. by intros t argv f p _. Defined.

Lemma one_tag_plain : plain_tags one_tag_env.
Proof.
  intros text t Ht. apply list_elem_of_singleton in Ht. rewrite Ht.
  split; [|split; [|split; [|split]]]; try (intros H; discriminate H).
  - apply (bool_decide_unpack _). vm_compute. exact I.
  - apply (bool_decide_unpack _). vm_compute. exact I.
Defined.

(** X13.  Whatever happens in a run (completion, a failure, Ctrl-C), a
    path outside the clone tree, the corpus and the staging directory that
    is neither the registry nor the index holds after the run what it held
    before: the script writes nowhere else.  Tags are taken to be plain
    directory names, git to write below the clone directory only, and
    git's own global configuration is not part of the file system
    considered. *)
Theorem run_touches_only_its_own_files env f0 p :
  fair_scheduling env → git_confined env → plain_tags env →
  head p ≠ Some CLONE_DIR → head p ≠ Some POC_DIR → head p ≠ Some TMP_DIR →
  p ≠ [REPO_FILE] → p ≠ [INDEX_FILE] →
  fs (snd (main env f0)) !! p = f0 !! p.
Proof.
  intros Hfair Hgit _ H1 H2 H3 H4 H5.
  destruct (main_keeps env f0 Hfair Hgit) as [Hf _]. by apply Hf.
Qed.

Lemma run_touches_only_its_own_files_witness :
  fair_scheduling one_tag_env ∧ git_confined one_tag_env ∧ plain_tags one_tag_env ∧
  fs (snd (main one_tag_env (<[ ["README.md"] := "notes" ]> two_tag_fs))) !! ["README.md"]
    = Some "notes".
Proof.
  split; [exact one_tag_fair|]. split; [exact one_tag_confined|]. split; [exact one_tag_plain|].
  rewrite (run_touches_only_its_own_files one_tag_env _ ["README.md"]
             one_tag_fair one_tag_confined one_tag_plain).
  - reflexivity.
  - intros H. discriminate H.
  - intros H. discriminate H.
  - intros H. discriminate H.
  - intros H. discriminate H.
  - intros H. discriminate H.
Defined.

(** X14.  A run never removes a file from the corpus: a path below the
    corpus directory that holds a file before the run holds one after it
    (the same, or the accepted staged file that replaced it), however the
    run ends. *)
Theorem run_never_deletes_corpus_files env f0 p :
  fair_scheduling env → git_confined env → plain_tags env →
  head p = Some POC_DIR → is_Some (f0 !! p) → is_Some (fs (snd (main env f0)) !! p).
Proof.
  intros Hfair Hgit _ Hp Hs.
  destruct (main_keeps env f0 Hfair Hgit) as [_ Hc]. by apply Hc.
Qed.

Lemma run_never_deletes_corpus_files_witness :
  fair_scheduling one_tag_env ∧ git_confined one_tag_env ∧ plain_tags one_tag_env ∧
  is_Some (renamed_fs !! ["poc"; "a"; "x.yaml"]) ∧
  is_Some (fs (snd (main one_tag_env renamed_fs)) !! ["poc"; "a"; "x.yaml"]).
Proof.
  assert (H : is_Some (renamed_fs !! ["poc"; "a"; "x.yaml"])).
  { exists "a:old". vm_compute. reflexivity. }
  split; [exact one_tag_fair|]. split; [exact one_tag_confined|]. split; [exact one_tag_plain|].
  split; [exact H|].
  apply (run_never_deletes_corpus_files one_tag_env renamed_fs _
           one_tag_fair one_tag_confined one_tag_plain).
  - reflexivity.
  - exact H.
Defined.









Lemma rmtree_idemp top f : rmtree top (rmtree top f) = rmtree top f.
Proof.
  apply map_eq. intros p. rewrite !rmtree_lookup. by case_decide.
Qed.

(** X16.  What the staging directory holds when the script starts has
    no influence on the run: the exit status is the same and, once the
    configuration loads and the clone and corpus directories can be made,
    so is the whole outcome (the removal of the staging tree is taken to
    succeed). *)
Theorem stale_staging_is_discarded env f0 :
  fst (main env (rmtree TMP_DIR f0)) = fst (main env f0) ∧
  (is_Some (json_load env) → io_fault env (op_makedirs [CLONE_DIR]) = false →
   io_fault env (op_makedirs [POC_DIR]) = false →
   main env (rmtree TMP_DIR f0) = main env f0).
Proof.
  assert (Hinit : io_fault env (op_makedirs [CLONE_DIR]) = false →
                  io_fault env (op_makedirs [POC_DIR]) = false →
                  _init_workspace env (mkState (rmtree TMP_DIR f0) [])
                  = _init_workspace env (mkState f0 [])).
  { intros H1 H2. unfold _init_workspace. rewrite H1, H2. cbn [set_fs fs trace].
    by rewrite rmtree_idemp. }
  split.
  - unfold main. destruct (_load_config env) as [|cfg]; [done|].
    destruct (io_fault env (op_makedirs [CLONE_DIR])) eqn:H1.
    { unfold _init_workspace. by rewrite H1. }
    destruct (io_fault env (op_makedirs [POC_DIR])) eqn:H2.
    { unfold _init_workspace. by rewrite H1, H2. }
    by rewrite Hinit.
  - intros [raw Hraw] H1 H2. unfold main, _load_config. rewrite Hraw.
    by rewrite Hinit.
Qed.

(** ** What a run prints and spawns *)

Lemma printed_app evs1 evs2 : printed (evs1 ++ evs2) = printed evs1 ++ printed evs2.
Proof. apply omap_app. Qed.

Lemma retry_schedule_events cfg url k n evs :
  retry_schedule cfg url k n evs → Forall (sync_event cfg) evs.
Proof.
  induction 1 as [k|k n argv Ha|k n argv rc evs Ha Hrc Hevs IH|k n argv r msg evs Ha Hr Hevs IH].
  - constructor.
  - constructor; [by exists url|constructor].
  - constructor; [by exists url|]. constructor; [done|exact IH].
  - constructor; [by exists url|]. constructor; [by eexists|exact IH].
Qed.

Lemma gather_events env cfg (batch : list string) s :
  ∃ evs, trace (gather env cfg batch s) = trace s ++ evs ∧ Forall (sync_event cfg) evs.
Proof.
  unfold gather.
  assert (H0 : ∃ evs, trace (foldl (fun s url => emit (EvDispatch url) s) s batch)
                      = trace s ++ evs ∧ Forall (sync_event cfg) evs).
  { rewrite dispatch_all_trace. eexists. split; [done|].
    induction batch as [|u batch IH]; constructor; [done|apply IH]. }
  destruct H0 as (evs0 & H0 & Hp0).
  revert H0. generalize (foldl (fun s url => emit (EvDispatch url) s) s batch). intros s' H0.
  revert s' evs0 H0 Hp0. induction batch as [|u batch IH]; intros s' evs0 H0 Hp0.
  { exists evs0. by split. }
  cbn [foldl].
  destruct (git_retries_trace env cfg u 3 0 s') as (tevs & Htr & Hq).
  apply (IH _ (evs0 ++ tevs ++ [EvComplete u])).
  - cbn [emit trace]. unfold _async_git_ops. rewrite Htr, H0. by rewrite <- !app_assoc.
  - apply Forall_app. split; [done|]. apply Forall_app. split.
    + by eapply retry_schedule_events.
    + by constructor.
Qed.

Lemma gather_all_events env cfg (batches : list (list string)) s :
  ∃ evs, trace (foldl (fun s batch => gather env cfg batch s) s batches) = trace s ++ evs ∧
         Forall (sync_event cfg) evs.
Proof.
  revert s. induction batches as [|b bs IH]; intros s.
  { exists []. split; [by rewrite app_nil_r|constructor]. }
  cbn [foldl]. destruct (gather_events env cfg b s) as (bevs & Hb & Hpb).
  destruct (IH (gather env cfg b s)) as (evs & -> & Hp).
  exists (bevs ++ evs). split; [by rewrite Hb, <- app_assoc|].
  by apply Forall_app.
Qed.

(** The events of the sync stage, however it ends. *)
Lemma discovery_events env cfg s :
  ∃ evs, trace (state_of (dynamic_repo_discovery env cfg s)) = trace s ++ evs ∧
    if ENABLE_STAGE1 cfg
    then ∃ evs', Forall (sync_event cfg) evs' ∧
           evs = EvPrint (stage_banner 1) ::
                 match github_search env with
                 | Some _ => evs'
                 | None => EvPrint api_failure :: evs'
                 end
    else evs = [EvPrint stage1_skipped].
Proof.
  unfold dynamic_repo_discovery. destruct (ENABLE_STAGE1 cfg); cbn [negb].
  2:{ by eexists. }
  rewrite fetch_github_repos_spec.
  set (s2 := match github_search env with
             | Some _ => print (stage_banner 1) s
             | None => print api_failure (print (stage_banner 1) s)
             end).
  assert (H2 : trace (_update_repo_registry (default [] (github_search env)) s2) =
               trace s ++ EvPrint (stage_banner 1) ::
                 match github_search env with Some _ => [] | None => [EvPrint api_failure] end).
  { unfold s2, _update_repo_registry. cbn [set_fs trace].
    destruct (github_search env); cbn [print emit trace]; by rewrite <- ?app_assoc. }
  destruct (Py.range_slices _ _) as [batches|]; cbn [state_of].
  - edestruct (gather_all_events env cfg batches) as (evs & -> & Hp).
    rewrite H2. eexists. split; [by rewrite <- app_assoc|].
    exists evs. split; [done|]. by destruct (github_search env).
  - rewrite H2. eexists. split; [done|]. exists []. split; [constructor|].
    by destruct (github_search env).
Qed.

Lemma sync_events_printed cfg evs :
  Forall (sync_event cfg) evs → Forall sync_line (printed evs).
Proof.
  induction 1 as [|e evs He _ IH]; [constructor|].
  destruct e as [l|argv t r| | |]; cbn [printed omap list_omap]; try exact IH.
  constructor; [by right|exact IH].
Qed.

Lemma sync_events_attempts cfg evs :
  Forall (sync_event cfg) evs → Forall (git_argv cfg) (attempts evs).
Proof.
  induction 1 as [|e evs He _ IH]; [constructor|].
  destruct e as [l|argv [t|] r| | |]; cbn [attempts omap list_omap]; try exact IH; [done|].
  constructor; [exact He|exact IH].
Qed.

Lemma discovery_printed env cfg s s1 :
  dynamic_repo_discovery env cfg s = Done s1 →
  if ENABLE_STAGE1 cfg
  then ∃ lines, stdout s1 = stdout s ++ stage_banner 1 :: lines ∧ Forall sync_line lines
  else stdout s1 = stdout s ++ [stage1_skipped].
Proof.
  intros Hrun. destruct (discovery_events env cfg s) as (evs & Htr & Hevs).
  rewrite Hrun in Htr. cbn [state_of] in Htr.
  assert (Hout : stdout s1 = stdout s ++ printed evs).
  { unfold stdout. rewrite Htr. apply omap_app. }
  rewrite Hout. destruct (ENABLE_STAGE1 cfg).
  - destruct Hevs as (evs' & Hp & ->). apply (sync_events_printed cfg) in Hp.
    destruct (github_search env); cbn [printed omap list_omap].
    + by exists (printed evs').
    + exists (api_failure :: printed evs'). split; [done|]. constructor; [by left|done].
  - by rewrite Hevs.
Qed.

(** X17.  A run that completes prints, in this order: the lines of the
    sync stage (the single line that it was skipped, or its banner
    followed only by the report of a failed search and reports of git
    exceptions), the banners of stages 2 and 3, one progress line per 50
    candidates, the banner of stage 4 and the total of corpus files. *)
Theorem normal_run_output env f0 r :
  fair_scheduling env → normal_run env f0 r →
  let n := length (candidates (fs (after_dedup r))) in
  stdout (final r) =
    stdout (after_sync r) ++ [stage_banner 2; stage_banner 3] ++
    map (fun k => progress (50 * k) n) (seq 1 (n / 50)) ++
    [stage_banner 4; valid_total (length (walk POC_DIR (fs (final r))))] ∧
  if ENABLE_STAGE1 (run_cfg r)
  then ∃ lines, stdout (after_sync r) = stage_banner 1 :: lines ∧ Forall sync_line lines
  else stdout (after_sync r) = [stage1_skipped].
Proof.
  intros Hfair Hrun n.
  pose proof Hrun as (_ & Hinit & H1 & H2 & H3 & H4 & H5 & H6 & _).
  apply init_workspace_spec in Hinit as [Htr0 _]. cbn [trace] in Htr0.
  destruct (dedup_properties env _ _ (Hfair Dedup) H2) as (_ & _ & _ & _ & Htr2).
  destruct (dynamic_categorization_spec env _ _ (Hfair Categorize) H3) as (_ & _ & _ & Htr3).
  destruct (enterprise_validation_spec env (after_categorization r))
    as (s4 & H4' & _ & _ & _ & Hout & _).
  rewrite H4 in H4'. injection H4' as <-.
  split.
  - injection H6 as <-. injection H5 as <-. rewrite stdout_print. cbn [print emit set_fs fs].
    assert (Hw : walk POC_DIR (<[ [INDEX_FILE] := index_text (fs (after_migration r)) ]>
                                 (fs (after_migration r)))
                 = walk POC_DIR (fs (after_migration r))).
    { apply walk_ext. intros p Hp. apply lookup_insert_ne. intros <-. done. }
    rewrite !Hw.
    change (stdout (set_fs ?f (after_migration r))) with (stdout (after_migration r)).
    rewrite Hout. unfold stdout at 1. rewrite Htr3, omap_app. cbn [omap list_omap].
    rewrite stdout_progress_lines. fold (stdout (after_dedup r)).
    unfold stdout at 1. rewrite Htr2, omap_app. cbn [omap list_omap].
    fold (stdout (after_sync r)). fold n. by rewrite <- !app_assoc.
  - pose proof (discovery_printed env _ _ _ H1) as Hd.
    unfold stdout in Hd at 2 4. rewrite Htr0 in Hd. cbn [omap list_omap app] in Hd.
    exact Hd.
Qed.

Lemma normal_run_output_witness :
  fair_scheduling quiet_env ∧
  normal_run quiet_env two_tag_fs (trace_run quiet_env two_tag_fs) ∧
  stdout (final (trace_run quiet_env two_tag_fs)) =
    [stage1_skipped; stage_banner 2; stage_banner 3; stage_banner 4; valid_total 2].
Proof.
  split; [exact quiet_fair|]. split; [exact two_tag_run|].
  destruct (normal_run_output quiet_env two_tag_fs _ quiet_fair two_tag_run) as [Hout _].
  rewrite Hout. vm_compute. reflexivity.
Defined.

Lemma attempts_progress_lines n : attempts (progress_lines n) = [].
Proof.
  unfold progress_lines, attempts. induction (seq 1 (n / 50)) as [|k l IH]; [done|]. apply IH.
Qed.

(** X18.  With [ENABLE_STAGE1] false the try block of a run that
    completes spawns no git process: stage 1 only prints that it is
    skipped, the commands run are the checker invocations on the staged
    files, one each, and the registry file is left as it was. *)
Theorem disabled_sync_runs_no_git env f0 r :
  fair_scheduling env → normal_run env f0 r → ENABLE_STAGE1 (run_cfg r) = false →
  after_sync r = print stage1_skipped (after_init r) ∧
  attempts (trace (final r)) =
    map checker_argv (map os_path_join (walk TMP_DIR (fs (after_categorization r)))) ∧
  fs (final r) !! [REPO_FILE] = f0 !! [REPO_FILE].
Proof.
  intros Hfair Hrun Hoff.
  pose proof Hrun as (_ & Hinit & H1 & H2 & H3 & H4 & H5 & H6 & _).
  assert (Hsync : after_sync r = print stage1_skipped (after_init r)).
  { unfold dynamic_repo_discovery in H1. rewrite Hoff in H1. cbn [negb] in H1.
    by injection H1 as <-. }
  apply init_workspace_spec in Hinit as [Htr0 Hfs0]. cbn [trace fs] in Htr0, Hfs0.
  destruct (dedup_properties env _ _ (Hfair Dedup) H2) as (_ & _ & _ & _ & Htr2).
  destruct (dynamic_categorization_spec env _ _ (Hfair Categorize) H3) as (K1 & _ & _ & Htr3).
  destruct (enterprise_validation_spec env (after_categorization r))
    as (s4 & H4' & _ & _ & V3 & _ & Hatt).
  rewrite H4 in H4'. injection H4' as <-.
  split; [exact Hsync|]. split.
  - injection H6 as <-. injection H5 as <-. cbn [print emit set_fs trace].
    rewrite attempts_app, Hatt, Htr3, attempts_app, Htr2, attempts_app, Hsync.
    cbn [print emit trace]. rewrite attempts_app, Htr0.
    change (EvPrint (stage_banner 3) :: progress_lines ?n)
      with ([EvPrint (stage_banner 3)] ++ progress_lines n).
    rewrite attempts_app, attempts_progress_lines. cbn. by rewrite app_nil_r.
  - rewrite (run_final_lookup env f0 r Hrun) by (by intros [= ?]).
    rewrite V3; [|by intros ?|by intros [= ?]].
    rewrite K1 by (by intros [= ?]).
    rewrite (dedup_frame env _ _ [REPO_FILE] Hfair H2) by (by intros [= ?]).
    rewrite Hsync. cbn [print emit fs]. rewrite Hfs0. by rewrite decide_False by (by intros [= ?]).
Qed.

Lemma disabled_sync_runs_no_git_witness :
  fair_scheduling quiet_env ∧
  normal_run quiet_env two_tag_fs (trace_run quiet_env two_tag_fs) ∧
  ENABLE_STAGE1 (run_cfg (trace_run quiet_env two_tag_fs)) = false ∧
  attempts (trace (final (trace_run quiet_env two_tag_fs))) =
    map checker_argv
      (map os_path_join
         (walk TMP_DIR (fs (after_categorization (trace_run quiet_env two_tag_fs))))).
Proof.
  split; [exact quiet_fair|]. split; [exact two_tag_run|]. split; [reflexivity|].
  destruct (disabled_sync_runs_no_git quiet_env two_tag_fs _ quiet_fair two_tag_run eq_refl)
    as (_ & Hatt & _).
  exact Hatt.
Defined.

(** X19.  The script ends with status 0 or 1, with 0 exactly when all
    six statements of the try block complete; after status 0 the index
    file lists the corpus as it stands and the last line printed is the
    number of corpus files. *)
Theorem exit_status_zero_means_index_current env f0 :
  (fst (main env f0) = 0%Z ∨ fst (main env f0) = 1%Z) ∧
  (fst (main env f0) = 0%Z ↔ ∃ r, normal_run env f0 r) ∧
  (fst (main env f0) = 0%Z →
     fs (snd (main env f0)) !! [INDEX_FILE] = Some (index_text (fs (snd (main env f0)))) ∧
     last (stdout (snd (main env f0))) =
       Some (valid_total (length (walk POC_DIR (fs (snd (main env f0))))))).
Proof.
  split_and!.
  - unfold main. destruct (_load_config env); [by right|].
    destruct (_init_workspace env _); [|by right].
    destruct (run_stages _ _ _ _) as [|e ?]; [by left|]. by destruct e; right.
  - split.
    + intros H0. destruct (main env f0) as [z s'] eqn:E. cbn in H0. subst z.
      destruct (main_normal_run env f0 s' E) as (r & Hr & _). eauto.
    + intros [r Hr]. by rewrite (normal_run_main env f0 r Hr).
  - intros H0. destruct (main env f0) as [z s'] eqn:E. cbn in H0. subst z.
    destruct (main_normal_run env f0 s' E) as (r & Hr & <-). cbn [snd].
    destruct Hr as (_ & _ & _ & _ & _ & _ & H5 & H6 & _).
    injection H6 as <-. injection H5 as <-.
    set (s4 := after_migration r).
    assert (Hsub : subtree POC_DIR (<[ [INDEX_FILE] := index_text (fs s4) ]> (fs s4))
                   = subtree POC_DIR (fs s4)).
    { apply subtree_ext. intros p Hp. apply lookup_insert_ne. intros <-. done. }
    cbn [print emit set_fs fs]. split.
    + rewrite lookup_insert_eq. f_equal. symmetry. by apply index_text_ext.
    + by rewrite stdout_print, last_snoc.
Qed.

Lemma spawns_only_refl cfg s : spawns_only cfg s s.
Proof. exists []. split; [by rewrite app_nil_r|constructor]. Qed.

Lemma spawns_only_trans cfg s1 s2 s3 :
  spawns_only cfg s1 s2 → spawns_only cfg s2 s3 → spawns_only cfg s1 s3.
Proof.
  intros (m1 & H1 & F1) (m2 & H2 & F2). exists (m1 ++ m2). split.
  - by rewrite H2, H1, app_assoc.
  - by apply Forall_app.
Qed.

Lemma spawns_only_quiet cfg s s' :
  attempts (trace s') = attempts (trace s) → spawns_only cfg s s'.
Proof. intros H. exists []. split; [by rewrite app_nil_r|constructor]. Qed.

Lemma dedup_loop_trace env snapshot (completed : list path) reg s :
  trace (state_of (dedup_loop env snapshot completed reg s)) = trace s.
Proof.
  revert reg s. induction completed as [|q rest IH]; intros reg s; [done|].
  cbn [dedup_loop].
  destruct (_calculate_sha256 env Dedup snapshot q) as [e|[q' h]]; [done|].
  case_decide; by rewrite IH.
Qed.

Lemma stage_spawns_only env cfg st s :
  st ∈ try_body env cfg → spawns_only cfg s (state_of (st s)).
Proof.
  intros Hst. unfold try_body in Hst.
  repeat (apply elem_of_cons in Hst as [->|Hst]); [..|by apply elem_of_nil in Hst].
  - destruct (discovery_events env cfg s) as (evs & Htr & Hevs).
    exists (attempts evs). split; [by rewrite Htr, attempts_app|].
    destruct (ENABLE_STAGE1 cfg) eqn:Hon.
    + destruct Hevs as (evs' & Hp & ->). apply (sync_events_attempts cfg) in Hp.
      assert (Hall : Forall (spawned_by_run cfg) (attempts evs')).
      { eapply Forall_impl; [exact Hp|]. intros argv Ha. by left. }
      by destruct (github_search env).
    + rewrite Hevs. constructor.
  - apply spawns_only_quiet. unfold enterprise_deduplication.
    rewrite dedup_loop_trace. cbn [print emit trace]. rewrite attempts_app. cbn.
    by rewrite app_nil_r.
  - apply spawns_only_quiet. unfold dynamic_categorization.
    destruct (hash_all env Seed _ _) as [e|known]; cbn [state_of print emit trace];
      rewrite !attempts_app, ?attempts_progress_lines; cbn; by rewrite ?app_nil_r.
  - destruct (enterprise_validation_spec env s) as (s4 & -> & _ & _ & _ & _ & Hatt).
    cbn [state_of]. eexists. split; [exact Hatt|].
    apply Forall_forall. intros argv (q & -> & Hq)%list_elem_of_fmap. right.
    exists q. split; [|done]. by apply elem_of_walk_join in Hq as [? _].
  - by apply spawns_only_quiet.
  - apply spawns_only_quiet. cbn [print_total state_of print emit trace].
    rewrite attempts_app. cbn. by rewrite app_nil_r.
Qed.

(** X20.  The processes of a run.  The constructor hands three
    [git config --global] command lines to the shell, the last of which
    sets [pack.threads] to the [GIT_PARALLEL] of the configuration file, 8
    when the file does not set it.  Whatever happens afterwards, every
    subprocess the script spawns is either the pull or the clone of a
    source, and then the sync stage is enabled, or the checker on a file
    below the staging directory. *)
Theorem run_spawns_only_git_and_checker env f0 :
  (∀ cfg cmd, cmd ∈ _init_git_config cfg →
     ∃ setting, cmd = "git config --global " +:+ setting) ∧
  (∀ raw cfg, json_load env = Some raw → _load_config env = inr cfg →
     last (_init_git_config cfg) =
       Some ("git config --global pack.threads " +:+
             Py.str (default 8%Z (raw_GIT_PARALLEL raw)))) ∧
  ∀ argv, argv ∈ attempts (trace (snd (main env f0))) →
    ∃ cfg, _load_config env = inr cfg ∧
      ((ENABLE_STAGE1 cfg = true ∧
        ∃ url, argv = pull_command cfg url ∨ argv = clone_command cfg url) ∨
       ∃ p, under TMP_DIR p ∧ argv = [NUCLEI_BIN; "-validate"; "-t"; path_str p]).
Proof.
  split_and!.
  { intros cfg cmd Hcmd. unfold _init_git_config in Hcmd.
    repeat (apply elem_of_cons in Hcmd as [->|Hcmd]); [..|by apply elem_of_nil in Hcmd];
      by eexists. }
  { intros raw cfg Hraw. unfold _load_config. rewrite Hraw. by intros [= <-]. }
  intros argv. unfold main. destruct (_load_config env) as [|cfg] eqn:Hcfg.
  { by intros ?%elem_of_nil. }
  intros Hin. exists cfg. split; [done|].
  assert (Hinit : trace (state_of (_init_workspace env (mkState f0 []))) = []).
  { unfold _init_workspace. by repeat (destruct (io_fault env _); [done|]). }
  destruct (_init_workspace env (mkState f0 [])) as [s0|e s0]; cbn [state_of] in Hinit.
  2:{ cbn [snd] in Hin. rewrite Hinit in Hin. by apply elem_of_nil in Hin. }
  pose proof (run_stages_rel (spawns_only cfg) (spawns_only_refl cfg) (spawns_only_trans cfg)
                (sigint env) (try_body env cfg) 0 s0
                (fun st s Hst => stage_spawns_only env cfg st s Hst)) as (more & Hatt & Hall).
  rewrite Hinit in Hatt. cbn [attempts omap list_omap app] in Hatt.
  assert (Hfin : attempts (trace (snd
            match run_stages (sigint env) 0 (try_body env cfg) s0 with
            | Done s' => (0%Z, s')
            | Crashed KeyboardInterrupt s' => on_keyboard_interrupt s'
            | Crashed _ s' => (1%Z, s')
            end)) = more).
  { rewrite <- Hatt. destruct (run_stages _ _ _ _) as [s'|e s']; [done|]. by destruct e. }
  rewrite Hfin in Hin. rewrite Forall_forall in Hall. apply Hall in Hin. exact Hin.
Qed.

Lemma run_spawns_only_git_and_checker_witness :
  [NUCLEI_BIN; "-validate"; "-t"; ".tmp/a/x.yaml"]
    ∈ attempts (trace (snd (main quiet_env two_tag_fs))) ∧
  ∃ cfg, _load_config quiet_env = inr cfg ∧
    ((ENABLE_STAGE1 cfg = true ∧
      ∃ url, [NUCLEI_BIN; "-validate"; "-t"; ".tmp/a/x.yaml"] = pull_command cfg url ∨
             [NUCLEI_BIN; "-validate"; "-t"; ".tmp/a/x.yaml"] = clone_command cfg url) ∨
     ∃ p, under TMP_DIR p ∧
          [NUCLEI_BIN; "-validate"; "-t"; ".tmp/a/x.yaml"]
            = [NUCLEI_BIN; "-validate"; "-t"; path_str p]).
Proof.
  assert (H : [NUCLEI_BIN; "-validate"; "-t"; ".tmp/a/x.yaml"]
                ∈ attempts (trace (snd (main quiet_env two_tag_fs)))).
  { apply (bool_decide_unpack _). vm_compute. exact I. }
  split; [exact H|].
  destruct (run_spawns_only_git_and_checker quiet_env two_tag_fs) as (_ & _ & Hall).
  exact (Hall _ H).
Defined.

(** ** Where the rules come from *)

Lemma one_tag_run : normal_run one_tag_env two_tag_fs (trace_run one_tag_env two_tag_fs).
Proof. run_by_computation. Defined.

(** X21.  Provenance of the corpus after a run that completes: a file
    below the corpus directory was there before the run, with the same
    content, or it is the byte-for-byte copy of a rule file of the clone
    tree that survived deduplication, whose fingerprint was not in the
    corpus before the run and whose staged copy the checker accepted; it
    then lies at [poc/<tag>/<file name>] for one of the tags the rule is
    routed to. *)
Theorem corpus_files_come_from_candidates env f0 r p c :
  fair_scheduling env → git_confined env → plain_tags env → normal_run env f0 r →
  under POC_DIR p → fs (final r) !! p = Some c →
  f0 !! p = Some c ∨
  ∃ rf t, rf ∈ candidates (fs (after_dedup r)) ∧
    fs (after_dedup r) !! os_path_join rf = Some c ∧
    (∀ q c', under POC_DIR q → f0 !! q = Some c' → hexdigest env c' ≠ hexdigest env c) ∧
    t ∈ staged_tags env c ∧ p = [POC_DIR; t; snd rf] ∧
    nuclei env [NUCLEI_BIN; "-validate"; "-t"; path_str [TMP_DIR; t; snd rf]] 120 (Some c)
      = Exited 0.
Proof.
  intros Hfair Hgit _ Hrun Hp Hc.
  destruct (corpus_file_origin env f0 r Hfair Hgit Hrun p c Hp Hc)
    as [?|(rf & t & ? & ? & ? & ? & ? & ?)]; [by left|].
  right. exists rf, t. split_and!; done.
Qed.

Lemma corpus_files_come_from_candidates_witness :
  fair_scheduling one_tag_env ∧ git_confined one_tag_env ∧ plain_tags one_tag_env ∧
  normal_run one_tag_env two_tag_fs (trace_run one_tag_env two_tag_fs) ∧
  fs (final (trace_run one_tag_env two_tag_fs)) !! ["poc"; "rce"; "x.yaml"] = Some "a,b:x" ∧
  ∃ rf t, rf ∈ candidates (fs (after_dedup (trace_run one_tag_env two_tag_fs))) ∧
    t ∈ staged_tags one_tag_env "a,b:x" ∧ ["poc"; "rce"; "x.yaml"] = [POC_DIR; t; snd rf].
Proof.
  assert (Hc : fs (final (trace_run one_tag_env two_tag_fs)) !! ["poc"; "rce"; "x.yaml"]
               = Some "a,b:x") by (vm_compute; reflexivity).
  split; [exact one_tag_fair|]. split; [exact one_tag_confined|]. split; [exact one_tag_plain|].
  split; [exact one_tag_run|]. split; [exact Hc|].
  assert (Hp : under POC_DIR ["poc"; "rce"; "x.yaml"]).
  { apply (bool_decide_unpack _). vm_compute. exact I. }
  destruct (corpus_files_come_from_candidates one_tag_env two_tag_fs _ _ _
              one_tag_fair one_tag_confined one_tag_plain one_tag_run Hp Hc)
    as [Hold|(rf & t & Hrf & _ & _ & Ht & Hpath & _)].
  - exfalso. vm_compute in Hold. discriminate Hold.
  - exists rf, t. split; [exact Hrf|]. split; [exact Ht|exact Hpath].
Defined.

Lemma first_with {A} (P : A → Prop) `{∀ x, Decision (P x)} (l : list A) x :
  x ∈ l → P x → ∃ l1 q l2, l = l1 ++ q :: l2 ∧ P q ∧ ∀ y, y ∈ l1 → ¬ P y.
Proof.
  induction l as [|a l IH]; [by intros ?%elem_of_nil|].
  intros Hin Hx. destruct (decide (P a)) as [Ha|Ha].
  { exists [], a, l. split_and!; [done..|]. by intros y ?%elem_of_nil. }
  apply elem_of_cons in Hin as [->|Hin]; [done|].
  destruct (IH Hin Hx) as (l1 & q & l2 & -> & Hq & Hl1).
  exists (a :: l1), q, l2. split_and!; [done..|].
  intros y [->|Hy]%elem_of_cons; [done|by apply Hl1].
Qed.

Lemma NoDup_split_unique {A} (l1 l2 l1' l2' : list A) q :
  NoDup (l1 ++ q :: l2) → l1 ++ q :: l2 = l1' ++ q :: l2' → l1 = l1'.
Proof.
  revert l1'. induction l1 as [|a l1 IH]; intros l1' Hnd Heq.
  - destruct l1' as [|a' l1']; [done|]. cbn in Heq. injection Heq as <- ->.
    apply NoDup_cons in Hnd as [Hq _]. exfalso. apply Hq. set_solver.
  - destruct l1' as [|a' l1'].
    + cbn in Heq. injection Heq as -> _.
      cbn in Hnd. apply NoDup_cons in Hnd as [Hq _]. exfalso. apply Hq. set_solver.
    + cbn in Heq. injection Heq as <- Heq. f_equal.
      cbn in Hnd. apply NoDup_cons in Hnd as [_ Hnd]. by apply IH.
Qed.

(** X22.  Deduplication loses no rule: for every rule file of the clone
    tree before a completed pass, a rule file with the same fingerprint is
    still there afterwards, with its content unchanged. *)
Theorem dedup_keeps_every_fingerprint env s s' rf h :
  fair_scheduling env → enterprise_deduplication env s = Done s' →
  rf ∈ candidates (fs s) → fingerprint env (fs s) (os_path_join rf) = Some h →
  ∃ rf', rf' ∈ candidates (fs s) ∧ rf' ∈ candidates (fs s') ∧
    fs s' !! os_path_join rf' = fs s !! os_path_join rf' ∧
    fingerprint env (fs s') (os_path_join rf') = Some h.
Proof.
  intros Hfair Hrun Hrf Hh.
  destruct (dedup_properties env s s' (Hfair Dedup) Hrun) as (_ & _ & Hkeep & _).
  set (order := as_completed env Dedup path (map os_path_join (candidates (fs s)))) in *.
  assert (Hnd : NoDup order).
  { unfold order. rewrite (Hfair Dedup). apply NoDup_filter_join. }
  assert (Hin : os_path_join rf ∈ order).
  { unfold order. rewrite (Hfair Dedup). by apply list_elem_of_fmap_2. }
  destruct (first_with (fun q => fingerprint env (fs s) q = Some h) order _ Hin Hh)
    as (l1 & q & l2 & Hsplit & Hq & Hfirst).
  assert (Hq' : q ∈ map os_path_join (candidates (fs s))).
  { rewrite <- (Hfair Dedup path). fold order. rewrite Hsplit. set_solver. }
  apply list_elem_of_fmap in Hq' as (rf' & -> & Hrf').
  assert (Hsame : fs s' !! os_path_join rf' = fs s !! os_path_join rf').
  { apply Hkeep. intros (l1' & l2' & q0 & Hsplit' & Hq0 & Hfp).
    rewrite Hsplit in Hnd. rewrite Hsplit in Hsplit'.
    apply (NoDup_split_unique _ _ _ _ _ Hnd) in Hsplit' as <-.
    apply (Hfirst q0 Hq0). by rewrite Hfp. }
  exists rf'. split_and!; [done| |done|].
  - apply elem_of_candidates. apply elem_of_candidates in Hrf' as (? & ? & ?).
    split_and!; [done| |done]. by rewrite Hsame.
  - unfold fingerprint in *. by rewrite Hsame.
Qed.

Lemma dedup_keeps_every_fingerprint_witness :
  fair_scheduling quiet_env ∧
  (∃ s', enterprise_deduplication quiet_env (mkState twin_fs []) = Done s' ∧
     ∃ rf', rf' ∈ candidates (fs s') ∧
       fingerprint quiet_env (fs s') (os_path_join rf') = Some "rce:x").
Proof.
  split; [exact quiet_fair|].
  exists (state_of (enterprise_deduplication quiet_env (mkState twin_fs []))).
  assert (Hrun : enterprise_deduplication quiet_env (mkState twin_fs []) =
                 Done (state_of (enterprise_deduplication quiet_env (mkState twin_fs [])))).
  { vm_compute. reflexivity. }
  split; [exact Hrun|].
  assert (Hrf : (["clone-templates"; "r1"], "x.yaml") ∈ candidates (fs (mkState twin_fs []))).
  { apply (bool_decide_unpack _). vm_compute. exact I. }
  destruct (dedup_keeps_every_fingerprint quiet_env _ _ _ "rce:x" quiet_fair Hrun Hrf eq_refl)
    as (rf' & _ & Hrf' & _ & Hfp).
  exists rf'. split; [exact Hrf'|exact Hfp].
Defined.
